(** * tar-diff: the delta-analysis engine of [analysis.go]

    A shallow embedding of [analysis.go] (package [tar_diff]) and the
    properties of its archive scanner, source selector and delta spooler.

    Conventions of the embedding.
    - Go [int64] values are integers [Z]; every arithmetic operation the
      source performs on them is followed by [wrap64], the two's-complement
      wrap-around, and [/] is the truncating [Z.quot].
    - Go strings are byte strings, here [string].
    - Go maps are [gmap]s; a lookup of a missing key in a map of pointers
      gives [nil], here [None].
    - A [*SourceInfo] always points into the slice [sourceInfos]; it is
      modelled by the index of the element, and a write through the pointer
      by an update of the slice at that index, so that every alias sees it.
    - A [*TarFileInfo] points into an inventory that is never written after
      the scan; it is modelled by the record itself. *)

From Stdlib Require Import ZArith String Ascii List Lia Bool Permutation.
From stdpp Require Import base option list gmap strings sorting.

Local Open Scope string_scope.
Local Open Scope Z_scope.

(** ** Machine integers *)

Definition wrap64 (z : Z) : Z := (z + 2 ^ 63) mod 2 ^ 64 - 2 ^ 63.

Definition int64_range (z : Z) : Prop := - 2 ^ 63 <= z < 2 ^ 63.

(** ** Data model *)

Definition similarityPercentThreshold : Z := 30.

(** The type [RollsumBlob] is declared in the chunker, outside
    [analysis.go]; the scanner reads its fields [offset] and [size] (here
    [blob_offset] and [blob_size], both [int64]) and nothing else. *)
Record RollsumBlob := mkBlob {
  blob_offset : Z;
  blob_size : Z;
  blob_digest : string
}.

Record TarFileInfo := mkFile {
  index : nat;
  basename : string;
  path : string;
  size : Z;
  sha1 : string;
  isExecutable : bool;
  worldReadable : bool;
  blobs : list RollsumBlob
}.

(** [files] is sorted by size and holds no file of size 0. *)
Record TarInfo := mkTarInfo {
  files : list TarFileInfo
}.

Record SourceInfo := mkSource {
  file : TarFileInfo;
  usedForDelta : bool;
  offset : Z
}.

(** ** Strings: the two library functions the selector uses *)

(** [strings.HasPrefix s prefix]. *)
Definition HasPrefix (s pre : string) : bool := String.prefix pre s.

(** [strings.SplitAfterN s sep 2] at index 0, for a one-byte separator: the
    part of [s] up to and including the first separator, or all of [s] when
    it holds none. *)
Fixpoint splitAfterFirst (sep : ascii) (s : string) : string :=
  match s with
  | EmptyString => EmptyString
  | String c s' =>
      if Ascii.eqb c sep then String c EmptyString
      else String c (splitAfterFirst sep s')
  end.

Definition dot : ascii := "."%char.

(** ** Eligibility and name similarity *)

Definition isDeltaCandidate (f : TarFileInfo) : bool :=
  if negb (worldReadable f) then false
  else if HasPrefix (basename f) ".xz" || HasPrefix (basename f) ".bz2"
       then false
       else true.

Definition nameIsSimilar (a b : TarFileInfo) (fuzzy : nat) : bool :=
  match fuzzy with
  | O => String.eqb (basename a) (basename b)
  | _ =>
      let aa := splitAfterFirst dot (basename a) in
      let bb := splitAfterFirst dot (basename b) in
      String.eqb aa bb
  end.

(** The reading of the specification for pass 1: the part of a name before
    its first ['.'], the separator excluded. *)
Fixpoint stemBeforeDot (s : string) : string :=
  match s with
  | EmptyString => EmptyString
  | String c s' =>
      if Ascii.eqb c dot then EmptyString else String c (stemBeforeDot s')
  end.

Fixpoint hasDot (s : string) : bool :=
  match s with
  | EmptyString => false
  | String c s' => Ascii.eqb c dot || hasDot s'
  end.

Definition named (b : string) : TarFileInfo :=
  mkFile 0 b b 1 EmptyString false true [].

(** ** What the engine takes from outside [analysis.go]

    The SHA-1 digest, the rolling-checksum chunker ([NewRollsum],
    [GetBlobs], [GetHeader], [maxBlobSize], [ComputeRollsumMatches]) and
    [sort.Slice] are not part of [analysis.go].  The engine is modelled over
    any choice of them.  [sortBySize] stands for [sort.Slice] with the
    comparison [files[i].size < files[j].size]; Go promises an ordered
    permutation and no stability. *)
Class Externals := {
  sha1Hex : list Byte.byte -> string;
  rollsumBlobs : list Byte.byte -> list RollsumBlob;
  rollsumHeader : list Byte.byte -> list Byte.byte;
  maxBlobSize : Z;
  sortBySize : list TarFileInfo -> list TarFileInfo;
  RollsumMatches : Type;
  ComputeRollsumMatches :
    list RollsumBlob -> list RollsumBlob -> RollsumMatches
}.

(** [source] is the index in [sourceInfos] of the record pointed to. *)
Record TargetInfo `{Externals} := mkTarget {
  tfile : TarFileInfo;
  source : option nat;
  rollsumMatches : option RollsumMatches
}.

Arguments mkTarget {_} _ _ _.
Arguments tfile {_} _.
Arguments source {_} _.
Arguments rollsumMatches {_} _.

(** ** Source selection *)

Definition minSizeOf (f : TarFileInfo) : Z :=
  wrap64 (size f -
          Z.quot (wrap64 (size f * similarityPercentThreshold)) 100).

Definition maxSizeOf (f : TarFileInfo) : Z :=
  wrap64 (size f +
          Z.quot (wrap64 (size f * similarityPercentThreshold)) 100).

(** The two lookup tables, filled in the order of [sourceInfos]: a later
    record with the same key replaces an earlier one. *)
Fixpoint indexSources (sis : list SourceInfo) (i : nat)
    (tabs : gmap string nat * gmap string nat)
    : gmap string nat * gmap string nat :=
  match sis with
  | [] => tabs
  | s :: rest =>
      indexSources rest (S i)
        (<[sha1 (file s) := i]> (fst tabs), <[path (file s) := i]> (snd tabs))
  end.

(** Following a pointer kept in a table. *)
Definition deref (sis : list SourceInfo) (p : option nat)
    : option (nat * SourceInfo) :=
  match p with
  | Some i => match sis !! i with Some s => Some (i, s) | None => None end
  | None => None
  end.

(** The inner loop [for j := lower; j < upper; j++], entered at [j] with
    [rest] the records from [j] on.  It gives the final value of [lower]
    and the record selected, if any. *)
Fixpoint scanPass (t : TarFileInfo) (fuzzy : nat) (rest : list SourceInfo)
    (j lower : nat) : nat * option nat :=
  match rest with
  | [] => (lower, None)
  | s :: rest' =>
      if negb (isDeltaCandidate (file s)) then
        scanPass t fuzzy rest' (S j) lower
      else if size (file s) <? minSizeOf t then
        scanPass t fuzzy rest' (S j) (S lower)
      else if size (file s) >? maxSizeOf t then (lower, None)
      else if negb (nameIsSimilar t (file s) fuzzy) then
        scanPass t fuzzy rest' (S j) lower
      else (lower, Some j)
  end.

(** The loop [for fuzzy := 0; fuzzy < 2 && source == nil; fuzzy++]: the
    fuzziness level that selected and the record selected. *)
Definition fuzzySearch (sis : list SourceInfo) (t : TarFileInfo)
    : option (nat * nat) :=
  let lower := 0%nat in
  let '(lower, r0) := scanPass t 0 (drop lower sis) lower lower in
  match r0 with
  | Some j => Some (0%nat, j)
  | None =>
      let '(_, r1) := scanPass t 1 (drop lower sis) lower lower in
      match r1 with
      | Some j => Some (1%nat, j)
      | None => None
      end
  end.

(** The same two passes, each one entered at index 0. *)
Definition fuzzySearchNaive (sis : list SourceInfo) (t : TarFileInfo)
    : option (nat * nat) :=
  match snd (scanPass t 0 sis 0 0) with
  | Some j => Some (0%nat, j)
  | None =>
      match snd (scanPass t 1 sis 0 0) with
      | Some j => Some (1%nat, j)
      | None => None
      end
  end.

(** How a source was found: the three places of the loop body that assign
    [source]. *)
Inductive Selection :=
  | ByDigest (j : nat)
  | ByPath (j : nat)
  | ByFuzzy (fuzzy j : nat).

Definition selected (c : Selection) : nat :=
  match c with ByDigest j | ByPath j | ByFuzzy _ j => j end.

Definition partialReuse (c : Selection) : bool :=
  match c with ByDigest _ => false | _ => true end.

(** The exact content match (lines 256 to 260). *)
Definition exactMatch (sis : list SourceInfo) (sourceBySha1 : gmap string nat)
    (t : TarFileInfo) : option nat :=
  match deref sis (sourceBySha1 !! sha1 t) with
  | Some (i, sha1Source) =>
      if (size t =? size (file sha1Source)) && worldReadable (file sha1Source)
      then Some i
      else None
  | None => None
  end.

(** The search for a useful source (lines 262 to 303): the exact pathname
    first, then the fuzzy scan. *)
Definition usefulSource (sis : list SourceInfo) (sourceByPath : gmap string nat)
    (t : TarFileInfo) : option Selection :=
  let minSize := minSizeOf t in
  let maxSize := maxSizeOf t in
  let byPath :=
    match deref sis (sourceByPath !! path t) with
    | Some (i, s) =>
        if isDeltaCandidate (file s) && (size (file s) >=? minSize)
           && (size (file s) <? maxSize)
        then Some i
        else None
    | None => None
    end in
  match byPath with
  | Some i => Some (ByPath i)
  | None =>
      match fuzzySearch sis t with
      | Some (fuzzy, j) => Some (ByFuzzy fuzzy j)
      | None => None
      end
  end.

(** The search part of the loop body for the target [t] (lines 253 to
    304). *)
Definition selectSource (sis : list SourceInfo)
    (sourceBySha1 sourceByPath : gmap string nat) (t : TarFileInfo)
    : option Selection :=
  match exactMatch sis sourceBySha1 t with
  | Some i => Some (ByDigest i)
  | None =>
      if isDeltaCandidate t then usefulSource sis sourceByPath t else None
  end.

Definition setUsedForDelta (u : bool) (s : SourceInfo) : SourceInfo :=
  mkSource (file s) u (offset s).

Definition setOffset (o : Z) (s : SourceInfo) : SourceInfo :=
  mkSource (file s) (usedForDelta s) o.

(** One turn of the loop over [new.files] (lines 251 to 316): the source
    records after it and the target record appended. *)
Definition processTarget `{Externals} (sourceBySha1 sourceByPath : gmap string nat)
    (sis : list SourceInfo) (t : TarFileInfo)
    : list SourceInfo * TargetInfo :=
  match selectSource sis sourceBySha1 sourceByPath t with
  | Some c =>
      let j := selected c in
      let used := partialReuse c in
      let matches :=
        match sis !! j with
        | Some s =>
            if used then Some (ComputeRollsumMatches (blobs (file s)) (blobs t))
            else None
        | None => None
        end in
      (alter (setUsedForDelta used) j sis, mkTarget t (Some j) matches)
  | None => (sis, mkTarget t None None)
  end.

Fixpoint selectAll `{Externals} (sourceBySha1 sourceByPath : gmap string nat)
    (sis : list SourceInfo) (targetInfos : list TargetInfo)
    (new : list TarFileInfo) : list SourceInfo * list TargetInfo :=
  match new with
  | [] => (sis, targetInfos)
  | t :: rest =>
      let '(sis', info) := processTarget sourceBySha1 sourceByPath sis t in
      selectAll sourceBySha1 sourceByPath sis' (targetInfos ++ [info])%list rest
  end.

Definition initialSources (old : TarInfo) : list SourceInfo :=
  (fun f => mkSource f false 0) <$> files old.

(** The selection pass of [analyzeForDelta] (lines 236 to 316): the table
    [sourceByPath], the source records and the target records. *)
Definition selectionPass `{Externals} (old new : TarInfo)
    : gmap string nat * list SourceInfo * list TargetInfo :=
  let sourceInfos := initialSources old in
  let '(sourceBySha1, sourceByPath) := indexSources sourceInfos 0 (∅, ∅) in
  let '(sourceInfos, targetInfos) :=
    selectAll sourceBySha1 sourceByPath sourceInfos [] (files new) in
  (sourceByPath, sourceInfos, targetInfos).

(** ** The archive stream

    The tar and gzip readers are given.  A decoded archive is the sequence of
    entries [rdr.Next] yields, then [io.EOF] ([nextErr = None]) or an error;
    [gzipErr] is the error of [gzip.NewReader], if any.  Reading the body of
    an entry with [io.Copy] delivers [data] and then fails with [readErr],
    if any.  A body that is not read is discarded by the next call of
    [rdr.Next], which returns [readErr], if any, in place of the next
    entry. *)
Record Header := mkHeader {
  Typeflag : ascii;
  Name : string;
  Size : Z;
  Mode : Z;
  PAXRecords : gmap string string
}.

Record TarEntry := mkEntry {
  hdr : Header;
  data : list Byte.byte;
  readErr : option string
}.

Record TarStream := mkStream {
  gzipErr : option string;
  entries : list TarEntry;
  nextErr : option string
}.

Definition TypeReg : ascii := "0"%char.
Definition TypeGNUSparse : ascii := "S"%char.

(** How a call ends: a value, a returned [error], [log.Fatalf] (the process
    exits) or a run-time panic. *)
Inductive outcome (A : Type) :=
  | Ok (a : A)
  | Err (e : string)
  | Fatal (msg : string)
  | Panic.

Arguments Ok {A} a.
Arguments Err {A} e.
Arguments Fatal {A} msg.
Arguments Panic {A}.

(** A lookup in a Go map of strings: the empty string for a missing key. *)
Definition paxRecord (h : Header) (k : string) : string :=
  default EmptyString (PAXRecords h !! k).

Definition nonEmpty (s : string) : bool := negb (String.eqb s EmptyString).

Definition isSparseFile (h : Header) : bool :=
  if Ascii.eqb (Typeflag h) TypeGNUSparse then true
  else if Ascii.eqb (Typeflag h) TypeReg
          && (nonEmpty (paxRecord h "GNU.sparse.major")
              || nonEmpty (paxRecord h "GNU.sparse.minor")
              || nonEmpty (paxRecord h "GNU.sparse.map"))
       then true
       else false.

Definition useTarHeader (h : Header) : bool :=
  if negb (Ascii.eqb (Typeflag h) TypeReg) then false
  else if Size h =? 0 then false
  else if isSparseFile h then false
  else true.

(** ** The archive scanner *)

(** [path.Base]. *)
Definition slash : ascii := "/"%char.

Fixpoint stripTrailingSlashes (s : string) : string :=
  match s with
  | EmptyString => EmptyString
  | String c s' =>
      let r := stripTrailingSlashes s' in
      if Ascii.eqb c slash && String.eqb r EmptyString then EmptyString
      else String c r
  end.

Fixpoint hasSlash (s : string) : bool :=
  match s with
  | EmptyString => false
  | String c s' => Ascii.eqb c slash || hasSlash s'
  end.

Fixpoint afterLastSlash (s : string) : string :=
  match s with
  | EmptyString => EmptyString
  | String c s' =>
      if hasSlash s' then afterLastSlash s'
      else if Ascii.eqb c slash then s'
      else s
  end.

Definition Base (p : string) : string :=
  if String.eqb p EmptyString then "."
  else
    let p := afterLastSlash (stripTrailingSlashes p) in
    if String.eqb p EmptyString then "/" else p.

(** The test for an ELF header on the first bytes of the entry. *)
Definition elfHeader (header : list Byte.byte) : bool :=
  (4 <? length header)%nat
  && match header with
     | Byte.x7f :: Byte.x45 :: Byte.x4c :: Byte.x46 :: _ => true
     | _ => false
     end.

(** The self validation of the chunk list (lines 133 to 144): the message
    of the fatal error, or the final value of [last]. *)
Fixpoint checkBlobs (maxBlob : Z) (bs : list RollsumBlob) (last : Z)
    : string + Z :=
  match bs with
  | [] => inr last
  | blob :: rest =>
      if negb (blob_offset blob =? last) then
        inl "Internal error: Wrong blob start"
      else if blob_size blob >? maxBlob then
        inl "Internal error: Wrong blob size"
      else checkBlobs maxBlob rest (wrap64 (blob_offset blob + blob_size blob))
  end.

(** The record built for an entry in use, at [index] in the stream. *)
Definition fileInfoOf `{Externals} (index : nat) (e : TarEntry) : TarFileInfo :=
  mkFile index (Base (Name (hdr e))) (Name (hdr e)) (Size (hdr e))
    (sha1Hex (data e))
    (elfHeader (rollsumHeader (data e)))
    (negb (Z.land (Mode (hdr e)) 4 =? 0))
    (rollsumBlobs (data e)).

(** The loop [for index := 0; true; index++] of [analyzeTar].  The body of
    an entry out of use is not read: the next [rdr.Next] discards it and
    returns its error. *)
Fixpoint scanEntries `{Externals} (es : list TarEntry) (nextErr : option string)
    (index : nat) (files : list TarFileInfo) : outcome (list TarFileInfo) :=
  match es with
  | [] =>
      match nextErr with
      | None => Ok files
      | Some err => Err err
      end
  | e :: rest =>
      if useTarHeader (hdr e) then
        match readErr e with
        | Some err => Err err
        | None =>
            match checkBlobs maxBlobSize (rollsumBlobs (data e)) 0 with
            | inl msg => Fatal msg
            | inr last =>
                if negb (last =? Size (hdr e)) then
                  Fatal "Internal error: Wrong blob end"
                else
                  scanEntries rest nextErr (S index)
                    (files ++ [fileInfoOf index e])%list
            end
        end
      else
        match readErr e with
        | Some err => Err err
        | None => scanEntries rest nextErr (S index) files
        end
  end.

Definition analyzeTar `{Externals} (targzFile : TarStream) : outcome TarInfo :=
  match gzipErr targzFile with
  | Some err => Err err
  | None =>
      match scanEntries (entries targzFile) (nextErr targzFile) 0 [] with
      | Ok files => Ok (mkTarInfo (sortBySize files))
      | Err err => Err err
      | Fatal msg => Fatal msg
      | Panic => Panic
      end
  end.

(** ** Scratch files

    The part of the operating system the engine acts on: the files of the
    temporary directory with their contents, the names of the files that
    have an open handle, the room left on the device, and the names
    [ioutil.TempFile] will pick (none left: it fails).  An [*os.File] is the
    name of its file. *)
Record World := mkWorld {
  disk : gmap string (list Byte.byte);
  opened : gset string;
  freeSpace : nat;
  tempNames : list string
}.

Definition TempFile (w : World) : World * outcome string :=
  match tempNames w with
  | [] => (w, Err "cannot create temporary file")
  | name :: names =>
      (mkWorld (<[name := []]> (disk w)) ({[name]} ∪ opened w) (freeSpace w)
         names,
       Ok name)
  end.

Definition appendTo (dest : string) (bytes : list Byte.byte) (w : World)
    : World :=
  mkWorld (alter (fun old => (old ++ bytes)%list) dest (disk w)) (opened w)
    (freeSpace w - length bytes)%nat (tempNames w).

(** [io.Copy dest rdr] on the body of the entry [e]: the bytes go to [dest]
    as long as there is room; the error is the write error, else the read
    error of the entry, else none. *)
Definition copyEntry (dest : string) (e : TarEntry) (w : World)
    : World * option string :=
  if (length (data e) <=? freeSpace w)%nat then
    (appendTo dest (data e) w, readErr e)
  else
    (appendTo dest (take (freeSpace w) (data e)) w,
     Some "no space left on device").

(** [os.File.Close] then [os.Remove]. *)
Definition closeAndRemove (name : string) (w : World) : World :=
  mkWorld (delete name (disk w)) (opened w ∖ {[name]}) (freeSpace w)
    (tempNames w).

(** ** The delta spooler *)

(** The loop of [extractDeltaData].  A path missing from [sourceByPath]
    gives a nil [info], and reading its field panics.  The body of an entry
    that is not copied is discarded by the next [rdr.Next], whose error is
    returned. *)
Fixpoint spoolEntries (es : list TarEntry) (nextErr : option string)
    (sourceByPath : gmap string nat) (dest : string) (offset : Z)
    (sis : list SourceInfo) (w : World)
    : list SourceInfo * World * outcome unit :=
  match es with
  | [] =>
      match nextErr with
      | None => (sis, w, Ok tt)
      | Some err => (sis, w, Err err)
      end
  | e :: rest =>
      if useTarHeader (hdr e) then
        match deref sis (sourceByPath !! Name (hdr e)) with
        | None => (sis, w, Panic)
        | Some (j, info) =>
            if usedForDelta info then
              let sis := alter (setOffset offset) j sis in
              let offset := wrap64 (offset + Size (hdr e)) in
              match copyEntry dest e w with
              | (w, Some err) => (sis, w, Err err)
              | (w, None) =>
                  spoolEntries rest nextErr sourceByPath dest offset sis w
              end
            else
              match readErr e with
              | Some err => (sis, w, Err err)
              | None =>
                  spoolEntries rest nextErr sourceByPath dest offset sis w
              end
        end
      else
        match readErr e with
        | Some err => (sis, w, Err err)
        | None => spoolEntries rest nextErr sourceByPath dest offset sis w
        end
  end.

Definition extractDeltaData (tarGzFile : TarStream)
    (sourceByPath : gmap string nat) (dest : string)
    (sis : list SourceInfo) (w : World)
    : list SourceInfo * World * outcome unit :=
  match gzipErr tarGzFile with
  | Some err => (sis, w, Err err)
  | None =>
      spoolEntries (entries tarGzFile) (nextErr tarGzFile) sourceByPath dest
        0 sis w
  end.

(** ** The analysis *)

(** [sourceData] is the scratch file; [targetInfoByIndex] maps the index of
    a file in the new archive to the position of its record in
    [targetInfos]. *)
Record DeltaAnalysis `{Externals} := mkAnalysis {
  targetInfos : list TargetInfo;
  sourceInfos : list SourceInfo;
  sourceData : string;
  targetInfoByIndex : gmap nat nat
}.

Arguments mkAnalysis {_} _ _ _ _.
Arguments targetInfos {_} _.
Arguments sourceInfos {_} _.
Arguments sourceData {_} _.
Arguments targetInfoByIndex {_} _.

Definition Close `{Externals} (a : DeltaAnalysis) (w : World) : World :=
  closeAndRemove (sourceData a) w.

Fixpoint indexTargets `{Externals} (tis : list TargetInfo) (i : nat)
    (m : gmap nat nat) : gmap nat nat :=
  match tis with
  | [] => m
  | t :: rest => indexTargets rest (S i) (<[index (tfile t) := i]> m)
  end.

Definition analyzeForDelta `{Externals} (old new : TarInfo)
    (oldFile : TarStream) (w : World) : World * outcome DeltaAnalysis :=
  let '(sourceByPath, sourceInfos, targetInfos) := selectionPass old new in
  let targetInfoByIndex := indexTargets targetInfos 0 ∅ in
  match TempFile w with
  | (w, Ok tmpfile) =>
      match extractDeltaData oldFile sourceByPath tmpfile sourceInfos w with
      | (sourceInfos, w, Ok _) =>
          (w, Ok (mkAnalysis targetInfos sourceInfos tmpfile targetInfoByIndex))
      | (_, w, Err err) => (w, Err err)
      | (_, w, Fatal msg) => (w, Fatal msg)
      | (_, w, Panic) => (w, Panic)
      end
  | (w, Err err) => (w, Err err)
  | (w, Fatal msg) => (w, Fatal msg)
  | (w, Panic) => (w, Panic)
  end.

(** ** A small instance, to run the engine on examples

    The digest of a body is the body itself, the chunker cuts one chunk per
    body, and the sort is a merge sort. *)
Definition bytesToString (d : list Byte.byte) : string :=
  string_of_list_byte d.

Definition oneChunk (d : list Byte.byte) : list RollsumBlob :=
  match d with
  | [] => []
  | _ => [mkBlob 0 (Z.of_nat (length d)) (bytesToString d)]
  end.

Definition sizeLe (a b : TarFileInfo) : Prop := size a <= size b.

#[local] Instance sizeLe_dec (a b : TarFileInfo) : Decision (sizeLe a b) :=
  Z_le_dec (size a) (size b).

Definition toyExternals : Externals := {|
  sha1Hex := bytesToString;
  rollsumBlobs := oneChunk;
  rollsumHeader := take 16;
  maxBlobSize := 65536;
  sortBySize := merge_sort sizeLe;
  RollsumMatches := unit;
  ComputeRollsumMatches := fun _ _ => tt
|}.

Definition emptyWorld : World := mkWorld ∅ ∅ 1000 ["tar-diff-1"].

(** An inventory of sources in ascending order of size. *)
Definition sizeSorted (sis : list SourceInfo) : Prop :=
  forall (i j : nat) (a b : SourceInfo),
    (i <= j)%nat -> sis !! i = Some a -> sis !! j = Some b ->
    size (file a) <= size (file b).

Fixpoint sizeSortedb (sis : list SourceInfo) : bool :=
  match sis with
  | [] => true
  | s :: rest =>
      forallb (fun s' => size (file s) <=? size (file s')) rest
      && sizeSortedb rest
  end.

(** Source records as the selection pass first builds them. *)
Definition sourcesOf (fs : list TarFileInfo) : list SourceInfo :=
  initialSources (mkTarInfo fs).

(** One lookup table on its own: the keys [key s] of the records of [sis],
    numbered from [i], added to [m] in order. *)
Fixpoint indexBy (key : SourceInfo -> string) (sis : list SourceInfo)
    (i : nat) (m : gmap string nat) : gmap string nat :=
  match sis with
  | [] => m
  | s :: rest => indexBy key rest (S i) (<[key s := i]> m)
  end.

Definition sha1Key (s : SourceInfo) : string := sha1 (file s).
Definition pathKey (s : SourceInfo) : string := path (file s).

(** ** Archives for the examples *)

Definition regular (name : string) (mode : Z) (body : string) : TarEntry :=
  let bytes := list_byte_of_string body in
  mkEntry (mkHeader TypeReg name (Z.of_nat (length bytes)) mode ∅) bytes None.

Definition archive (es : list TarEntry) : TarStream := mkStream None es None.

(** Mode 0644. *)
Definition rw_r_r : Z := 420.

(** Mode 0600. *)
Definition rw_only : Z := 384.

(** An old archive with one file, and a new archive where ["a"] has lost
    its last byte and ["b"] is the old ["a"]. *)
Definition oneFileOld : TarStream :=
  archive [regular "a" rw_r_r "0123456789"].

Definition shrunkNew : TarStream :=
  archive [regular "a" rw_r_r "012345678"].

Definition shrunkAndCopiedNew : TarStream :=
  archive [regular "a" rw_r_r "012345678"; regular "b" rw_r_r "0123456789"].

(** The old archive read a second time, the body of ["a"] cut short. *)
Definition oneFileOldTruncated : TarStream :=
  archive [mkEntry (mkHeader TypeReg "a" 10 rw_r_r ∅)
             (list_byte_of_string "0123") (Some "unexpected EOF")].

(** A sparse entry, out of use, whose body is cut short. *)
Definition sparseTruncated : TarStream :=
  archive [mkEntry (mkHeader TypeGNUSparse "s" 10 rw_r_r ∅)
             (list_byte_of_string "0123") (Some "unexpected EOF")].

Definition smallDisk : World := mkWorld ∅ ∅ 4 ["tar-diff-1"].

(** An old archive with ["b/x"] of 10 bytes and ["a/x"] of 13 bytes, and a
    new archive with ["a/x"] of 10 bytes: 13 is 10 + 10 * 30 / 100. *)
Definition twoDirsOld : TarStream :=
  archive [regular "b/x" rw_r_r "AAAAAAAAAA";
           regular "a/x" rw_r_r "BBBBBBBBBBBBB"].

Definition twoDirsOld12 : TarStream :=
  archive [regular "b/x" rw_r_r "AAAAAAAAAA";
           regular "a/x" rw_r_r "BBBBBBBBBBBB"].

Definition twoDirsNew : TarStream :=
  archive [regular "a/x" rw_r_r "CCCCCCCCCC"].

(** The two scans, then the analysis, on a given world. *)
Definition analyzeBoth `{Externals} (oldFile newFile oldAgain : TarStream)
    (w : World) : World * outcome DeltaAnalysis :=
  match analyzeTar oldFile, analyzeTar newFile with
  | Ok old, Ok new => analyzeForDelta old new oldAgain w
  | _, _ => (w, Panic)
  end.

(** A target record with a block correspondence: partial reuse. *)
Definition isPartial `{Externals} (ti : TargetInfo) : bool :=
  match rollsumMatches ti with
  | Some _ => true
  | None => false
  end.

Definition bytes (body : string) : list Byte.byte := list_byte_of_string body.

(** ** Chunk coverage *)

(** Where a chunk ends, as line 143 computes it. *)
Definition blobEnd (b : RollsumBlob) : Z :=
  wrap64 (blob_offset b + blob_size b).

(** The chunk list [bs] covers [[0, N)]: the first chunk is at offset 0,
    each chunk starts where the one before ends, the last chunk ends at
    [N], and no chunk is larger than [maxBlob]. *)
Definition chunkCoverage (maxBlob N : Z) (bs : list RollsumBlob) : Prop :=
  (forall b, bs !! 0%nat = Some b -> blob_offset b = 0) /\
  (forall (i : nat) (b b' : RollsumBlob),
     bs !! i = Some b -> bs !! S i = Some b' -> blob_offset b' = blobEnd b) /\
  (exists b, last bs = Some b /\ blobEnd b = N) /\
  (forall b, b ∈ bs -> blob_size b <= maxBlob).

(** The records of the entries in use, in the order of the stream. *)
Fixpoint eligibleInfos `{Externals} (es : list TarEntry) (index : nat)
    : list TarFileInfo :=
  match es with
  | [] => []
  | e :: rest =>
      if useTarHeader (hdr e) then
        fileInfoOf index e :: eligibleInfos rest (S index)
      else eligibleInfos rest (S index)
  end.

(** An entry the scanner accepts: its body is read, or discarded, without
    error, and when the entry is in use its chunk list passes the
    validation. *)
Definition entryAccepted `{Externals} (e : TarEntry) : Prop :=
  readErr e = None /\
  (useTarHeader (hdr e) = true ->
   checkBlobs maxBlobSize (rollsumBlobs (data e)) 0 = inr (Size (hdr e))).

(** ** What the spooler does, entry by entry

    The flag the loop of [extractDeltaData] reads for the entry named [p],
    the entries it copies, the bytes it writes and the value of [offset]
    after the entries [es]. *)
Definition flagAt (sourceByPath : gmap string nat) (sis : list SourceInfo)
    (p : string) : bool :=
  match deref sis (sourceByPath !! p) with
  | Some (_, info) => usedForDelta info
  | None => false
  end.

Definition spoolsEntry (sourceByPath : gmap string nat)
    (sis : list SourceInfo) (e : TarEntry) : bool :=
  useTarHeader (hdr e) && flagAt sourceByPath sis (Name (hdr e)).

Definition spooledOf (sourceByPath : gmap string nat) (sis : list SourceInfo)
    (es : list TarEntry) : list Byte.byte :=
  List.flat_map data (List.filter (spoolsEntry sourceByPath sis) es).

Fixpoint offsetAfter (sourceByPath : gmap string nat) (sis : list SourceInfo)
    (off : Z) (es : list TarEntry) : Z :=
  match es with
  | [] => off
  | e :: rest =>
      offsetAfter sourceByPath sis
        (if spoolsEntry sourceByPath sis e then wrap64 (off + Size (hdr e))
         else off)
        rest
  end.

(** ** The scratch store, as the specification describes it *)

(** The entry at position [i] of the old archive is consumed when the
    source record of the file of index [i] is flagged. *)
Definition consumedAt (sis : list SourceInfo) (i : nat) : bool :=
  existsb (fun s => (index (file s) =? i)%nat && usedForDelta s) sis.

(** The consumed entries among [es], the first of which is at position
    [i], in the order of the stream. *)
Fixpoint consumedEntries (sis : list SourceInfo) (es : list TarEntry)
    (i : nat) : list TarEntry :=
  match es with
  | [] => []
  | e :: rest =>
      if useTarHeader (hdr e) && consumedAt sis i
      then e :: consumedEntries sis rest (S i)
      else consumedEntries sis rest (S i)
  end.

Definition sizesSum (es : list TarEntry) : Z :=
  foldr (fun e acc => Size (hdr e) + acc) 0 es.

(** The names of the entries in use, in the order of the stream. *)
Definition eligibleNames (es : list TarEntry) : list string :=
  (fun e => Name (hdr e)) <$> List.filter (fun e => useTarHeader (hdr e)) es.

(** The tar reader delivers, for an entry in use, as many bytes as the
    header declares. *)
Definition bodiesMatchHeaders (es : list TarEntry) : Prop :=
  Forall (fun e => useTarHeader (hdr e) = true ->
                   Size (hdr e) = Z.of_nat (length (data e))) es.

Definition totalBytes (es : list TarEntry) : nat :=
  length (List.flat_map data es).

(** The source record a target record points to. *)
Definition sourceOf `{Externals} (a : DeltaAnalysis) (t : TargetInfo)
    : option SourceInfo :=
  match source t with
  | Some j => sourceInfos a !! j
  | None => None
  end.

(** Scratch-copy-once, for the analysis [a] of the old archive [oldFile]
    that left the world [w']: the scratch file holds the bodies of the
    consumed entries, each once, in the order of the stream, and nothing
    else; the offset recorded in a consumed source record is the sum of the
    sizes of the consumed entries met before its own entry, and the body of
    that entry is in the scratch file at that offset; two target records
    with the same source point to the same source record. *)
Definition scratchCopyOnce `{Externals} (oldFile : TarStream) (w' : World)
    (a : DeltaAnalysis) : Prop :=
  let es := entries oldFile in
  let sis := sourceInfos a in
  (exists scratch,
     disk w' !! sourceData a = Some scratch /\
     scratch = List.flat_map data (consumedEntries sis es 0) /\
     forall (j : nat) (s : SourceInfo),
       sis !! j = Some s -> usedForDelta s = true ->
       exists e,
         es !! index (file s) = Some e /\
         useTarHeader (hdr e) = true /\
         Name (hdr e) = path (file s) /\
         offset s = sizesSum (consumedEntries sis (take (index (file s)) es) 0)
         /\
         take (length (data e)) (drop (Z.to_nat (offset s)) scratch) = data e)
  /\
  (forall (k1 k2 j : nat) (t1 t2 : TargetInfo),
     targetInfos a !! k1 = Some t1 -> targetInfos a !! k2 = Some t2 ->
     source t1 = Some j -> source t2 = Some j ->
     is_Some (sourceInfos a !! j) /\ sourceOf a t1 = sourceOf a t2).

(** ** More archives for the examples *)

(** The inventory of an archive the scanner accepts. *)
Definition inventoryOf `{Externals} (targzFile : TarStream) : TarInfo :=
  match analyzeTar targzFile with
  | Ok info => info
  | _ => mkTarInfo []
  end.

(** The analysis a run returned. *)
Definition analysisOf `{Externals} (r : World * outcome DeltaAnalysis)
    : DeltaAnalysis :=
  match snd r with
  | Ok a => a
  | _ => mkAnalysis [] [] EmptyString ∅
  end.

(** A library renamed with its content unchanged. *)
Definition renamedOld : TarStream :=
  archive [regular "lib-1.2.so" rw_r_r "0123456789"].

Definition renamedNew : TarStream :=
  archive [regular "lib-1.3.so" rw_r_r "0123456789"].

(** Two old files with the same content, the second one readable by its
    owner only. *)
Definition shadowedOld : TarStream :=
  archive [regular "usr/b" rw_r_r "0123456789";
           regular "etc/a" rw_only "0123456789"].

Definition shadowedNew : TarStream :=
  archive [regular "usr/b" rw_r_r "0123456789"].

(** An old file with a reserved prefix, copied under another name. *)
Definition reservedOld : TarStream :=
  archive [regular ".xzdata" rw_r_r "0123456789"].

Definition reservedNew : TarStream :=
  archive [regular "copy" rw_r_r "0123456789"].

(** An old archive with the path ["p"] twice. *)
Definition twicePOld : TarStream :=
  archive [regular "p" rw_r_r "AAAA"; regular "p" rw_r_r "BB"].

Definition twicePNew : TarStream :=
  archive [regular "p" rw_r_r "CCCC"].

(** Sources and a target for the fuzzy scan. *)
Definition sized (b : string) (sz : Z) : TarFileInfo :=
  mkFile 0 b b sz EmptyString false true [].

Definition fuzzySources : list SourceInfo :=
  sourcesOf [sized "tiny" 10; sized "x.old" 95].

Definition fuzzyTarget : TarFileInfo := sized "x.new" 100.

(** A chunker that cuts one chunk of one byte, whatever the body. *)
Definition brokenExternals : Externals := {|
  sha1Hex := bytesToString;
  rollsumBlobs := fun _ => [mkBlob 0 1 EmptyString];
  rollsumHeader := take 16;
  maxBlobSize := 65536;
  sortBySize := merge_sort sizeLe;
  RollsumMatches := unit;
  ComputeRollsumMatches := fun _ _ => tt
|}.

(** ** What the fuzzy scan looks for *)

(** The tests a record passes to be selected at the level [fuzzy] for the
    target [t] (lines 281 to 296). *)
Definition qualifies (t : TarFileInfo) (fuzzy : nat) (s : SourceInfo) : bool :=
  isDeltaCandidate (file s)
  && (minSizeOf t <=? size (file s))
  && (size (file s) <=? maxSizeOf t)
  && nameIsSimilar t (file s) fuzzy.

(** ** The flag of a source over the targets *)

(** The target record [ti] points to the source record [j]. *)
Definition selects `{Externals} (j : nat) (ti : TargetInfo) : bool :=
  match source ti with
  | Some i => (i =? j)%nat
  | None => false
  end.

(** The flag of the source record [j] after the targets [tis], from the
    flag [init]: each target that selects [j] writes the flag (line 308). *)
Definition flagAfter `{Externals} (j : nat) (init : bool)
    (tis : list TargetInfo) : bool :=
  fold_left (fun b ti => if selects j ti then isPartial ti else b) tis init.

(** ** Chunk sizes *)

Definition sumBlobSizes (bs : list RollsumBlob) : Z :=
  foldr (fun b acc => blob_size b + acc) 0 bs.

(** The entries in use. *)
Definition entriesInUse (es : list TarEntry) : list TarEntry :=
  List.filter (fun e => useTarHeader (hdr e)) es.

(** ** Effects on the world *)

(** From [w] to [w'] nothing happened but bytes appended to the file
    [dest]: the other files, the open handles and the supply of temporary
    names are the same, and the room left did not grow. *)
Definition onlyAppends (dest : string) (w w' : World) : Prop :=
  (forall n : string, n <> dest -> disk w' !! n = disk w !! n) /\
  (exists more : list Byte.byte,
     disk w' !! dest = (fun old => (old ++ more)%list) <$> disk w !! dest) /\
  opened w' = opened w /\
  tempNames w' = tempNames w /\
  (freeSpace w' <= freeSpace w)%nat.

(** How a stream ends for the spooler. *)
Definition endOfStream (nextErr : option string) : outcome unit :=
  match nextErr with
  | None => Ok tt
  | Some err => Err err
  end.

(** The world after a successful [ioutil.TempFile] that picked [name]. *)
Definition withTempFile (name : string) (names : list string) (w : World)
    : World :=
  mkWorld (<[name := []]> (disk w)) ({[name]} ∪ opened w) (freeSpace w) names.

(** ** Data for further examples *)

(** A target no source of [fuzzySources] is similar to. *)
Definition lonelyTarget : TarFileInfo := sized "zzz" 100.

(** A new archive where ["a/x"] has 5 bytes: half of the old ["b/x"]. *)
Definition halvedNew : TarStream :=
  archive [regular "a/x" rw_r_r "CCCCC"].

(** Runs of the engine with the small instance. *)
Definition twoDirsRun : World * outcome DeltaAnalysis :=
  @analyzeBoth toyExternals twoDirsOld12 twoDirsNew twoDirsOld12 emptyWorld.

Definition twicePRun : World * outcome DeltaAnalysis :=
  @analyzeBoth toyExternals twicePOld twicePNew twicePOld emptyWorld.

Definition selfRun : World * outcome DeltaAnalysis :=
  @analyzeBoth toyExternals twoDirsOld twoDirsOld twoDirsOld emptyWorld.

(** * Properties *)

(** ** Name similarity *)

Lemma splitAfterFirst_dot_spec (s : string) :
  splitAfterFirst dot s =
    if hasDot s then stemBeforeDot s ++ "." else stemBeforeDot s.
Proof.
  induction s as [|c s IH]; simpl; [reflexivity|].
  destruct (Ascii.eqb_spec c dot) as [->|Hc]; simpl; [reflexivity|].
  rewrite IH. destruct (hasDot s); reflexivity.
Qed.

Lemma stemBeforeDot_no_dot (s : string) : hasDot (stemBeforeDot s) = false.
Proof.
  induction s as [|c s IH]; simpl; [reflexivity|].
  destruct (Ascii.eqb c dot) eqn:E; simpl; [reflexivity|].
  rewrite E. exact IH.
Qed.

Lemma hasDot_app_dot (s : string) : hasDot (s ++ ".") = true.
Proof.
  induction s as [|c s IH]; simpl; [reflexivity|].
  rewrite IH. apply orb_true_r.
Qed.

Lemma app_dot_inj (s t : string) : s ++ "." = t ++ "." -> s = t.
Proof.
  revert t. induction s as [|c s IH]; intros [|d t]; simpl; intros H.
  - reflexivity.
  - destruct t; discriminate.
  - destruct s; discriminate.
  - injection H as -> H. f_equal. apply IH, H.
Qed.

(** C3, as stated: pass 1 would compare the parts before the first ['.'].
    It fails on the code: ["foo"] and ["foo.tar"] have the same part before
    the first ['.'] and are not similar at pass 1. *)
Lemma C3_stem_excluding_refuted :
  ~ (forall a b : TarFileInfo,
       nameIsSimilar a b 1 = true <->
       stemBeforeDot (basename a) = stemBeforeDot (basename b)).
Proof.
  intros H.
  destruct (H (named "foo") (named "foo.tar")) as [_ H2].
  specialize (H2 eq_refl). vm_compute in H2. discriminate.
Qed.

(** C3, amended: at pass 1 two records are similar exactly when their
    basenames agree up to and including the first ['.'] (the whole name
    when it has none): the parts before the first ['.'] are equal and
    either both names hold a ['.'] or neither does.  So ["foo.tar"] is
    similar to ["foo.zip"], and ["foo"] is not similar to ["foo.tar"]. *)
Theorem C3_nameIsSimilar_pass1 :
  (forall a b : TarFileInfo,
     nameIsSimilar a b 1 = true <->
     stemBeforeDot (basename a) = stemBeforeDot (basename b) /\
     hasDot (basename a) = hasDot (basename b)) /\
  nameIsSimilar (named "foo.tar") (named "foo.zip") 1 = true /\
  nameIsSimilar (named "foo") (named "foo.tar") 1 = false.
Proof.
  split; [|split; reflexivity].
  intros a b. unfold nameIsSimilar.
  rewrite String.eqb_eq, !splitAfterFirst_dot_spec.
  destruct (hasDot (basename a)) eqn:Ha, (hasDot (basename b)) eqn:Hb.
  - split; [intros H; split; [apply app_dot_inj, H|reflexivity]|].
    intros [-> _]. reflexivity.
  - split; [|intros [_ ?]; discriminate].
    intros H. apply (f_equal hasDot) in H.
    rewrite hasDot_app_dot, stemBeforeDot_no_dot in H. discriminate.
  - split; [|intros [_ ?]; discriminate].
    intros H. apply (f_equal hasDot) in H.
    rewrite hasDot_app_dot, stemBeforeDot_no_dot in H. discriminate.
  - split; [intros ->; split; reflexivity|intros [-> _]; reflexivity].
Qed.

(** ** The size window *)

(** The window the code computes, with the wrap-around of [int64], lies
    inside the window computed over the integers. *)
Lemma window_sound (n x : Z) :
  0 <= n < 2 ^ 63 ->
  wrap64 (n - Z.quot (wrap64 (n * 30)) 100) <= x ->
  x <= wrap64 (n + Z.quot (wrap64 (n * 30)) 100) ->
  n - Z.quot (n * 30) 100 <= x <= n + Z.quot (n * 30) 100.
Proof.
  unfold wrap64. intros Hn Hlo Hhi.
  change (2 ^ 63) with 9223372036854775808 in *.
  change (2 ^ 64) with 18446744073709551616 in *.
  Z.to_euclidean_division_equations. lia.
Qed.

(** Without overflow the code's window is the window over the integers. *)
Lemma window_exact (t : TarFileInfo) :
  0 <= size t < 2 ^ 58 ->
  minSizeOf t = size t - Z.quot (size t * 30) 100 /\
  maxSizeOf t = size t + Z.quot (size t * 30) 100.
Proof.
  unfold minSizeOf, maxSizeOf, similarityPercentThreshold, wrap64. intros Hn.
  change (2 ^ 58) with 288230376151711744 in *.
  change (2 ^ 63) with 9223372036854775808 in *.
  change (2 ^ 64) with 18446744073709551616 in *.
  Z.to_euclidean_division_equations. lia.
Qed.

(** ** The fuzzy scan *)

(** A record selected by a pass passed the two size tests of the loop. *)
Lemma scanPass_selected (t : TarFileInfo) (fuzzy : nat)
    (rest : list SourceInfo) (j lower lower' k : nat) :
  scanPass t fuzzy rest j lower = (lower', Some k) ->
  exists s, rest !! (k - j)%nat = Some s /\ (j <= k)%nat /\
    isDeltaCandidate (file s) = true /\
    minSizeOf t <= size (file s) <= maxSizeOf t /\
    nameIsSimilar t (file s) fuzzy = true.
Proof.
  revert j lower. induction rest as [|s rest IH]; intros j lower; simpl.
  - discriminate.
  - destruct (isDeltaCandidate (file s)) eqn:Hc; simpl.
    + destruct (Z.ltb_spec (size (file s)) (minSizeOf t)) as [Hlo|Hlo].
      * intros H. destruct (IH _ _ H) as (s' & Hs' & Hle & Hrest).
        exists s'. replace (k - j)%nat with (S (k - S j)) by lia.
        split; [exact Hs'|]. split; [lia|exact Hrest].
      * destruct (Z.gtb_spec (size (file s)) (maxSizeOf t)) as [Hhi|Hhi];
          [discriminate|].
        destruct (nameIsSimilar t (file s) fuzzy) eqn:Hn; simpl.
        -- intros [= <- <-]. exists s. rewrite Nat.sub_diag.
           repeat split; try assumption; lia.
        -- intros H. destruct (IH _ _ H) as (s' & Hs' & Hle & Hrest).
           exists s'. replace (k - j)%nat with (S (k - S j)) by lia.
           split; [exact Hs'|]. split; [lia|exact Hrest].
    + intros H. destruct (IH _ _ H) as (s' & Hs' & Hle & Hrest).
      exists s'. replace (k - j)%nat with (S (k - S j)) by lia.
      split; [exact Hs'|]. split; [lia|exact Hrest].
Qed.

(** The record selected does not depend on the value of [lower] the pass is
    entered with. *)
Lemma scanPass_lower_irrelevant (t : TarFileInfo) (fuzzy : nat)
    (rest : list SourceInfo) (j lower1 lower2 : nat) :
  snd (scanPass t fuzzy rest j lower1) = snd (scanPass t fuzzy rest j lower2).
Proof.
  revert j lower1 lower2.
  induction rest as [|s rest IH]; intros j lower1 lower2; simpl;
    [reflexivity|].
  destruct (isDeltaCandidate (file s)); simpl; [|apply IH].
  destruct (size (file s) <? minSizeOf t); [apply IH|].
  destruct (size (file s) >? maxSizeOf t); [reflexivity|].
  destruct (nameIsSimilar t (file s) fuzzy); simpl; [reflexivity|apply IH].
Qed.

(** A pass walks over records it cannot select: those that are no delta
    candidates and those below the window. *)
Lemma scanPass_skip_prefix (t : TarFileInfo) (fuzzy : nat)
    (pre rest : list SourceInfo) (j lower : nat) :
  Forall (fun s => isDeltaCandidate (file s) = false \/
                   size (file s) < minSizeOf t) pre ->
  snd (scanPass t fuzzy (pre ++ rest) j lower) =
  snd (scanPass t fuzzy rest (j + length pre) lower).
Proof.
  revert j lower. induction pre as [|s pre IH]; intros j lower Hpre; simpl.
  - rewrite Nat.add_0_r. reflexivity.
  - apply Forall_cons in Hpre as [Hs Hpre].
    replace (j + S (length pre))%nat with (S j + length pre)%nat by lia.
    destruct (isDeltaCandidate (file s)) eqn:Hc; simpl; [|apply IH, Hpre].
    destruct Hs as [Hs|Hs]; [discriminate|].
    destruct (Z.ltb_spec (size (file s)) (minSizeOf t)); [|lia].
    rewrite (IH _ _ Hpre).
    apply scanPass_lower_irrelevant.
Qed.

Lemma sizeSorted_tail (s : SourceInfo) (rest : list SourceInfo) :
  sizeSorted (s :: rest) -> sizeSorted rest.
Proof.
  intros H i j a b Hij Ha Hb. apply (H (S i) (S j)); [lia|exact Ha|exact Hb].
Qed.

Lemma sizeSorted_head (s s' : SourceInfo) (rest : list SourceInfo) (i : nat) :
  sizeSorted (s :: rest) -> rest !! i = Some s' ->
  size (file s) <= size (file s').
Proof.
  intros H Hi. apply (H 0%nat (S i)); [lia|reflexivity|exact Hi].
Qed.

(** In a sorted inventory, [lower] never moves past a record that is in or
    above the window: the records it has counted are below the window, and
    so are the first records of the slice, as many as were counted. *)
Lemma scanPass_lower_below (t : TarFileInfo) (fuzzy : nat)
    (rest : list SourceInfo) (j lower : nat) :
  sizeSorted rest ->
  (lower <= fst (scanPass t fuzzy rest j lower))%nat /\
  forall i : nat, (i < fst (scanPass t fuzzy rest j lower) - lower)%nat ->
    exists s, rest !! i = Some s /\ size (file s) < minSizeOf t.
Proof.
  revert j lower. induction rest as [|s rest IH]; intros j lower Hs; simpl.
  - split; [lia|]. intros i Hi. lia.
  - pose proof (sizeSorted_tail _ _ Hs) as Hs'.
    assert (Hskip : forall lo : nat,
      (lo <= fst (scanPass t fuzzy rest (S j) lo))%nat ->
      (forall i, (i < fst (scanPass t fuzzy rest (S j) lo) - lo)%nat ->
         exists s0, rest !! i = Some s0 /\ size (file s0) < minSizeOf t) ->
      forall i, (i < fst (scanPass t fuzzy rest (S j) lo) - lo)%nat ->
        exists s0, (s :: rest) !! i = Some s0 /\
                   size (file s0) < minSizeOf t).
    { intros lo Hle Hall i Hi. destruct i as [|i].
      - destruct (Hall 0%nat) as (s0 & Hs0 & Hlt); [lia|].
        exists s. split; [reflexivity|].
        pose proof (sizeSorted_head _ _ _ _ Hs Hs0). lia.
      - destruct (Hall i) as (s0 & Hs0 & Hlt); [lia|].
        exists s0. split; [exact Hs0|exact Hlt]. }
    destruct (isDeltaCandidate (file s)) eqn:Hc; simpl.
    + destruct (Z.ltb_spec (size (file s)) (minSizeOf t)) as [Hlo|Hlo].
      * destruct (IH (S j) (S lower) Hs') as [Hle Hall].
        split; [lia|]. intros i Hi. destruct i as [|i].
        -- exists s. split; [reflexivity|exact Hlo].
        -- destruct (Hall i) as (s0 & Hs0 & Hlt); [lia|].
           exists s0. split; [exact Hs0|exact Hlt].
      * destruct (size (file s) >? maxSizeOf t); simpl.
        { split; [lia|]. intros i Hi. lia. }
        destruct (nameIsSimilar t (file s) fuzzy); simpl.
        { split; [lia|]. intros i Hi. lia. }
        destruct (IH (S j) lower Hs') as [Hle Hall].
        split; [exact Hle|]. apply Hskip; assumption.
    + destruct (IH (S j) lower Hs') as [Hle Hall].
      split; [exact Hle|]. apply Hskip; assumption.
Qed.

Lemma sizeSortedb_sound (sis : list SourceInfo) :
  sizeSortedb sis = true -> sizeSorted sis.
Proof.
  induction sis as [|s rest IH]; simpl.
  - intros _ i j a b _ Ha. destruct i; discriminate.
  - intros H. apply andb_prop in H as [Hhd Htl]. specialize (IH Htl).
    rewrite forallb_forall in Hhd.
    intros i j a b Hij Ha Hb. destruct i as [|i], j as [|j]; simpl in *.
    + injection Ha as <-. injection Hb as <-. lia.
    + injection Ha as <-.
      assert (Hin : In b rest).
      { apply list_elem_of_In, list_elem_of_lookup. exists j. exact Hb. }
      apply Hhd in Hin. lia.
    + lia.
    + apply (IH i j); [lia|exact Ha|exact Hb].
Qed.

(** What [fuzzySearch] selects is a delta candidate of the inventory, inside
    the window the code computes, similar in name at the level reported. *)
Lemma fuzzySearch_selected (sis : list SourceInfo) (t : TarFileInfo)
    (fz j : nat) :
  fuzzySearch sis t = Some (fz, j) ->
  exists s, sis !! j = Some s /\
    isDeltaCandidate (file s) = true /\
    minSizeOf t <= size (file s) <= maxSizeOf t /\
    nameIsSimilar t (file s) fz = true /\ (fz < 2)%nat.
Proof.
  unfold fuzzySearch. rewrite drop_0.
  destruct (scanPass t 0 sis 0 0) as [lower r0] eqn:E0.
  destruct r0 as [k|].
  - intros [= <- <-].
    destruct (scanPass_selected _ _ _ _ _ _ _ E0) as (s & Hs & _ & Hrest).
    rewrite Nat.sub_0_r in Hs. exists s. split; [exact Hs|].
    destruct Hrest as (? & ? & ?). repeat split; try assumption; lia.
  - destruct (scanPass t 1 (drop lower sis) lower lower) as [l2 r1] eqn:E1.
    destruct r1 as [k|]; [|discriminate].
    intros [= <- <-].
    destruct (scanPass_selected _ _ _ _ _ _ _ E1) as (s & Hs & Hle & Hrest).
    rewrite lookup_drop in Hs.
    replace (lower + (k - lower))%nat with k in Hs by lia.
    exists s. split; [exact Hs|].
    destruct Hrest as (? & ? & ?). repeat split; try assumption; lia.
Qed.

Lemma selectSource_fuzzy (sis : list SourceInfo)
    (sourceBySha1 sourceByPath : gmap string nat) (t : TarFileInfo)
    (fz j : nat) :
  selectSource sis sourceBySha1 sourceByPath t = Some (ByFuzzy fz j) ->
  isDeltaCandidate t = true /\ fuzzySearch sis t = Some (fz, j).
Proof.
  unfold selectSource, usefulSource.
  destruct (exactMatch sis sourceBySha1 t); [discriminate|].
  destruct (isDeltaCandidate t); [|discriminate].
  destruct (match deref sis (sourceByPath !! path t) with
            | Some _ => _ | None => _ end); [discriminate|].
  destruct (fuzzySearch sis t) as [[fz' j']|]; [|discriminate].
  intros [= -> ->]. split; reflexivity.
Qed.

(** C8: a source selected for the target [t] by the fuzzy scan, at either
    level, has its size inside the window
    [[size t - size t * 30 / 100, size t + size t * 30 / 100]], both ends
    computed over the integers with truncating division. *)
Theorem C8_fuzzy_source_within_window (sis : list SourceInfo)
    (sourceBySha1 sourceByPath : gmap string nat) (t : TarFileInfo)
    (fz j : nat) :
  0 <= size t < 2 ^ 63 ->
  selectSource sis sourceBySha1 sourceByPath t = Some (ByFuzzy fz j) ->
  exists s, sis !! j = Some s /\
    size t - Z.quot (size t * 30) 100 <= size (file s)
      <= size t + Z.quot (size t * 30) 100.
Proof.
  intros Ht Hsel. apply selectSource_fuzzy in Hsel as [_ Hsel].
  destruct (fuzzySearch_selected _ _ _ _ Hsel) as (s & Hs & _ & Hwin & _).
  exists s. split; [exact Hs|].
  apply window_sound; [exact Ht|apply Hwin|apply Hwin].
Qed.

(** C9: on an inventory sorted by size, the scan that enters pass 1 at the
    lower bound left by pass 0 selects the same source at the same level as
    the scan that enters both passes at index 0. *)
Theorem C9_shared_lower_bound_same_as_naive (sis : list SourceInfo)
    (t : TarFileInfo) :
  sizeSorted sis -> fuzzySearch sis t = fuzzySearchNaive sis t.
Proof.
  intros Hsorted. unfold fuzzySearch, fuzzySearchNaive. rewrite drop_0.
  pose proof (scanPass_lower_below t 0 sis 0 0 Hsorted) as [_ Hbelow].
  destruct (scanPass t 0 sis 0 0) as [lower r0] eqn:E0. simpl in *.
  destruct r0 as [k|]; [reflexivity|].
  rewrite Nat.sub_0_r in Hbelow.
  assert (Hpre : Forall (fun s => isDeltaCandidate (file s) = false \/
                                  size (file s) < minSizeOf t)
                        (take lower sis)).
  { apply Forall_lookup. intros i s Hi.
    apply lookup_take_Some in Hi as [Hi Hlt].
    destruct (Hbelow i Hlt) as (s' & Hs' & Hsz).
    right. congruence. }
  assert (Hlen : length (take lower sis) = lower).
  { apply length_take_le. destruct lower as [|l]; [lia|].
    destruct (Hbelow l) as (s' & Hs' & _); [lia|].
    apply lookup_lt_Some in Hs'. lia. }
  pose proof (scanPass_skip_prefix t 1 (take lower sis) (drop lower sis)
                0 0 Hpre) as Hskip.
  rewrite take_drop, Hlen in Hskip. simpl in Hskip.
  rewrite Hskip.
  rewrite (scanPass_lower_irrelevant t 1 (drop lower sis) lower 0 lower).
  destruct (scanPass t 1 (drop lower sis) lower lower) as [l2 r1].
  reflexivity.
Qed.

(** ** The lookup tables *)

Lemma indexSources_indexBy (sis : list SourceInfo) (i : nat)
    (tabs : gmap string nat * gmap string nat) :
  indexSources sis i tabs =
    (indexBy sha1Key sis i (fst tabs), indexBy pathKey sis i (snd tabs)).
Proof.
  revert i tabs. induction sis as [|s rest IH]; intros i [m1 m2]; simpl.
  - reflexivity.
  - rewrite IH. reflexivity.
Qed.

Lemma indexBy_absent (key : SourceInfo -> string) (sis : list SourceInfo)
    (i : nat) (m : gmap string nat) (h : string) :
  Forall (fun s => key s <> h) sis ->
  indexBy key sis i m !! h = m !! h.
Proof.
  revert i m. induction sis as [|s rest IH]; intros i m Hall; simpl.
  - reflexivity.
  - apply Forall_cons in Hall as [Hs Hrest].
    rewrite (IH _ _ Hrest). apply lookup_insert_ne. exact Hs.
Qed.

(** The table holds, for a key, the last record with that key. *)
Lemma indexBy_last (key : SourceInfo -> string) (sis : list SourceInfo)
    (i : nat) (m : gmap string nat) (j : nat) (s : SourceInfo) :
  sis !! j = Some s ->
  (forall (j' : nat) (s' : SourceInfo),
     (j < j')%nat -> sis !! j' = Some s' -> key s' <> key s) ->
  indexBy key sis i m !! key s = Some (i + j)%nat.
Proof.
  revert i m j. induction sis as [|s0 rest IH]; intros i m j Hj Hlast.
  - discriminate.
  - destruct j as [|j]; simpl in *.
    + injection Hj as ->.
      rewrite indexBy_absent.
      * rewrite lookup_insert_eq. f_equal. lia.
      * apply Forall_lookup. intros k s' Hk.
        apply (Hlast (S k)); [lia|exact Hk].
    + replace (i + S j)%nat with (S i + j)%nat by lia.
      apply IH; [exact Hj|].
      intros j' s' Hlt Hs'. apply (Hlast (S j')); [lia|exact Hs'].
Qed.

(** What the table holds for a key is a record with that key, or what was
    there before. *)
Lemma indexBy_sound (key : SourceInfo -> string) (sis : list SourceInfo)
    (i : nat) (m : gmap string nat) (h : string) (n : nat) :
  indexBy key sis i m !! h = Some n ->
  m !! h = Some n \/
  exists (j : nat) (s : SourceInfo),
    n = (i + j)%nat /\ sis !! j = Some s /\ key s = h.
Proof.
  revert i m. induction sis as [|s0 rest IH]; intros i m; simpl.
  - intros H. left. exact H.
  - intros H. apply IH in H as [H|(j & s & -> & Hs & Hk)].
    + destruct (decide (key s0 = h)) as [Heq|Hne].
      * rewrite <- Heq, lookup_insert_eq in H. injection H as <-.
        right. exists 0%nat, s0. split; [lia|]. split; [reflexivity|exact Heq].
      * rewrite lookup_insert_ne in H by exact Hne. left. exact H.
    + right. exists (S j), s. split; [lia|]. split; [exact Hs|exact Hk].
Qed.

(** ** Selection reads the file records only *)

Lemma sameFiles_lookup (a b : list SourceInfo) (i : nat) :
  file <$> a = file <$> b -> file <$> (a !! i) = file <$> (b !! i).
Proof. intros H. rewrite <- !list_lookup_fmap, H. reflexivity. Qed.

Lemma scanPass_sameFiles (t : TarFileInfo) (fuzzy : nat)
    (a b : list SourceInfo) (j lower : nat) :
  file <$> a = file <$> b ->
  scanPass t fuzzy a j lower = scanPass t fuzzy b j lower.
Proof.
  revert b j lower. induction a as [|s a IH]; intros [|s' b] j lower H;
    try discriminate; [reflexivity|].
  injection H as Hs Hrest. simpl. rewrite <- Hs.
  rewrite !(IH b _ _ Hrest). reflexivity.
Qed.

Lemma fuzzySearch_sameFiles (a b : list SourceInfo) (t : TarFileInfo) :
  file <$> a = file <$> b -> fuzzySearch a t = fuzzySearch b t.
Proof.
  intros H. unfold fuzzySearch. rewrite !drop_0.
  rewrite (scanPass_sameFiles t 0 a b 0 0 H).
  destruct (scanPass t 0 b 0 0) as [lower r0].
  destruct r0; [reflexivity|].
  rewrite (scanPass_sameFiles t 1 (drop lower a) (drop lower b)).
  - reflexivity.
  - rewrite !fmap_drop, H. reflexivity.
Qed.

Lemma deref_sameFiles (a b : list SourceInfo) (p : option nat) :
  file <$> a = file <$> b ->
  match deref a p, deref b p with
  | Some (i, s), Some (i', s') => i = i' /\ file s = file s'
  | None, None => True
  | _, _ => False
  end.
Proof.
  intros H. destruct p as [i|]; simpl; [|exact I].
  pose proof (sameFiles_lookup a b i H) as Hi.
  destruct (a !! i), (b !! i); simpl in Hi; try discriminate; [|exact I].
  injection Hi as Hi. split; [reflexivity|exact Hi].
Qed.

Lemma selectSource_sameFiles (a b : list SourceInfo)
    (sourceBySha1 sourceByPath : gmap string nat) (t : TarFileInfo) :
  file <$> a = file <$> b ->
  selectSource a sourceBySha1 sourceByPath t =
  selectSource b sourceBySha1 sourceByPath t.
Proof.
  intros H. unfold selectSource, exactMatch, usefulSource.
  rewrite (fuzzySearch_sameFiles a b t H).
  pose proof (deref_sameFiles a b (sourceBySha1 !! sha1 t) H) as H1.
  pose proof (deref_sameFiles a b (sourceByPath !! path t) H) as H2.
  destruct (deref a (sourceBySha1 !! sha1 t)) as [[i1 s1]|],
           (deref b (sourceBySha1 !! sha1 t)) as [[i1' s1']|];
    try contradiction;
  destruct (deref a (sourceByPath !! path t)) as [[i2 s2]|],
           (deref b (sourceByPath !! path t)) as [[i2' s2']|];
    try contradiction;
  repeat match goal with
         | Hx : _ = _ /\ file _ = file _ |- _ => destruct Hx as [-> ->]
         end; reflexivity.
Qed.

(** ** The selection pass, target by target *)

Lemma processTarget_files `{Externals}
    (sourceBySha1 sourceByPath : gmap string nat) (sis : list SourceInfo)
    (t : TarFileInfo) :
  file <$> fst (processTarget sourceBySha1 sourceByPath sis t) = file <$> sis.
Proof.
  unfold processTarget.
  destruct (selectSource sis sourceBySha1 sourceByPath t) as [c|]; simpl;
    [|reflexivity].
  rewrite (list_fmap_alter file _ id).
  - apply list_alter_id. reflexivity.
  - apply Forall_forall. reflexivity.
Qed.

Lemma processTarget_sameFiles `{Externals}
    (sourceBySha1 sourceByPath : gmap string nat) (a b : list SourceInfo)
    (t : TarFileInfo) :
  file <$> a = file <$> b ->
  snd (processTarget sourceBySha1 sourceByPath a t) =
  snd (processTarget sourceBySha1 sourceByPath b t).
Proof.
  intros Hab. unfold processTarget.
  rewrite (selectSource_sameFiles a b _ _ t Hab).
  destruct (selectSource b sourceBySha1 sourceByPath t) as [c|]; simpl;
    [|reflexivity].
  pose proof (sameFiles_lookup a b (selected c) Hab) as Hj.
  destruct (a !! selected c), (b !! selected c); simpl in Hj;
    try discriminate; [|reflexivity].
  injection Hj as ->. reflexivity.
Qed.

(** The assignment of line 308 writes the flag of the source selected,
    whatever the flag was: an exact match leaves it false. *)
Lemma exact_match_overwrites_flag `{Externals}
    (sourceBySha1 sourceByPath : gmap string nat) (sis : list SourceInfo)
    (t : TarFileInfo) (j : nat) (s : SourceInfo) :
  selectSource sis sourceBySha1 sourceByPath t = Some (ByDigest j) ->
  sis !! j = Some s ->
  fst (processTarget sourceBySha1 sourceByPath sis t) !! j
    = Some (mkSource (file s) false (offset s)).
Proof.
  intros Hsel Hs. unfold processTarget. rewrite Hsel. simpl.
  rewrite list_lookup_alter_eq, Hs. reflexivity.
Qed.

(** The target records are those of the targets taken one by one against
    the initial source records; the file records of the sources stay. *)
Lemma selectAll_spec `{Externals}
    (sourceBySha1 sourceByPath : gmap string nat) (sis : list SourceInfo)
    (tis : list TargetInfo) (new : list TarFileInfo) :
  file <$> fst (selectAll sourceBySha1 sourceByPath sis tis new)
    = file <$> sis /\
  snd (selectAll sourceBySha1 sourceByPath sis tis new)
    = (tis ++ ((fun t => snd (processTarget sourceBySha1 sourceByPath sis t))
                 <$> new))%list.
Proof.
  revert sis tis. induction new as [|t rest IH]; intros sis tis; simpl.
  - split; [reflexivity|]. rewrite app_nil_r. reflexivity.
  - pose proof (processTarget_files sourceBySha1 sourceByPath sis t) as Hf.
    destruct (processTarget sourceBySha1 sourceByPath sis t) as [sis' info]
      eqn:E.
    simpl in Hf. destruct (IH sis' (tis ++ [info])%list) as [IH1 IH2].
    split; [congruence|].
    rewrite IH2, <- app_assoc. simpl. do 2 f_equal.
    apply list_fmap_ext. intros _ t' _.
    apply processTarget_sameFiles. exact Hf.
Qed.

Lemma deref_Some (sis : list SourceInfo) (p : option nat) (i : nat)
    (s : SourceInfo) :
  deref sis p = Some (i, s) -> p = Some i /\ sis !! i = Some s.
Proof.
  unfold deref. destruct p as [k|]; [|discriminate].
  destruct (sis !! k) eqn:E; [|discriminate].
  intros [= -> ->]. split; [reflexivity|exact E].
Qed.

(** What each way of selecting a source has checked. *)
Lemma selectSource_cases (sis : list SourceInfo)
    (sourceBySha1 sourceByPath : gmap string nat) (t : TarFileInfo)
    (c : Selection) :
  selectSource sis sourceBySha1 sourceByPath t = Some c ->
  match c with
  | ByDigest j =>
      exists s, sis !! j = Some s /\ sourceBySha1 !! sha1 t = Some j /\
        size t = size (file s) /\ worldReadable (file s) = true
  | ByPath j =>
      exists s, sis !! j = Some s /\ sourceByPath !! path t = Some j /\
        isDeltaCandidate t = true /\ isDeltaCandidate (file s) = true /\
        minSizeOf t <= size (file s) < maxSizeOf t
  | ByFuzzy fz j =>
      isDeltaCandidate t = true /\ fuzzySearch sis t = Some (fz, j)
  end.
Proof.
  intros Hsel. destruct c as [j|j|fz j];
    [| |exact (selectSource_fuzzy _ _ _ _ _ _ Hsel)];
    unfold selectSource in Hsel.
  - unfold exactMatch in Hsel.
    destruct (deref sis (sourceBySha1 !! sha1 t)) as [[i s]|] eqn:E.
    + apply deref_Some in E as [E1 E2].
      destruct ((size t =? size (file s)) && worldReadable (file s)) eqn:Ec.
      * injection Hsel as <-. apply andb_prop in Ec as [Hsz Hr].
        exists s. repeat split; try assumption. lia.
      * destruct (isDeltaCandidate t); [|discriminate].
        unfold usefulSource in Hsel.
        destruct (match deref sis (sourceByPath !! path t) with
                  | Some _ => _ | None => _ end); [discriminate|].
        destruct (fuzzySearch sis t) as [[fz' j']|]; discriminate.
    + destruct (isDeltaCandidate t); [|discriminate].
      unfold usefulSource in Hsel.
      destruct (match deref sis (sourceByPath !! path t) with
                | Some _ => _ | None => _ end); [discriminate|].
      destruct (fuzzySearch sis t) as [[fz' j']|]; discriminate.
  - destruct (exactMatch sis sourceBySha1 t); [discriminate|].
    destruct (isDeltaCandidate t); [|discriminate].
    unfold usefulSource in Hsel.
    destruct (deref sis (sourceByPath !! path t)) as [[i s]|] eqn:E.
    + apply deref_Some in E as [E1 E2].
      destruct (isDeltaCandidate (file s) && (size (file s) >=? minSizeOf t)
                && (size (file s) <? maxSizeOf t)) eqn:Ec.
      * injection Hsel as <-.
        apply andb_prop in Ec as [Ec Hhi]. apply andb_prop in Ec as [Hc Hlo].
        exists s. repeat split; try assumption; lia.
      * destruct (fuzzySearch sis t) as [[fz' j']|]; discriminate.
    + destruct (fuzzySearch sis t) as [[fz' j']|]; discriminate.
Qed.

(** ** The selection pass as a whole *)

Section SelectionPass.

Context `{Externals}.
Variables old new : TarInfo.

Let sis0 : list SourceInfo := initialSources old.
Let sourceBySha1 : gmap string nat := indexBy sha1Key sis0 0 ∅.
Let sourceByPath : gmap string nat := indexBy pathKey sis0 0 ∅.

Lemma selectionPass_unfold :
  selectionPass old new =
    (sourceByPath,
     fst (selectAll sourceBySha1 sourceByPath sis0 [] (files new)),
     snd (selectAll sourceBySha1 sourceByPath sis0 [] (files new))).
Proof.
  unfold selectionPass. fold sis0. rewrite indexSources_indexBy. simpl.
  fold sourceBySha1 sourceByPath.
  destruct (selectAll sourceBySha1 sourceByPath sis0 [] (files new)).
  reflexivity.
Qed.

Lemma initialSources_files : file <$> sis0 = files old.
Proof.
  unfold sis0, initialSources. rewrite <- list_fmap_compose.
  apply list_fmap_id.
Qed.

Lemma initialSources_lookup (j : nat) (s : SourceInfo) :
  sis0 !! j = Some s -> files old !! j = Some (file s).
Proof.
  intros Hj. rewrite <- initialSources_files, list_lookup_fmap, Hj.
  reflexivity.
Qed.

(** The file records of the sources are those of the old inventory, in its
    order, whatever the targets. *)
Lemma selectionPass_sources (sbp : gmap string nat) (sis : list SourceInfo)
    (tis : list TargetInfo) :
  selectionPass old new = (sbp, sis, tis) -> file <$> sis = files old.
Proof.
  rewrite selectionPass_unfold. intros [= _ <- _].
  rewrite <- initialSources_files.
  apply (selectAll_spec sourceBySha1 sourceByPath sis0 [] (files new)).
Qed.

(** The target records are those of the new inventory, in its order, each
    selected against the old inventory. *)
Lemma selectionPass_targets (sbp : gmap string nat) (sis : list SourceInfo)
    (tis : list TargetInfo) :
  selectionPass old new = (sbp, sis, tis) ->
  tis = (fun t => snd (processTarget sourceBySha1 sourceByPath sis0 t))
          <$> files new.
Proof.
  rewrite selectionPass_unfold. intros [= _ _ <-].
  apply (selectAll_spec sourceBySha1 sourceByPath sis0 [] (files new)).
Qed.

(** The record of one target, by the way its source was selected. *)
Lemma processTarget_record (t : TarFileInfo) :
  let ti := snd (processTarget sourceBySha1 sourceByPath sis0 t) in
  tfile ti = t /\
  match selectSource sis0 sourceBySha1 sourceByPath t with
  | Some c =>
      source ti = Some (selected c) /\
      exists S, files old !! selected c = Some S /\
        rollsumMatches ti =
          if partialReuse c
          then Some (ComputeRollsumMatches (blobs S) (blobs t))
          else None
  | None => source ti = None /\ rollsumMatches ti = None
  end.
Proof.
  unfold processTarget.
  destruct (selectSource sis0 sourceBySha1 sourceByPath t) as [c|] eqn:Hsel;
    simpl; [|auto].
  split; [reflexivity|]. split; [reflexivity|].
  assert (Hs : exists s, sis0 !! selected c = Some s).
  { pose proof (selectSource_cases _ _ _ _ _ Hsel) as Hc.
    destruct c as [j|j|fz j]; simpl.
    - destruct Hc as (s & Hs & _). eauto.
    - destruct Hc as (s & Hs & _). eauto.
    - destruct Hc as [_ Hf].
      destruct (fuzzySearch_selected _ _ _ _ Hf) as (s & Hs & _). eauto. }
  destruct Hs as [s Hs]. exists (file s).
  split; [apply initialSources_lookup, Hs|]. rewrite Hs. reflexivity.
Qed.

End SelectionPass.

(** ** Eligibility and identity matches *)

(** C5, amended: a source selected for a target is world-readable, whatever
    the step that selected it; a source selected for partial reuse (by the
    exact path or by the fuzzy scan) is a delta candidate, and so is its
    target; a source selected with no block correspondence has the digest
    and the size of its target.  So a target that is no delta candidate has
    a source only by an exact identity match, and an old file whose basename
    begins with a reserved prefix is a source only for such matches. *)
Theorem C5_selected_sources_are_eligible `{Externals} (old new : TarInfo)
    (sbp : gmap string nat) (sis : list SourceInfo) (tis : list TargetInfo)
    (k j : nat) (ti : TargetInfo) (S : TarFileInfo) :
  selectionPass old new = (sbp, sis, tis) ->
  tis !! k = Some ti ->
  source ti = Some j ->
  files old !! j = Some S ->
  worldReadable S = true /\
  (isPartial ti = true ->
     isDeltaCandidate S = true /\ isDeltaCandidate (tfile ti) = true) /\
  (isPartial ti = false ->
     sha1 S = sha1 (tfile ti) /\ size S = size (tfile ti)).
Proof.
  intros Hpass Hk Hsrc HS.
  rewrite (selectionPass_targets old new _ _ _ Hpass) in Hk.
  rewrite list_lookup_fmap in Hk.
  destruct (files new !! k) as [t|]; [|discriminate].
  injection Hk as <-.
  destruct (processTarget_record old t) as [Ht Hrec].
  set (ti := snd (processTarget _ _ _ t)) in *.
  destruct (selectSource _ _ _ t) as [c|] eqn:Hsel;
    [|destruct Hrec; congruence].
  destruct Hrec as (Hsrc' & S' & HS' & Hm).
  assert (selected c = j) as Hj by congruence. rewrite Hj in HS'.
  assert (S' = S) as -> by congruence.
  unfold isPartial. rewrite Hm, Ht.
  pose proof (selectSource_cases _ _ _ _ _ Hsel) as Hc.
  destruct c as [i|i|fz i]; simpl in *; subst i.
  - destruct Hc as (s & Hs & Htab & Hsz & Hr).
    apply (initialSources_lookup old) in Hs as Hs'.
    assert (file s = S) as HsS by congruence. rewrite HsS in *.
    split; [exact Hr|]. split; [discriminate|]. intros _.
    split; [|congruence].
    apply indexBy_sound in Htab as [Hem|(j' & s' & Hj' & Hs2 & Hkey)].
    + rewrite lookup_empty in Hem. discriminate.
    + simpl in Hj'. subst j'. unfold sha1Key in Hkey. congruence.
  - destruct Hc as (s & Hs & _ & Hct & Hcs & _).
    apply (initialSources_lookup old) in Hs.
    assert (file s = S) as HsS by congruence. rewrite HsS in *.
    split; [|split; [auto|discriminate]].
    unfold isDeltaCandidate in Hcs. destruct (worldReadable S);
      [reflexivity|discriminate].
  - destruct Hc as [Hct Hf].
    destruct (fuzzySearch_selected _ _ _ _ Hf) as (s & Hs & Hcs & _).
    apply (initialSources_lookup old) in Hs.
    assert (file s = S) as HsS by congruence. rewrite HsS in *.
    split; [|split; [auto|discriminate]].
    unfold isDeltaCandidate in Hcs. destruct (worldReadable S);
      [reflexivity|discriminate].
Qed.

(** C6, amended: if the old file [S] has the digest and the size of the new
    file [T], is world-readable, and is the last record of the old inventory
    with that digest (the one the digest table holds), then the record
    of [T] has [S] as source and no block correspondence, whatever the paths
    and names. *)
Theorem C6_identity_match_is_exact `{Externals} (old new : TarInfo)
    (sbp : gmap string nat) (sis : list SourceInfo) (tis : list TargetInfo)
    (k j : nat) (T S : TarFileInfo) :
  files new !! k = Some T ->
  files old !! j = Some S ->
  sha1 S = sha1 T ->
  size S = size T ->
  worldReadable S = true ->
  (forall (j' : nat) (S' : TarFileInfo),
     (j < j')%nat -> files old !! j' = Some S' -> sha1 S' <> sha1 T) ->
  selectionPass old new = (sbp, sis, tis) ->
  exists ti, tis !! k = Some ti /\ tfile ti = T /\
    source ti = Some j /\ rollsumMatches ti = None.
Proof.
  intros HT HS Hsha Hsize Hread Hlast Hpass.
  rewrite (selectionPass_targets old new _ _ _ Hpass).
  rewrite list_lookup_fmap, HT. simpl. eexists. split; [reflexivity|].
  destruct (processTarget_record old T) as [Ht Hrec].
  split; [exact Ht|].
  set (s := mkSource S false 0).
  assert (Hs : initialSources old !! j = Some s).
  { unfold initialSources. rewrite list_lookup_fmap, HS. reflexivity. }
  assert (Htab : indexBy sha1Key (initialSources old) 0 ∅ !! sha1 T
                 = Some j).
  { rewrite <- Hsha. change (sha1 S) with (sha1Key s).
    apply (indexBy_last sha1Key _ 0 ∅ j s Hs).
    intros j' s' Hlt Hs'. apply (initialSources_lookup old) in Hs'.
    unfold sha1Key. simpl. rewrite Hsha. apply (Hlast j' _ Hlt Hs'). }
  assert (Hsel : selectSource (initialSources old)
                   (indexBy sha1Key (initialSources old) 0 ∅)
                   (indexBy pathKey (initialSources old) 0 ∅) T
                 = Some (ByDigest j)).
  { unfold selectSource, exactMatch. rewrite Htab. simpl. rewrite Hs. simpl.
    rewrite Hsize, Z.eqb_refl, Hread. reflexivity. }
  rewrite Hsel in Hrec. simpl in Hrec.
  destruct Hrec as (Hsrc & S' & _ & Hm). split; [exact Hsrc|exact Hm].
Qed.

(** ** The archive scanner *)

(** The validation loop, from any starting value of [last]. *)
Lemma checkBlobs_inr (maxBlob : Z) (bs : list RollsumBlob) (start stop : Z) :
  checkBlobs maxBlob bs start = inr stop <->
  (forall b, bs !! 0%nat = Some b -> blob_offset b = start) /\
  (forall (i : nat) (b b' : RollsumBlob),
     bs !! i = Some b -> bs !! S i = Some b' -> blob_offset b' = blobEnd b) /\
  stop = from_option blobEnd start (last bs) /\
  (forall b, b ∈ bs -> blob_size b <= maxBlob).
Proof.
  revert start. induction bs as [|b0 bs IH]; intros start; simpl.
  - split.
    + intros [= <-]. repeat split; try discriminate.
      intros b Hb. apply elem_of_nil in Hb. contradiction.
    + intros (_ & _ & -> & _). reflexivity.
  - destruct (Z.eqb_spec (blob_offset b0) start) as [Hoff|Hoff]; simpl.
    + destruct (Z.gtb_spec (blob_size b0) maxBlob) as [Hsz|Hsz].
      * split; [discriminate|]. intros (_ & _ & _ & Hall).
        specialize (Hall b0 (list_elem_of_here _ _)). lia.
      * rewrite IH. fold (blobEnd b0). split.
        -- intros (Hhd & Hadj & Hstop & Hall). repeat split.
           ++ intros b [= <-]. exact Hoff.
           ++ intros [|i] b b' Hb Hb'; simpl in *.
              ** injection Hb as <-. apply Hhd, Hb'.
              ** apply (Hadj i); assumption.
           ++ rewrite Hstop. destruct bs as [|b1 bs']; [reflexivity|].
              simpl. destruct (last (b1 :: bs')) eqn:El; [reflexivity|].
              apply last_None in El. discriminate.
           ++ intros b Hb. apply elem_of_cons in Hb as [->|Hb];
                [lia|apply Hall, Hb].
        -- intros (Hhd & Hadj & Hstop & Hall). repeat split.
           ++ intros b Hb. apply (Hadj 0%nat b0 b); [reflexivity|exact Hb].
           ++ intros i b b' Hb Hb'. apply (Hadj (S i)); assumption.
           ++ rewrite Hstop. destruct bs as [|b1 bs']; [reflexivity|].
              simpl. destruct (last (b1 :: bs')) eqn:El; [reflexivity|].
              apply last_None in El. discriminate.
           ++ intros b Hb. apply Hall. apply list_elem_of_further, Hb.
    + split; [discriminate|]. intros (Hhd & _).
      specialize (Hhd b0 eq_refl). contradiction.
Qed.

(** For a size other than 0, the validation passes exactly on the chunk
    lists that cover the file. *)
Lemma checkBlobs_coverage (maxBlob N : Z) (bs : list RollsumBlob) :
  N <> 0 ->
  checkBlobs maxBlob bs 0 = inr N <-> chunkCoverage maxBlob N bs.
Proof.
  intros HN. rewrite checkBlobs_inr. unfold chunkCoverage. split.
  - intros (Hhd & Hadj & Hstop & Hall). repeat split; try assumption.
    destruct (last bs) as [b|]; simpl in Hstop; [|congruence].
    exists b. split; [reflexivity|congruence].
  - intros (Hhd & Hadj & (b & Hb & Hend) & Hall). repeat split; try assumption.
    rewrite Hb. simpl. congruence.
Qed.

Lemma useTarHeader_size (h : Header) : useTarHeader h = true -> Size h <> 0.
Proof.
  unfold useTarHeader. destruct (negb _); [discriminate|].
  destruct (Z.eqb_spec (Size h) 0); [discriminate|]. intros _. assumption.
Qed.

(** A scan that returns has accepted every entry, reached the end of the
    stream, and appended the records of the entries in use. *)
Lemma scanEntries_Ok `{Externals} (es : list TarEntry) (nextErr : option string)
    (i : nat) (fs fs' : list TarFileInfo) :
  scanEntries es nextErr i fs = Ok fs' ->
  fs' = (fs ++ eligibleInfos es i)%list /\ nextErr = None /\
  Forall entryAccepted es.
Proof.
  revert i fs. induction es as [|e es IH]; intros i fs; simpl.
  - destruct nextErr; [discriminate|]. intros [= <-].
    rewrite app_nil_r. auto.
  - destruct (useTarHeader (hdr e)) eqn:Huse.
    + destruct (readErr e) eqn:Hread; [discriminate|].
      destruct (checkBlobs maxBlobSize (rollsumBlobs (data e)) 0)
        as [msg|stop] eqn:Hchk; [discriminate|].
      destruct (Z.eqb_spec stop (Size (hdr e))) as [->|Hne]; simpl;
        [|discriminate].
      intros Hrec. apply IH in Hrec as (-> & Hn & Hall).
      rewrite <- app_assoc. split; [reflexivity|]. split; [exact Hn|].
      apply Forall_cons. split; [|exact Hall]. split; [exact Hread|auto].
    + destruct (readErr e) eqn:Hread; [discriminate|].
      intros Hrec. apply IH in Hrec as (-> & Hn & Hall).
      split; [reflexivity|]. split; [exact Hn|].
      apply Forall_cons. split; [|exact Hall].
      split; [exact Hread|]. intros Huse'. congruence.
Qed.

(** The scan of a stream that goes on after [pre]. *)
Lemma scanEntries_app `{Externals} (pre rest : list TarEntry)
    (nextErr : option string) (i : nat) (fs : list TarFileInfo) :
  scanEntries (pre ++ rest) nextErr i fs =
    match scanEntries pre None i fs with
    | Ok fs' => scanEntries rest nextErr (i + length pre) fs'
    | Err err => Err err
    | Fatal msg => Fatal msg
    | Panic => Panic
    end.
Proof.
  revert i fs. induction pre as [|e pre IH]; intros i fs; simpl.
  - rewrite Nat.add_0_r. reflexivity.
  - replace (i + S (length pre))%nat with (S i + length pre)%nat by lia.
    destruct (useTarHeader (hdr e));
      [|destruct (readErr e); [reflexivity|apply IH]].
    destruct (readErr e); [reflexivity|].
    destruct (checkBlobs maxBlobSize (rollsumBlobs (data e)) 0);
      [reflexivity|].
    destruct (negb _); [reflexivity|apply IH].
Qed.

Lemma eligibleInfos_accepted `{Externals} (es : list TarEntry) (i : nat)
    (f : TarFileInfo) :
  Forall entryAccepted es -> f ∈ eligibleInfos es i ->
  chunkCoverage maxBlobSize (size f) (blobs f).
Proof.
  revert i. induction es as [|e es IH]; intros i Hall Hf; simpl in Hf.
  - apply elem_of_nil in Hf. contradiction.
  - apply Forall_cons in Hall as [He Hall].
    destruct (useTarHeader (hdr e)) eqn:Huse; [|apply (IH _ Hall Hf)].
    apply elem_of_cons in Hf as [->|Hf]; [|apply (IH _ Hall Hf)].
    destruct He as [_ Hchk]. specialize (Hchk Huse). simpl.
    apply checkBlobs_coverage; [apply useTarHeader_size, Huse|exact Hchk].
Qed.

Lemma analyzeTar_Ok `{Externals} (targzFile : TarStream) (info : TarInfo) :
  analyzeTar targzFile = Ok info ->
  gzipErr targzFile = None /\ nextErr targzFile = None /\
  Forall entryAccepted (entries targzFile) /\
  files info = sortBySize (eligibleInfos (entries targzFile) 0).
Proof.
  unfold analyzeTar. destruct (gzipErr targzFile); [discriminate|].
  destruct (scanEntries _ _ 0 []) as [fs| | |] eqn:Hscan; try discriminate.
  intros [= <-]. apply scanEntries_Ok in Hscan as (-> & Hn & Hall).
  simpl. auto.
Qed.

(** C10: when the scan of an archive returns an inventory, the chunk list
    of every file record in it covers the file: the first chunk is at offset
    0, each chunk starts where the one before ends, the last one ends at the
    size of the file, and no chunk is larger than [maxBlobSize].  And when
    the scan reaches an entry in use whose body is read and whose chunk list
    does not cover it, the scan ends in a fatal error, not in a returned
    error. *)
Theorem C10_scanned_files_are_covered `{Externals} (targzFile : TarStream) :
  (forall l : list TarFileInfo, sortBySize l ≡ₚ l) ->
  (forall (info : TarInfo) (f : TarFileInfo),
     analyzeTar targzFile = Ok info -> f ∈ files info ->
     chunkCoverage maxBlobSize (size f) (blobs f)) /\
  (forall (pre post : list TarEntry) (e : TarEntry) (fs : list TarFileInfo),
     gzipErr targzFile = None ->
     entries targzFile = (pre ++ e :: post)%list ->
     scanEntries pre None 0 [] = Ok fs ->
     useTarHeader (hdr e) = true ->
     readErr e = None ->
     ~ chunkCoverage maxBlobSize (Size (hdr e)) (rollsumBlobs (data e)) ->
     exists msg, analyzeTar targzFile = Fatal msg).
Proof.
  intros Hsort. split.
  - intros info f Hok Hf.
    apply analyzeTar_Ok in Hok as (_ & _ & Hall & Hfiles).
    rewrite Hfiles, Hsort in Hf.
    apply (eligibleInfos_accepted _ _ _ Hall Hf).
  - intros pre post e fs Hgz Hes Hpre Huse Hread Hbad.
    unfold analyzeTar. rewrite Hgz, Hes, scanEntries_app, Hpre. simpl.
    rewrite Huse, Hread.
    destruct (checkBlobs maxBlobSize (rollsumBlobs (data e)) 0)
      as [msg|stop] eqn:Hchk; [eauto|].
    destruct (Z.eqb_spec stop (Size (hdr e))) as [->|Hne]; simpl; [|eauto].
    exfalso. apply Hbad.
    apply checkBlobs_coverage; [apply useTarHeader_size, Huse|exact Hchk].
Qed.

(** ** The spooling loop *)

Section SpoolLoop.

Variable sourceByPath : gmap string nat.
Variable dest : string.

Lemma setOffset_flags (o : Z) (j : nat) (sis : list SourceInfo) :
  usedForDelta <$> alter (setOffset o) j sis = usedForDelta <$> sis.
Proof.
  rewrite (list_fmap_alter usedForDelta _ id).
  - apply list_alter_id. reflexivity.
  - apply Forall_forall. reflexivity.
Qed.

Lemma setOffset_files (o : Z) (j : nat) (sis : list SourceInfo) :
  file <$> alter (setOffset o) j sis = file <$> sis.
Proof.
  rewrite (list_fmap_alter file _ id).
  - apply list_alter_id. reflexivity.
  - apply Forall_forall. reflexivity.
Qed.

Lemma flagAt_sameFlags (a b : list SourceInfo) (p : string) :
  usedForDelta <$> a = usedForDelta <$> b ->
  flagAt sourceByPath a p = flagAt sourceByPath b p.
Proof.
  intros Hab. unfold flagAt, deref.
  destruct (sourceByPath !! p) as [j|]; [|reflexivity].
  assert (Hj : usedForDelta <$> (a !! j) = usedForDelta <$> (b !! j)).
  { rewrite <- !list_lookup_fmap, Hab. reflexivity. }
  destruct (a !! j), (b !! j); simpl in Hj; congruence.
Qed.

Lemma spoolsEntry_sameFlags (a b : list SourceInfo) (e : TarEntry) :
  usedForDelta <$> a = usedForDelta <$> b ->
  spoolsEntry sourceByPath a e = spoolsEntry sourceByPath b e.
Proof.
  intros Hab. unfold spoolsEntry. rewrite (flagAt_sameFlags a b _ Hab).
  reflexivity.
Qed.

Lemma spooledOf_sameFlags (a b : list SourceInfo) (es : list TarEntry) :
  usedForDelta <$> a = usedForDelta <$> b ->
  spooledOf sourceByPath a es = spooledOf sourceByPath b es.
Proof.
  intros Hab. unfold spooledOf. f_equal.
  apply List.filter_ext. intros e. apply spoolsEntry_sameFlags, Hab.
Qed.

Lemma offsetAfter_sameFlags (a b : list SourceInfo) (off : Z)
    (es : list TarEntry) :
  usedForDelta <$> a = usedForDelta <$> b ->
  offsetAfter sourceByPath a off es = offsetAfter sourceByPath b off es.
Proof.
  intros Hab. revert off. induction es as [|e es IH]; intros off; simpl.
  - reflexivity.
  - rewrite (spoolsEntry_sameFlags a b e Hab). apply IH.
Qed.

(** One turn of the loop that does not end the spooling. *)
Lemma spoolEntries_step (e : TarEntry) (es : list TarEntry)
    (nextErr : option string) (off : Z) (sis sis' : list SourceInfo)
    (w w' : World) :
  spoolEntries (e :: es) nextErr sourceByPath dest off sis w
    = (sis', w', Ok tt) ->
  exists (sis1 : list SourceInfo) (w1 : World),
    spoolEntries es nextErr sourceByPath dest
      (if spoolsEntry sourceByPath sis e then wrap64 (off + Size (hdr e))
       else off) sis1 w1 = (sis', w', Ok tt) /\
    (if spoolsEntry sourceByPath sis e then
       exists j, sourceByPath !! Name (hdr e) = Some j /\
         sis1 = alter (setOffset off) j sis /\
         w1 = appendTo dest (data e) w
     else sis1 = sis /\ w1 = w).
Proof.
  simpl. unfold spoolsEntry, flagAt.
  destruct (useTarHeader (hdr e)); simpl;
    [|destruct (readErr e); [discriminate|eauto]].
  destruct (deref sis (sourceByPath !! Name (hdr e))) as [[j info]|] eqn:Hd;
    [|discriminate].
  destruct (usedForDelta info);
    [|destruct (readErr e); [discriminate|eauto]].
  apply deref_Some in Hd as [Hj _].
  destruct (copyEntry dest e w) as [w1 [err|]] eqn:Hcopy; [discriminate|].
  intros Hrest. exists (alter (setOffset off) j sis), w1.
  split; [exact Hrest|]. exists j. split; [exact Hj|]. split; [reflexivity|].
  unfold copyEntry in Hcopy.
  destruct (length (data e) <=? freeSpace w)%nat; [|discriminate].
  congruence.
Qed.

(** A spooling that succeeds keeps the flags and the file records, reaches
    the end of the stream and appends to the scratch file the bodies of the
    entries it copies, in the order of the stream. *)
Lemma spoolEntries_Ok (es : list TarEntry) (nextErr : option string)
    (off : Z) (sis sis' : list SourceInfo) (w w' : World)
    (init : list Byte.byte) :
  spoolEntries es nextErr sourceByPath dest off sis w = (sis', w', Ok tt) ->
  disk w !! dest = Some init ->
  usedForDelta <$> sis' = usedForDelta <$> sis /\
  file <$> sis' = file <$> sis /\
  disk w' !! dest = Some (init ++ spooledOf sourceByPath sis es)%list /\
  nextErr = None.
Proof.
  revert off sis w init. induction es as [|e es IH]; intros off sis w init.
  - simpl. destruct nextErr; [discriminate|]. intros [= <- <-] Hinit.
    unfold spooledOf. simpl. rewrite app_nil_r. auto.
  - intros Hrun Hinit.
    apply spoolEntries_step in Hrun as (sis1 & w1 & Hrest & Hstep).
    unfold spooledOf. simpl.
    destruct (spoolsEntry sourceByPath sis e) eqn:Hsp.
    + destruct Hstep as (j & Hj & -> & ->).
      assert (Hinit1 : disk (appendTo dest (data e) w) !! dest
                       = Some (init ++ data e)%list).
      { simpl. rewrite lookup_alter_eq, Hinit. reflexivity. }
      destruct (IH _ _ _ _ Hrest Hinit1) as (Hf & Hfi & Hd & Hn).
      rewrite setOffset_flags in Hf. rewrite setOffset_files in Hfi.
      split; [exact Hf|]. split; [exact Hfi|]. split; [|exact Hn].
      rewrite Hd, <- app_assoc. do 2 f_equal.
      rewrite (spooledOf_sameFlags _ sis es (setOffset_flags off j sis)).
      reflexivity.
    + destruct Hstep as [-> ->].
      apply (IH _ _ _ _ Hrest Hinit).
Qed.

(** A record no entry of the stream leads to is left as it is. *)
Lemma spoolEntries_frame (es : list TarEntry) (nextErr : option string)
    (off : Z) (sis sis' : list SourceInfo) (w w' : World) (j : nat) :
  spoolEntries es nextErr sourceByPath dest off sis w = (sis', w', Ok tt) ->
  Forall (fun e => useTarHeader (hdr e) = true ->
                   sourceByPath !! Name (hdr e) <> Some j) es ->
  sis' !! j = sis !! j.
Proof.
  revert off sis w. induction es as [|e es IH]; intros off sis w.
  - simpl. destruct nextErr; [discriminate|]. intros [= <- <-] _. reflexivity.
  - intros Hrun Hall. apply Forall_cons in Hall as [He Hall].
    apply spoolEntries_step in Hrun as (sis1 & w1 & Hrest & Hstep).
    rewrite (IH _ _ _ Hrest Hall).
    destruct (spoolsEntry sourceByPath sis e) eqn:Hsp.
    + destruct Hstep as (j' & Hj' & -> & _).
      apply list_lookup_alter_ne. intros ->.
      unfold spoolsEntry in Hsp. apply andb_prop in Hsp as [Huse _].
      apply (He Huse Hj').
    + destruct Hstep as [-> _]. reflexivity.
Qed.

(** The offset recorded for an entry that is copied, when no later entry
    leads to the same record: the value of [offset] when the loop reaches
    the entry. *)
Lemma spoolEntries_offset (pre post : list TarEntry) (e : TarEntry)
    (nextErr : option string) (off : Z) (sis sis' : list SourceInfo)
    (w w' : World) (j : nat) :
  spoolEntries (pre ++ e :: post) nextErr sourceByPath dest off sis w
    = (sis', w', Ok tt) ->
  spoolsEntry sourceByPath sis e = true ->
  sourceByPath !! Name (hdr e) = Some j ->
  Forall (fun e' => useTarHeader (hdr e') = true ->
                    sourceByPath !! Name (hdr e') <> Some j) post ->
  offset <$> sis' !! j = Some (offsetAfter sourceByPath sis off pre).
Proof.
  revert off sis w. induction pre as [|e0 pre IH]; intros off sis w; simpl app.
  - intros Hrun Hsp Hj Hpost.
    apply spoolEntries_step in Hrun as (sis1 & w1 & Hrest & Hstep).
    rewrite Hsp in Hstep, Hrest. destruct Hstep as (j' & Hj' & -> & _).
    assert (j' = j) as -> by congruence.
    rewrite (spoolEntries_frame _ _ _ _ _ _ _ _ Hrest Hpost).
    rewrite list_lookup_alter_eq. simpl.
    unfold spoolsEntry, flagAt, deref in Hsp. rewrite Hj in Hsp.
    destruct (sis !! j); [reflexivity|].
    rewrite andb_false_r in Hsp. discriminate.
  - intros Hrun Hsp Hj Hpost.
    apply spoolEntries_step in Hrun as (sis1 & w1 & Hrest & Hstep).
    assert (Hflags : usedForDelta <$> sis1 = usedForDelta <$> sis).
    { destruct (spoolsEntry sourceByPath sis e0).
      - destruct Hstep as (j' & _ & -> & _). apply setOffset_flags.
      - destruct Hstep as [-> _]. reflexivity. }
    rewrite <- (spoolsEntry_sameFlags _ _ e Hflags) in Hsp.
    rewrite (IH _ _ _ Hrest Hsp Hj Hpost). simpl.
    rewrite (offsetAfter_sameFlags _ _ _ _ Hflags). reflexivity.
Qed.

End SpoolLoop.

(** ** Entries and their records *)

Lemma elem_of_eligibleInfos `{Externals} (es : list TarEntry) (i0 : nat)
    (f : TarFileInfo) :
  f ∈ eligibleInfos es i0 <->
  exists (k : nat) (e : TarEntry),
    es !! k = Some e /\ useTarHeader (hdr e) = true /\
    f = fileInfoOf (i0 + k) e.
Proof.
  revert i0. induction es as [|e0 es IH]; intros i0; simpl.
  - split.
    + intros Hf. apply elem_of_nil in Hf. contradiction.
    + intros (k & e & Hk & _). discriminate.
  - assert (Htail : f ∈ eligibleInfos es (S i0) <->
              exists k e, (e0 :: es) !! S k = Some e /\
                useTarHeader (hdr e) = true /\ f = fileInfoOf (i0 + S k) e).
    { rewrite IH. split; intros (k & e & Hk & Hu & ->); exists k, e;
        (split; [exact Hk|]); (split; [exact Hu|]); f_equal; lia. }
    destruct (useTarHeader (hdr e0)) eqn:Huse.
    + rewrite elem_of_cons, Htail. split.
      * intros [->|(k & e & Hk & Hu & ->)].
        -- exists 0%nat, e0. rewrite Nat.add_0_r. auto.
        -- exists (S k), e. auto.
      * intros ([|k] & e & Hk & Hu & ->).
        -- left. injection Hk as <-. rewrite Nat.add_0_r. reflexivity.
        -- right. exists k, e. auto.
    + rewrite Htail. split.
      * intros (k & e & Hk & Hu & ->). exists (S k), e. auto.
      * intros ([|k] & e & Hk & Hu & ->).
        -- injection Hk as <-. congruence.
        -- exists k, e. auto.
Qed.

Lemma eligibleInfos_paths `{Externals} (es : list TarEntry) (i0 : nat) :
  path <$> eligibleInfos es i0 = eligibleNames es.
Proof.
  revert i0. unfold eligibleNames.
  induction es as [|e es IH]; intros i0; simpl; [reflexivity|].
  destruct (useTarHeader (hdr e)); simpl; rewrite IH; reflexivity.
Qed.

(** With pairwise distinct paths, a record is known by its path. *)
Lemma NoDup_paths_eq (fs : list TarFileInfo) (f g : TarFileInfo) :
  NoDup (path <$> fs) -> f ∈ fs -> g ∈ fs -> path f = path g -> f = g.
Proof.
  intros Hnd Hf Hg Hp.
  apply list_elem_of_lookup in Hf as [i Hi].
  apply list_elem_of_lookup in Hg as [j Hj].
  assert (i = j) as ->.
  { apply (NoDup_lookup (path <$> fs) i j (path f) Hnd).
    - rewrite list_lookup_fmap, Hi. reflexivity.
    - rewrite list_lookup_fmap, Hj, Hp. reflexivity. }
  congruence.
Qed.

(** ** Offsets and sizes *)

Lemma wrap64_id (z : Z) : int64_range z -> wrap64 z = z.
Proof.
  unfold int64_range, wrap64. intros Hz.
  change (2 ^ 63) with 9223372036854775808 in *.
  change (2 ^ 64) with 18446744073709551616 in *.
  Z.to_euclidean_division_equations. lia.
Qed.

Lemma totalBytes_cons (e : TarEntry) (es : list TarEntry) :
  totalBytes (e :: es) = (length (data e) + totalBytes es)%nat.
Proof. unfold totalBytes. simpl. apply length_app. Qed.

Lemma totalBytes_take (k : nat) (es : list TarEntry) :
  (totalBytes (take k es) <= totalBytes es)%nat.
Proof.
  revert k. induction es as [|e es IH]; intros [|k]; simpl; try lia.
  - unfold totalBytes. simpl. lia.
  - rewrite !totalBytes_cons. specialize (IH k). lia.
Qed.

(** Without overflow, [offset] is the sum of the sizes of the entries
    copied so far. *)
Lemma offsetAfter_sum (sourceByPath : gmap string nat) (sis : list SourceInfo)
    (off : Z) (es : list TarEntry) :
  bodiesMatchHeaders es -> 0 <= off ->
  off + Z.of_nat (totalBytes es) < 2 ^ 63 ->
  offsetAfter sourceByPath sis off es =
    off + sizesSum (List.filter (spoolsEntry sourceByPath sis) es).
Proof.
  revert off. induction es as [|e es IH]; intros off Hb Hoff Hlt; simpl.
  - lia.
  - apply Forall_cons in Hb as [He Hb]. rewrite totalBytes_cons in Hlt.
    destruct (spoolsEntry sourceByPath sis e) eqn:Hsp; simpl.
    + unfold spoolsEntry in Hsp. apply andb_prop in Hsp as [Hu _].
      specialize (He Hu).
      rewrite wrap64_id by (unfold int64_range; lia).
      rewrite IH; [lia|exact Hb|lia|lia].
    + apply IH; [exact Hb|lia|lia].
Qed.

Lemma sizesSum_bytes (es : list TarEntry) :
  Forall (fun e => Size (hdr e) = Z.of_nat (length (data e))) es ->
  sizesSum es = Z.of_nat (length (List.flat_map data es)).
Proof.
  induction 1 as [|e es He _ IH]; simpl; [reflexivity|].
  rewrite length_app, IH, He. lia.
Qed.

Lemma consumedEntries_bodies (sis : list SourceInfo) (es : list TarEntry)
    (i : nat) :
  bodiesMatchHeaders es ->
  Forall (fun e => Size (hdr e) = Z.of_nat (length (data e)))
    (consumedEntries sis es i).
Proof.
  revert i. induction es as [|e es IH]; intros i Hb; simpl.
  - constructor.
  - apply Forall_cons in Hb as [He Hb].
    destruct (useTarHeader (hdr e)) eqn:Hu; simpl; [|apply IH, Hb].
    destruct (consumedAt sis i); [|apply IH, Hb].
    constructor; [apply He; reflexivity|apply IH, Hb].
Qed.

Lemma consumedEntries_app (sis : list SourceInfo) (a b : list TarEntry)
    (i : nat) :
  consumedEntries sis (a ++ b) i =
    (consumedEntries sis a i ++ consumedEntries sis b (i + length a))%list.
Proof.
  revert i. induction a as [|e a IH]; intros i; simpl.
  - rewrite Nat.add_0_r. reflexivity.
  - replace (i + S (length a))%nat with (S i + length a)%nat by lia.
    destruct (useTarHeader (hdr e) && consumedAt sis i); simpl;
      rewrite IH; reflexivity.
Qed.

(** ** The scratch store *)

Section ScratchStore.

Context `{Externals}.
Variable oldFile : TarStream.
Variable old : TarInfo.

Hypothesis Hsort : forall l : list TarFileInfo, sortBySize l ≡ₚ l.
Hypothesis Hscan : analyzeTar oldFile = Ok old.
Hypothesis Hnames : NoDup (eligibleNames (entries oldFile)).

Let es : list TarEntry := entries oldFile.
Let sbp : gmap string nat := indexBy pathKey (initialSources old) 0 ∅.

Lemma old_files_perm : files old ≡ₚ eligibleInfos es 0.
Proof.
  destruct (analyzeTar_Ok _ _ Hscan) as (_ & _ & _ & ->). apply Hsort.
Qed.

Lemma old_paths_NoDup : NoDup (path <$> files old).
Proof.
  rewrite old_files_perm, eligibleInfos_paths. exact Hnames.
Qed.

Lemma old_file_entry (f : TarFileInfo) :
  f ∈ files old ->
  exists (k : nat) (e : TarEntry),
    es !! k = Some e /\ useTarHeader (hdr e) = true /\ f = fileInfoOf k e.
Proof.
  rewrite old_files_perm, elem_of_eligibleInfos. intros Hf. exact Hf.
Qed.

Lemma entry_old_file (k : nat) (e : TarEntry) :
  es !! k = Some e -> useTarHeader (hdr e) = true ->
  fileInfoOf k e ∈ files old.
Proof.
  intros Hk Hu. rewrite old_files_perm, elem_of_eligibleInfos.
  exists k, e. auto.
Qed.

(** The path table leads from the path of a record to the record. *)
Lemma table_lookup (sis : list SourceInfo) (j : nat) (s : SourceInfo) :
  file <$> sis = files old -> sis !! j = Some s ->
  sbp !! path (file s) = Some j.
Proof.
  intros Hfiles Hj.
  assert (Hf : files old !! j = Some (file s)).
  { rewrite <- Hfiles, list_lookup_fmap, Hj. reflexivity. }
  set (s0 := mkSource (file s) false 0).
  assert (Hs0 : initialSources old !! j = Some s0).
  { unfold initialSources. rewrite list_lookup_fmap, Hf. reflexivity. }
  change (path (file s)) with (pathKey s0).
  apply (indexBy_last pathKey _ 0 ∅ j s0 Hs0).
  intros j' s' Hlt Hs' Hkey.
  apply (initialSources_lookup old) in Hs'.
  assert (j = j'); [|lia].
  apply (NoDup_lookup (path <$> files old) j j' (path (file s))
           old_paths_NoDup).
  - rewrite list_lookup_fmap, Hf. reflexivity.
  - rewrite list_lookup_fmap, Hs'. simpl. f_equal. exact Hkey.
Qed.

Lemma table_sound (p : string) (j : nat) :
  sbp !! p = Some j -> exists f, files old !! j = Some f /\ path f = p.
Proof.
  intros Hp. apply indexBy_sound in Hp as [Hp|(j' & s & -> & Hs & Hkey)].
  - rewrite lookup_empty in Hp. discriminate.
  - exists (file s). split; [|exact Hkey].
    apply (initialSources_lookup old), Hs.
Qed.

(** The flag the spooler reads for an entry in use is the flag of the
    record of that entry. *)
Lemma flag_is_consumed (sis : list SourceInfo) (k : nat) (e : TarEntry) :
  file <$> sis = files old ->
  es !! k = Some e -> useTarHeader (hdr e) = true ->
  flagAt sbp sis (Name (hdr e)) = consumedAt sis k.
Proof.
  intros Hfiles Hk Hu.
  pose proof (entry_old_file k e Hk Hu) as Hin.
  apply list_elem_of_lookup in Hin as [j Hj].
  rewrite <- Hfiles, list_lookup_fmap in Hj.
  destruct (sis !! j) as [s|] eqn:Hs; [|discriminate].
  injection Hj as Hfs.
  pose proof (table_lookup sis j s Hfiles Hs) as Htab.
  rewrite Hfs in Htab. simpl in Htab.
  unfold flagAt, deref. rewrite Htab, Hs.
  unfold consumedAt. destruct (usedForDelta s) eqn:Hused.
  - symmetry. apply existsb_exists. exists s. split.
    + apply list_elem_of_In, list_elem_of_lookup. eauto.
    + rewrite Hfs, Hused. simpl. rewrite Nat.eqb_refl. reflexivity.
  - symmetry. apply not_true_is_false. intros Hex.
    apply existsb_exists in Hex as (s' & Hin' & Hs').
    apply andb_prop in Hs' as [Hidx Hused'].
    apply Nat.eqb_eq in Hidx.
    apply list_elem_of_In, list_elem_of_lookup in Hin' as [j' Hj'].
    assert (Hf' : file s' ∈ files old).
    { rewrite <- Hfiles. apply list_elem_of_fmap. exists s'.
      split; [reflexivity|]. apply list_elem_of_lookup. eauto. }
    destruct (old_file_entry _ Hf') as (k' & e' & Hk' & Hu' & Hfe').
    rewrite Hfe' in Hidx. simpl in Hidx. subst k'.
    assert (e' = e) as -> by congruence.
    assert (j' = j) as ->.
    { apply (NoDup_lookup (path <$> files old) j' j (Name (hdr e))
               old_paths_NoDup).
      - rewrite <- Hfiles, <- list_fmap_compose, list_lookup_fmap, Hj'.
        simpl. rewrite Hfe'. reflexivity.
      - rewrite <- Hfiles, <- list_fmap_compose, list_lookup_fmap, Hs.
        simpl. rewrite Hfs. reflexivity. }
    congruence.
Qed.

(** The entries the spooler copies are the consumed entries. *)
Lemma copied_are_consumed (sis : list SourceInfo) (es' : list TarEntry)
    (i0 : nat) :
  file <$> sis = files old ->
  (forall (k : nat) (e : TarEntry),
     es' !! k = Some e -> es !! (i0 + k)%nat = Some e) ->
  List.filter (spoolsEntry sbp sis) es' = consumedEntries sis es' i0.
Proof.
  intros Hfiles. revert i0.
  induction es' as [|e es' IH]; intros i0 Hsub; simpl; [reflexivity|].
  assert (Hrest : List.filter (spoolsEntry sbp sis) es'
                  = consumedEntries sis es' (S i0)).
  { apply IH. intros k e' Hk.
    replace (S i0 + k)%nat with (i0 + S k)%nat by lia.
    apply Hsub. exact Hk. }
  assert (Hflag : spoolsEntry sbp sis e
                  = useTarHeader (hdr e) && consumedAt sis i0).
  { unfold spoolsEntry. destruct (useTarHeader (hdr e)) eqn:Hu;
      [|reflexivity]. simpl.
    apply flag_is_consumed; [exact Hfiles| |exact Hu].
    rewrite <- (Nat.add_0_r i0). apply Hsub. reflexivity. }
  rewrite Hflag, Hrest. reflexivity.
Qed.

Hypothesis Hbodies : bodiesMatchHeaders (entries oldFile).
Hypothesis Htotal : Z.of_nat (totalBytes (entries oldFile)) < 2 ^ 63.

(** A flagged record and its entry. *)
Lemma consumed_record_entry (sis : list SourceInfo) (j : nat)
    (s : SourceInfo) :
  file <$> sis = files old -> sis !! j = Some s -> usedForDelta s = true ->
  exists (k : nat) (e : TarEntry),
    es !! k = Some e /\ useTarHeader (hdr e) = true /\
    file s = fileInfoOf k e /\
    sbp !! Name (hdr e) = Some j /\
    spoolsEntry sbp sis e = true /\
    Forall (fun e' => useTarHeader (hdr e') = true ->
                      sbp !! Name (hdr e') <> Some j) (drop (S k) es).
Proof.
  intros Hfiles Hj Hused.
  assert (Hf : file s ∈ files old).
  { rewrite <- Hfiles. apply list_elem_of_fmap. exists s.
    split; [reflexivity|]. apply list_elem_of_lookup. eauto. }
  destruct (old_file_entry _ Hf) as (k & e & Hk & Hu & Hfe).
  pose proof (table_lookup sis j s Hfiles Hj) as Htab.
  rewrite Hfe in Htab. simpl in Htab.
  exists k, e. repeat split; try assumption.
  - unfold spoolsEntry, flagAt, deref. rewrite Hu, Htab, Hj. exact Hused.
  - apply Forall_lookup. intros i e' Hi Hu' Htab'.
    rewrite lookup_drop in Hi.
    pose proof (entry_old_file _ _ Hi Hu') as Hin.
    apply list_elem_of_lookup in Hin as [j' Hj'].
    rewrite <- Hfiles, list_lookup_fmap in Hj'.
    destruct (sis !! j') as [s'|] eqn:Hs'; [|discriminate].
    injection Hj' as Hfs'.
    pose proof (table_lookup sis j' s' Hfiles Hs') as Htab2.
    rewrite Hfs' in Htab2. simpl in Htab2.
    assert (j' = j) as -> by congruence.
    assert (s' = s) as -> by congruence.
    rewrite Hfe in Hfs'. apply (f_equal index) in Hfs'. simpl in Hfs'. lia.
Qed.

(** The analysis of an archive with pairwise distinct names leaves a
    scratch store that holds each consumed entry once. *)
Lemma analysis_scratch (new : TarInfo) (w w' : World) (a : DeltaAnalysis) :
  analyzeForDelta old new oldFile w = (w', Ok a) ->
  scratchCopyOnce oldFile w' a.
Proof.
  unfold analyzeForDelta.
  destruct (selectionPass old new) as [[sbp' sis1] tis] eqn:Hpass.
  pose proof (selectionPass_sources old new _ _ _ Hpass) as Hfiles1.
  pose proof (selectionPass_targets old new _ _ _ Hpass) as Htis.
  rewrite selectionPass_unfold in Hpass. injection Hpass as <- _ _.
  fold sbp.
  unfold TempFile. destruct (tempNames w) as [|name names]; [discriminate|].
  unfold extractDeltaData.
  destruct (analyzeTar_Ok _ _ Hscan) as (Hgz & _ & _ & _). rewrite Hgz.
  fold es.
  destruct (spoolEntries es (nextErr oldFile) sbp name 0 sis1 _)
    as [[sis2 w2] r] eqn:Hrun.
  destruct r as [[]| | |]; try discriminate. intros [= <- <-].
  assert (Hinit : disk (mkWorld (<[name := []]> (disk w))
                          ({[name]} ∪ opened w) (freeSpace w) names) !! name
                  = Some []).
  { simpl. apply lookup_insert_eq. }
  destruct (spoolEntries_Ok _ _ _ _ _ _ _ _ _ _ Hrun Hinit)
    as (Hflags & Hfi & Hdisk & _).
  assert (Hfiles2 : file <$> sis2 = files old) by congruence.
  assert (Hcopied : forall k : nat,
            List.filter (spoolsEntry sbp sis1) (take k es)
            = consumedEntries sis2 (take k es) 0).
  { intros k. rewrite <- (copied_are_consumed sis2 (take k es) 0 Hfiles2).
    - apply List.filter_ext. intros e. symmetry.
      apply spoolsEntry_sameFlags, Hflags.
    - intros i e Hi. apply lookup_take_Some in Hi as [Hi _]. exact Hi. }
  assert (Hall : List.filter (spoolsEntry sbp sis1) es
                 = consumedEntries sis2 es 0).
  { pose proof (Hcopied (length es)) as Hc.
    rewrite take_ge in Hc by lia. exact Hc. }
  unfold scratchCopyOnce. simpl. fold es. split.
  - eexists. split; [exact Hdisk|]. simpl. split.
    + unfold spooledOf. rewrite Hall. reflexivity.
    + intros j s Hj Hused.
      destruct (consumed_record_entry sis2 j s Hfiles2 Hj Hused)
        as (k & e & Hk & Hu & Hfe & Htab & Hsp & Hpost).
      rewrite Hfe. simpl. exists e.
      split; [exact Hk|]. split; [exact Hu|]. split; [reflexivity|].
      rewrite (spoolsEntry_sameFlags _ sis2 sis1 e Hflags) in Hsp.
      pose proof Hrun as Hoff.
      rewrite <- (take_drop_middle es k e Hk) in Hoff.
      apply (spoolEntries_offset _ _ _ _ _ _ _ _ _ _ _ j) in Hoff;
        [|exact Hsp|exact Htab|exact Hpost].
      rewrite Hj in Hoff. injection Hoff as Hoff.
      pose proof (totalBytes_take k es) as Hle.
      rewrite offsetAfter_sum in Hoff;
        [|apply Forall_take, Hbodies|lia|fold es in Htotal; lia].
      rewrite Hcopied, Z.add_0_l in Hoff.
      split; [exact Hoff|].
      rewrite Hoff, sizesSum_bytes
        by (apply consumedEntries_bodies, Forall_take, Hbodies).
      rewrite Nat2Z.id.
      unfold spooledOf. rewrite Hall.
      rewrite <- (take_drop_middle es k e Hk) at 2.
      rewrite consumedEntries_app. simpl.
      assert (Hlen : length (take k es) = k).
      { apply length_take_le. apply lookup_lt_Some in Hk. lia. }
      rewrite Hlen, Hu.
      rewrite <- (flag_is_consumed sis2 k e Hfiles2 Hk Hu).
      unfold spoolsEntry in Hsp. rewrite Hu in Hsp. simpl in Hsp.
      rewrite (flagAt_sameFlags sbp sis2 sis1 _ Hflags), Hsp. simpl.
      rewrite List.flat_map_app. simpl.
      rewrite drop_app_length, take_app_length. reflexivity.
  - intros k1 k2 j t1 t2 Hk1 Hk2 Hs1 Hs2. split.
    + rewrite Htis, list_lookup_fmap in Hk1.
      destruct (files new !! k1) as [t|]; [|discriminate].
      injection Hk1 as <-.
      destruct (processTarget_record old t) as [_ Hrec].
      destruct (selectSource _ _ _ t) as [c|];
        [|destruct Hrec; congruence].
      destruct Hrec as (Hsrc & S & HS & _).
      assert (selected c = j) as Hc by congruence. rewrite Hc in HS.
      apply lookup_lt_is_Some. apply lookup_lt_Some in HS.
      rewrite <- (length_fmap file), Hfiles2. exact HS.
    + unfold sourceOf. simpl. rewrite Hs1, Hs2. reflexivity.
Qed.

End ScratchStore.

(** X24: when the entries in use of the old archive have pairwise
    distinct names, an analysis that returns leaves a scratch file that
    holds the bodies of the consumed entries, each once, in the order of the
    stream, and nothing else; the offset recorded in a source record with
    [usedForDelta = true] is the sum of the sizes of the consumed entries
    met earlier in the stream, and the bytes of its file are in the scratch
    file at that offset; two target records that selected the same source
    point to the same source record, hence to the same offset. *)
Theorem scratch_copy_once_distinct_names `{Externals} (oldFile : TarStream)
    (old new : TarInfo) (w w' : World) (a : DeltaAnalysis) :
  (forall l : list TarFileInfo, sortBySize l ≡ₚ l) ->
  analyzeTar oldFile = Ok old ->
  NoDup (eligibleNames (entries oldFile)) ->
  bodiesMatchHeaders (entries oldFile) ->
  Z.of_nat (totalBytes (entries oldFile)) < 2 ^ 63 ->
  analyzeForDelta old new oldFile w = (w', Ok a) ->
  scratchCopyOnce oldFile w' a.
Proof.
  intros Hsort Hscan Hnames Hbodies Htotal Hrun.
  apply (analysis_scratch oldFile old Hsort Hscan Hnames Hbodies Htotal
           new w w' a Hrun).
Qed.

(** ** Further properties of the selector *)

(** X1: at every level, name similarity is an equivalence relation on file
    records, and two records with identical basenames (similar at level 0)
    are similar at every level. *)
Theorem nameIsSimilar_equivalence (fuzzy : nat) :
  Equivalence (fun a b => nameIsSimilar a b fuzzy = true) /\
  (forall a b : TarFileInfo,
     nameIsSimilar a b 0 = true -> nameIsSimilar a b fuzzy = true).
Proof.
  split.
  - split.
    + intros a. destruct fuzzy; simpl; apply String.eqb_refl.
    + intros a b. destruct fuzzy; simpl; rewrite !String.eqb_eq; congruence.
    + intros a b c. destruct fuzzy; simpl; rewrite !String.eqb_eq; congruence.
  - intros a b. destruct fuzzy; simpl; [tauto|].
    rewrite !String.eqb_eq. intros ->. reflexivity.
Qed.

(** X2: a source selected for partial reuse, by its path or by the fuzzy
    scan, is a delta candidate, as is its target, and its size lies in the
    window computed over the integers; for a path match it is below the
    upper end.  So its size is more than half and less than twice the size
    of the target. *)
Theorem partial_reuse_source_in_window (sis : list SourceInfo)
    (sourceBySha1 sourceByPath : gmap string nat) (t : TarFileInfo)
    (c : Selection) :
  0 < size t < 2 ^ 63 ->
  selectSource sis sourceBySha1 sourceByPath t = Some c ->
  partialReuse c = true ->
  exists s, sis !! selected c = Some s /\
    isDeltaCandidate t = true /\ isDeltaCandidate (file s) = true /\
    size t - Z.quot (size t * 30) 100 <= size (file s)
      <= size t + Z.quot (size t * 30) 100 /\
    (forall j, c = ByPath j ->
       size (file s) < size t + Z.quot (size t * 30) 100) /\
    size t < 2 * size (file s) /\ size (file s) < 2 * size t.
Proof.
  intros Ht Hsel Hpart.
  pose proof (selectSource_cases _ _ _ _ _ Hsel) as Hc.
  assert (Hwin : forall x, minSizeOf t <= x <= maxSizeOf t ->
            size t - Z.quot (size t * 30) 100 <= x
              <= size t + Z.quot (size t * 30) 100).
  { intros x Hx. apply window_sound; [lia|apply Hx|apply Hx]. }
  assert (Hhalf : forall x,
            size t - Z.quot (size t * 30) 100 <= x
              <= size t + Z.quot (size t * 30) 100 ->
            size t < 2 * x /\ x < 2 * size t).
  { intros x Hx. Z.to_euclidean_division_equations. lia. }
  destruct c as [j|j|fz j]; [discriminate| |]; simpl.
  - destruct Hc as (s & Hs & _ & Hct & Hcs & Hlo & Hhi).
    exists s. split; [exact Hs|]. split; [exact Hct|]. split; [exact Hcs|].
    assert (Hx : minSizeOf t <= size (file s) <= maxSizeOf t) by lia.
    split; [apply Hwin, Hx|]. split; [|apply Hhalf, Hwin, Hx].
    intros _ _.
    (* the strict upper end: the code's upper end is at most the integer one *)
    assert (Hmax : maxSizeOf t <= size t + Z.quot (size t * 30) 100
                   \/ maxSizeOf t < minSizeOf t).
    { unfold maxSizeOf, minSizeOf, similarityPercentThreshold, wrap64.
      change (2 ^ 63) with 9223372036854775808 in *.
      change (2 ^ 64) with 18446744073709551616 in *.
      Z.to_euclidean_division_equations. lia. }
    lia.
  - destruct Hc as [Hct Hf].
    destruct (fuzzySearch_selected _ _ _ _ Hf) as (s & Hs & Hcs & Hx & _).
    exists s. split; [exact Hs|]. split; [exact Hct|]. split; [exact Hcs|].
    split; [apply Hwin, Hx|]. split; [discriminate|apply Hhalf, Hwin, Hx].
Qed.

(** ** The fuzzy scan finds the first record that qualifies *)

Lemma qualifies_true (t : TarFileInfo) (fuzzy : nat) (s : SourceInfo) :
  qualifies t fuzzy s = true <->
  isDeltaCandidate (file s) = true /\
  minSizeOf t <= size (file s) <= maxSizeOf t /\
  nameIsSimilar t (file s) fuzzy = true.
Proof.
  unfold qualifies. rewrite !andb_true_iff, !Z.leb_le. tauto.
Qed.

(** A pass has refused every record it walked over before the one it
    selects. *)
Lemma scanPass_first (t : TarFileInfo) (fuzzy : nat) (rest : list SourceInfo)
    (j lower lower' k : nat) :
  scanPass t fuzzy rest j lower = (lower', Some k) ->
  forall (i : nat) (s : SourceInfo),
    (i < k - j)%nat -> rest !! i = Some s -> qualifies t fuzzy s = false.
Proof.
  revert j lower. induction rest as [|s0 rest IH]; intros j lower; simpl.
  - discriminate.
  - assert (Hskip : qualifies t fuzzy s0 = false ->
              scanPass t fuzzy rest (S j) lower = (lower', Some k) \/
              scanPass t fuzzy rest (S j) (S lower) = (lower', Some k) ->
              forall i s, (i < k - j)%nat -> (s0 :: rest) !! i = Some s ->
                qualifies t fuzzy s = false).
    { intros Hq Hrec [|i] s Hi Hs; simpl in Hs.
      - injection Hs as <-. exact Hq.
      - destruct Hrec as [Hrec|Hrec];
          apply (IH _ _ Hrec i s); try exact Hs; lia. }
    unfold qualifies in *.
    destruct (isDeltaCandidate (file s0)); simpl; [|eauto].
    destruct (Z.ltb_spec (size (file s0)) (minSizeOf t)) as [Hlo|Hlo].
    + intros Hrec. apply Hskip; [|eauto].
      destruct (Z.leb_spec (minSizeOf t) (size (file s0))); [lia|reflexivity].
    + destruct (Z.gtb_spec (size (file s0)) (maxSizeOf t)); [discriminate|].
      destruct (nameIsSimilar t (file s0) fuzzy) eqn:Hn; simpl.
      * intros [= <- <-] i s Hi. lia.
      * intros Hrec. apply Hskip; [|eauto]. apply andb_false_r.
Qed.

(** On a sorted slice, a pass that selects nothing has met no record that
    qualifies. *)
Lemma scanPass_none (t : TarFileInfo) (fuzzy : nat) (rest : list SourceInfo)
    (j lower : nat) :
  sizeSorted rest ->
  snd (scanPass t fuzzy rest j lower) = None ->
  forall (i : nat) (s : SourceInfo),
    rest !! i = Some s -> qualifies t fuzzy s = false.
Proof.
  revert j lower. induction rest as [|s0 rest IH]; intros j lower Hs; simpl.
  - intros _ i s Hi. discriminate.
  - pose proof (sizeSorted_tail _ _ Hs) as Hs'.
    assert (Hskip : forall lo, qualifies t fuzzy s0 = false ->
              snd (scanPass t fuzzy rest (S j) lo) = None ->
              forall i s, (s0 :: rest) !! i = Some s ->
                qualifies t fuzzy s = false).
    { intros lo Hq Hrec [|i] s Hi; simpl in Hi.
      - injection Hi as <-. exact Hq.
      - apply (IH _ _ Hs' Hrec i s Hi). }
    unfold qualifies in *.
    destruct (isDeltaCandidate (file s0)); simpl; [|eauto].
    destruct (Z.ltb_spec (size (file s0)) (minSizeOf t)) as [Hlo|Hlo].
    + intros Hrec. apply (Hskip (S lower)); [|exact Hrec].
      destruct (Z.leb_spec (minSizeOf t) (size (file s0))); [lia|reflexivity].
    + destruct (Z.gtb_spec (size (file s0)) (maxSizeOf t)) as [Hhi|Hhi].
      * intros _ i s Hi.
        assert (size (file s0) <= size (file s)).
        { apply (Hs 0%nat i); [lia|reflexivity|exact Hi]. }
        destruct (Z.leb_spec (size (file s)) (maxSizeOf t)); [lia|].
        rewrite andb_false_r. reflexivity.
      * destruct (nameIsSimilar t (file s0) fuzzy) eqn:Hn; simpl;
          [discriminate|].
        intros Hrec. apply (Hskip lower); [|exact Hrec]. apply andb_false_r.
Qed.

(** On a sorted inventory, pass 1 entered at the lower bound left by pass 0
    selects what it would select entered at index 0. *)
Lemma pass1_from_lower (sis : list SourceInfo) (t : TarFileInfo)
    (lower : nat) (r0 : option nat) :
  sizeSorted sis ->
  scanPass t 0 sis 0 0 = (lower, r0) ->
  snd (scanPass t 1 (drop lower sis) lower lower) = snd (scanPass t 1 sis 0 0).
Proof.
  intros Hsorted E0.
  pose proof (scanPass_lower_below t 0 sis 0 0 Hsorted) as [_ Hbelow].
  rewrite E0 in Hbelow. simpl in Hbelow. rewrite Nat.sub_0_r in Hbelow.
  assert (Hpre : Forall (fun s => isDeltaCandidate (file s) = false \/
                                  size (file s) < minSizeOf t)
                        (take lower sis)).
  { apply Forall_lookup. intros i s Hi.
    apply lookup_take_Some in Hi as [Hi Hlt].
    destruct (Hbelow i Hlt) as (s' & Hs' & Hsz). right. congruence. }
  assert (Hlen : length (take lower sis) = lower).
  { apply length_take_le. destruct lower as [|l]; [lia|].
    destruct (Hbelow l) as (s' & Hs' & _); [lia|].
    apply lookup_lt_Some in Hs'. lia. }
  pose proof (scanPass_skip_prefix t 1 (take lower sis) (drop lower sis)
                0 0 Hpre) as Hskip.
  rewrite take_drop, Hlen in Hskip. simpl in Hskip. rewrite Hskip.
  apply scanPass_lower_irrelevant.
Qed.

(** X3: on an inventory sorted by size, the record the fuzzy scan selects
    at a level qualifies at that level (delta candidate, size in the window
    of the code, name similar), no record before it in the inventory
    qualifies at that level, and when the level is 1 no record of the
    inventory qualifies at level 0. *)
Theorem fuzzySearch_first_match (sis : list SourceInfo) (t : TarFileInfo)
    (fz j : nat) :
  sizeSorted sis ->
  fuzzySearch sis t = Some (fz, j) ->
  (exists s, sis !! j = Some s /\ qualifies t fz s = true) /\
  (forall (i : nat) (s : SourceInfo),
     (i < j)%nat -> sis !! i = Some s -> qualifies t fz s = false) /\
  (fz = 1%nat ->
   forall (i : nat) (s : SourceInfo),
     sis !! i = Some s -> qualifies t 0 s = false).
Proof.
  intros Hsorted Hsel.
  destruct (fuzzySearch_selected _ _ _ _ Hsel) as (s & Hs & Hc & Hw & Hn & _).
  split; [exists s; split; [exact Hs|apply qualifies_true; auto]|].
  unfold fuzzySearch in Hsel. rewrite drop_0 in Hsel.
  destruct (scanPass t 0 sis 0 0) as [lower r0] eqn:E0.
  destruct r0 as [k|].
  - injection Hsel as <- <-. split; [|discriminate].
    intros i s' Hi Hs'. apply (scanPass_first _ _ _ _ _ _ _ E0 i s'); [lia|].
    exact Hs'.
  - pose proof (pass1_from_lower sis t lower None Hsorted E0) as Hp1.
    destruct (scanPass t 1 (drop lower sis) lower lower) as [l2 r1].
    destruct r1 as [k|]; [|discriminate]. injection Hsel as <- <-.
    simpl in Hp1.
    destruct (scanPass t 1 sis 0 0) as [l3 r3] eqn:E1. simpl in Hp1.
    subst r3. split.
    + intros i s' Hi Hs'.
      apply (scanPass_first _ _ _ _ _ _ _ E1 i s'); [lia|exact Hs'].
    + intros _ i s' Hs'.
      apply (scanPass_none t 0 sis 0 0 Hsorted) with (i := i); [|exact Hs'].
      rewrite E0. reflexivity.
Qed.

(** X4: on an inventory sorted by size, the fuzzy scan selects nothing only
    when no record of the inventory qualifies, at level 0 or at level 1. *)
Theorem fuzzySearch_none (sis : list SourceInfo) (t : TarFileInfo) :
  sizeSorted sis ->
  fuzzySearch sis t = None ->
  forall (fz i : nat) (s : SourceInfo),
    (fz < 2)%nat -> sis !! i = Some s -> qualifies t fz s = false.
Proof.
  intros Hsorted Hsel fz i s Hfz Hs.
  unfold fuzzySearch in Hsel. rewrite drop_0 in Hsel.
  destruct (scanPass t 0 sis 0 0) as [lower r0] eqn:E0.
  destruct r0 as [k|]; [discriminate|].
  pose proof (pass1_from_lower sis t lower None Hsorted E0) as Hp1.
  destruct (scanPass t 1 (drop lower sis) lower lower) as [l2 r1].
  destruct r1 as [k|]; [discriminate|]. simpl in Hp1.
  destruct fz as [|[|fz]]; [| |lia].
  - apply (scanPass_none t 0 sis 0 0 Hsorted) with (i := i); [|exact Hs].
    rewrite E0. reflexivity.
  - apply (scanPass_none t 1 sis 0 0 Hsorted) with (i := i); [|exact Hs].
    symmetry. exact Hp1.
Qed.

(** ** The shape of the selection pass *)

Lemma processTarget_offsets `{Externals}
    (sourceBySha1 sourceByPath : gmap string nat) (sis : list SourceInfo)
    (t : TarFileInfo) :
  offset <$> fst (processTarget sourceBySha1 sourceByPath sis t)
    = offset <$> sis.
Proof.
  unfold processTarget.
  destruct (selectSource sis sourceBySha1 sourceByPath t) as [c|]; simpl;
    [|reflexivity].
  rewrite (list_fmap_alter offset _ id).
  - apply list_alter_id. reflexivity.
  - apply Forall_forall. reflexivity.
Qed.

Lemma processTarget_tfile `{Externals}
    (sourceBySha1 sourceByPath : gmap string nat) (sis : list SourceInfo)
    (t : TarFileInfo) :
  tfile (snd (processTarget sourceBySha1 sourceByPath sis t)) = t.
Proof.
  unfold processTarget.
  destruct (selectSource sis sourceBySha1 sourceByPath t); reflexivity.
Qed.

Lemma selectAll_offsets `{Externals}
    (sourceBySha1 sourceByPath : gmap string nat) (sis : list SourceInfo)
    (tis : list TargetInfo) (new : list TarFileInfo) :
  offset <$> fst (selectAll sourceBySha1 sourceByPath sis tis new)
    = offset <$> sis.
Proof.
  revert sis tis. induction new as [|t rest IH]; intros sis tis; simpl.
  - reflexivity.
  - pose proof (processTarget_offsets sourceBySha1 sourceByPath sis t) as Ho.
    destruct (processTarget sourceBySha1 sourceByPath sis t) as [sis' info].
    simpl in Ho. rewrite IH. exact Ho.
Qed.

Lemma selectionPass_offsets `{Externals} (old new : TarInfo)
    (sbp : gmap string nat) (sis : list SourceInfo) (tis : list TargetInfo) :
  selectionPass old new = (sbp, sis, tis) ->
  Forall (fun s => offset s = 0) sis.
Proof.
  intros Hpass.
  rewrite selectionPass_unfold in Hpass. injection Hpass as _ <- _.
  apply Forall_fmap with (f := offset) (P := fun o => o = 0).
  rewrite selectAll_offsets. unfold initialSources.
  rewrite <- list_fmap_compose. apply Forall_fmap, Forall_forall.
  reflexivity.
Qed.

(** X5: the selection pass keeps one source record per file of the old
    inventory and one target record per file of the new inventory, both in
    the order of their inventory; it leaves every offset at 0; the source of
    a target record is the index of a source record; and a target record
    with a block correspondence has a source. *)
Theorem selectionPass_shape `{Externals} (old new : TarInfo)
    (sbp : gmap string nat) (sis : list SourceInfo) (tis : list TargetInfo) :
  selectionPass old new = (sbp, sis, tis) ->
  file <$> sis = files old /\
  tfile <$> tis = files new /\
  Forall (fun s => offset s = 0) sis /\
  Forall (fun ti =>
            (forall j, source ti = Some j -> (j < length sis)%nat) /\
            (isPartial ti = true -> is_Some (source ti))) tis.
Proof.
  intros Hpass.
  pose proof (selectionPass_sources old new _ _ _ Hpass) as Hfiles.
  pose proof (selectionPass_targets old new _ _ _ Hpass) as Htis.
  split; [exact Hfiles|]. split; [|split].
  - rewrite Htis, <- list_fmap_compose.
    rewrite <- (list_fmap_id (files new)) at 2.
    apply list_fmap_ext. intros i t _. apply processTarget_tfile.
  - apply (selectionPass_offsets old new _ _ _ Hpass).
  - rewrite Htis. apply Forall_fmap, Forall_forall. intros t _. simpl.
    destruct (processTarget_record old t) as [_ Hrec].
    set (ti := snd (processTarget _ _ _ t)) in *.
    destruct (selectSource _ _ _ t) as [c|].
    + destruct Hrec as (Hsrc & S & HS & _). split.
      * intros j Hj. assert (selected c = j) as <- by congruence.
        apply lookup_lt_Some in HS.
        rewrite <- (length_fmap file), Hfiles. exact HS.
      * intros _. rewrite Hsrc. eauto.
    + destruct Hrec as [Hsrc Hm]. split.
      * intros j Hj. congruence.
      * unfold isPartial. rewrite Hm. discriminate.
Qed.

(** ** The flag of a source is written by every target that selects it *)

Lemma selects_true `{Externals} (j : nat) (ti : TargetInfo) :
  selects j ti = true <-> source ti = Some j.
Proof.
  unfold selects. destruct (source ti) as [i|]; [|split; discriminate].
  rewrite Nat.eqb_eq. split; congruence.
Qed.

Lemma selects_false `{Externals} (j : nat) (ti : TargetInfo) :
  selects j ti = false <-> source ti <> Some j.
Proof.
  rewrite <- selects_true. destruct (selects j ti); split; congruence.
Qed.

Lemma processTarget_flag `{Externals}
    (sourceBySha1 sourceByPath : gmap string nat) (sis : list SourceInfo)
    (t : TarFileInfo) (j : nat) :
  usedForDelta
    <$> fst (processTarget sourceBySha1 sourceByPath sis t) !! j =
  (fun s =>
     if selects j (snd (processTarget sourceBySha1 sourceByPath sis t))
     then isPartial (snd (processTarget sourceBySha1 sourceByPath sis t))
     else usedForDelta s) <$> sis !! j.
Proof.
  unfold processTarget, selects, isPartial.
  destruct (selectSource sis sourceBySha1 sourceByPath t) as [c|]; simpl.
  - destruct (decide (selected c = j)) as [<-|Hne].
    + rewrite list_lookup_alter_eq.
      destruct (sis !! selected c) as [s|]; simpl; [|reflexivity].
      rewrite Nat.eqb_refl.
      destruct (partialReuse c); reflexivity.
    + rewrite list_lookup_alter_ne by exact Hne.
      destruct (sis !! j); simpl; [|reflexivity].
      apply Nat.eqb_neq in Hne. rewrite Hne. reflexivity.
  - destruct (sis !! j); reflexivity.
Qed.

Lemma selectAll_flags `{Externals}
    (sourceBySha1 sourceByPath : gmap string nat) (sis : list SourceInfo)
    (tis : list TargetInfo) (new : list TarFileInfo) (j : nat) :
  usedForDelta
    <$> fst (selectAll sourceBySha1 sourceByPath sis tis new) !! j =
  (fun s =>
     flagAfter j (usedForDelta s)
       ((fun t => snd (processTarget sourceBySha1 sourceByPath sis t))
          <$> new)) <$> sis !! j.
Proof.
  revert sis tis. induction new as [|t rest IH]; intros sis tis; simpl.
  - destruct (sis !! j); reflexivity.
  - pose proof (processTarget_flag sourceBySha1 sourceByPath sis t j) as Hf.
    pose proof (processTarget_files sourceBySha1 sourceByPath sis t) as Hfi.
    destruct (processTarget sourceBySha1 sourceByPath sis t) as [sis' info].
    simpl in Hf, Hfi. rewrite IH.
    rewrite (list_fmap_ext
               (fun t0 => snd (processTarget sourceBySha1 sourceByPath sis' t0))
               (fun t0 => snd (processTarget sourceBySha1 sourceByPath sis t0))
               rest)
      by (intros _ t' _; apply processTarget_sameFiles, Hfi).
    destruct (sis' !! j) as [s'|], (sis !! j) as [s|]; simpl in *;
      try discriminate; [|reflexivity].
    injection Hf as Hf. unfold flagAfter. simpl. rewrite Hf. reflexivity.
Qed.

(** The flag after the targets is true when the last target that selects
    the record selects it for partial reuse, or when no target selects it
    and the flag was true. *)
Lemma flagAfter_true `{Externals} (j : nat) (init : bool)
    (tis : list TargetInfo) :
  flagAfter j init tis = true <->
  (exists (k : nat) (ti : TargetInfo),
     tis !! k = Some ti /\ selects j ti = true /\ isPartial ti = true /\
     forall (k' : nat) (ti' : TargetInfo),
       (k < k')%nat -> tis !! k' = Some ti' -> selects j ti' = false) \/
  (init = true /\
   forall (k : nat) (ti : TargetInfo),
     tis !! k = Some ti -> selects j ti = false).
Proof.
  unfold flagAfter. revert init.
  induction tis as [|ti0 tis IH]; intros init; simpl.
  - split.
    + intros ->. right. split; [reflexivity|]. intros k ti Hk. discriminate.
    + intros [(k & ti & Hk & _)|[-> _]]; [discriminate|reflexivity].
  - rewrite IH. split.
    + intros [(k & ti & Hk & Hsel & Hpart & Hlast)|[Hinit Hnone]].
      * left. exists (S k), ti. repeat split; try assumption.
        intros [|k'] ti' Hlt Hk'; [lia|]. apply (Hlast k'); [lia|exact Hk'].
      * destruct (selects j ti0) eqn:Hs0.
        -- left. exists 0%nat, ti0. repeat split; try assumption.
           intros [|k'] ti' Hlt Hk'; [lia|]. apply (Hnone k' ti' Hk').
        -- right. split; [exact Hinit|].
           intros [|k] ti Hk; simpl in Hk; [congruence|].
           apply (Hnone k ti Hk).
    + intros [(k & ti & Hk & Hsel & Hpart & Hlast)|[Hinit Hnone]].
      * destruct k as [|k]; simpl in Hk.
        -- injection Hk as <-. right. rewrite Hsel. split; [exact Hpart|].
           intros k ti' Hk. apply (Hlast (S k)); [lia|exact Hk].
        -- left. exists k, ti. repeat split; try assumption.
           intros k' ti' Hlt Hk'. apply (Hlast (S k')); [lia|exact Hk'].
      * right. rewrite (Hnone 0%nat ti0 eq_refl). split; [exact Hinit|].
        intros k ti Hk. apply (Hnone (S k) ti Hk).
Qed.

(** X6: after the selection pass, the flag [usedForDelta] of a source
    record is true exactly when the last target record that points to it in
    the order of the new inventory has a block correspondence: a later
    exact match on the same source clears the flag, and a source no target
    points to is not flagged. *)
Theorem flag_decided_by_last_selection `{Externals} (old new : TarInfo)
    (sbp : gmap string nat) (sis : list SourceInfo) (tis : list TargetInfo)
    (j : nat) (s : SourceInfo) :
  selectionPass old new = (sbp, sis, tis) ->
  sis !! j = Some s ->
  usedForDelta s = true <->
  exists (k : nat) (ti : TargetInfo),
    tis !! k = Some ti /\ source ti = Some j /\ isPartial ti = true /\
    forall (k' : nat) (ti' : TargetInfo),
      (k < k')%nat -> tis !! k' = Some ti' -> source ti' <> Some j.
Proof.
  intros Hpass Hs.
  pose proof (selectionPass_targets old new _ _ _ Hpass) as Htis.
  rewrite selectionPass_unfold in Hpass. injection Hpass as _ Hsis _.
  pose proof (selectAll_flags (indexBy sha1Key (initialSources old) 0 ∅)
                (indexBy pathKey (initialSources old) 0 ∅)
                (initialSources old) [] (files new) j) as Hflag.
  rewrite Hsis, Hs, <- Htis in Hflag. simpl in Hflag.
  destruct (initialSources old !! j) as [s0|] eqn:Hs0; [|discriminate].
  simpl in Hflag. injection Hflag as Hflag.
  assert (Hinit : usedForDelta s0 = false).
  { unfold initialSources in Hs0. rewrite list_lookup_fmap in Hs0.
    destruct (files old !! j); [|discriminate]. injection Hs0 as <-.
    reflexivity. }
  rewrite Hflag, Hinit, flagAfter_true. split.
  - intros [(k & ti & Hk & Hsel & Hpart & Hlast)|[Hf _]]; [|discriminate].
    exists k, ti. apply selects_true in Hsel.
    repeat split; try assumption.
    intros k' ti' Hlt Hk'. apply selects_false, (Hlast k' ti' Hlt Hk').
  - intros (k & ti & Hk & Hsel & Hpart & Hlast). left. exists k, ti.
    split; [exact Hk|]. split; [apply selects_true, Hsel|].
    split; [exact Hpart|].
    intros k' ti' Hlt Hk'. apply selects_false, (Hlast k' ti' Hlt Hk').
Qed.

(** ** Further properties of the scanner *)

Lemma scanEntries_accepted `{Externals} (es : list TarEntry) (i : nat)
    (fs : list TarFileInfo) :
  Forall entryAccepted es ->
  scanEntries es None i fs = Ok (fs ++ eligibleInfos es i)%list.
Proof.
  revert i fs. induction es as [|e es IH]; intros i fs Hall; simpl.
  - rewrite app_nil_r. reflexivity.
  - apply Forall_cons in Hall as [[Hread Hchk] Hall]. rewrite Hread.
    destruct (useTarHeader (hdr e)) eqn:Hu; [|apply IH, Hall].
    rewrite (Hchk eq_refl), Z.eqb_refl. simpl.
    rewrite (IH _ _ Hall), <- app_assoc. reflexivity.
Qed.

(** X7: the scan of an archive returns an inventory exactly when the gzip
    stream opens, the tar stream ends with [io.EOF], the body of every entry
    is read, or discarded, without error, and every entry in use has a chunk
    list that passes the validation; the inventory is then the sorted list
    of the records of the entries in use, each with the position of its
    entry in the stream as index. *)
Theorem analyzeTar_succeeds_iff `{Externals} (targzFile : TarStream) :
  ((exists info, analyzeTar targzFile = Ok info) <->
   gzipErr targzFile = None /\ nextErr targzFile = None /\
   Forall entryAccepted (entries targzFile)) /\
  (forall info, analyzeTar targzFile = Ok info ->
     files info = sortBySize (eligibleInfos (entries targzFile) 0)).
Proof.
  split; [split|].
  - intros [info Hok].
    destruct (analyzeTar_Ok _ _ Hok) as (Hgz & Hn & Hall & _). auto.
  - intros (Hgz & Hn & Hall). unfold analyzeTar.
    rewrite Hgz, Hn, (scanEntries_accepted _ _ _ Hall). eauto.
  - intros info Hok. apply (analyzeTar_Ok _ _ Hok).
Qed.

(** X8: how the scan fails.  An error of [gzip.NewReader] is returned.  When
    the entries before [e] are accepted and the body of [e], an entry in
    use, cannot be read, the read error is returned.  When every entry is
    accepted and the tar stream ends with an error, that error is returned.
    No inventory is returned in any of these cases. *)
Theorem analyzeTar_errors `{Externals} (targzFile : TarStream) (err : string) :
  (gzipErr targzFile = Some err -> analyzeTar targzFile = Err err) /\
  (forall (pre post : list TarEntry) (e : TarEntry),
     gzipErr targzFile = None ->
     entries targzFile = (pre ++ e :: post)%list ->
     Forall entryAccepted pre ->
     useTarHeader (hdr e) = true ->
     readErr e = Some err ->
     analyzeTar targzFile = Err err) /\
  (gzipErr targzFile = None ->
   Forall entryAccepted (entries targzFile) ->
   nextErr targzFile = Some err ->
   analyzeTar targzFile = Err err).
Proof.
  unfold analyzeTar. split; [|split].
  - intros ->. reflexivity.
  - intros pre post e -> -> Hpre Hu Hr.
    rewrite scanEntries_app, (scanEntries_accepted _ _ _ Hpre). simpl.
    rewrite Hu, Hr. reflexivity.
  - intros -> Hall Hn.
    rewrite <- (app_nil_r (entries targzFile)), scanEntries_app.
    rewrite (scanEntries_accepted _ _ _ Hall). simpl. rewrite Hn. reflexivity.
Qed.

Lemma eligibleInfos_index_bound `{Externals} (es : list TarEntry) (i0 : nat)
    (f : TarFileInfo) :
  f ∈ eligibleInfos es i0 -> (i0 <= index f < i0 + length es)%nat.
Proof.
  rewrite elem_of_eligibleInfos. intros (k & e & Hk & _ & ->). simpl.
  apply lookup_lt_Some in Hk. lia.
Qed.

Lemma eligibleInfos_index_NoDup `{Externals} (es : list TarEntry) (i0 : nat) :
  NoDup (index <$> eligibleInfos es i0).
Proof.
  revert i0. induction es as [|e es IH]; intros i0; simpl.
  - constructor.
  - destruct (useTarHeader (hdr e)); [|apply IH].
    simpl. constructor; [|apply IH].
    rewrite list_elem_of_fmap. intros (f & Hidx & Hf).
    apply eligibleInfos_index_bound in Hf. lia.
Qed.

Lemma eligibleInfos_length `{Externals} (es : list TarEntry) (i0 : nat) :
  length (eligibleInfos es i0) = length (entriesInUse es).
Proof.
  revert i0. unfold entriesInUse.
  induction es as [|e es IH]; intros i0; simpl; [reflexivity|].
  destruct (useTarHeader (hdr e)); simpl; rewrite IH; reflexivity.
Qed.

(** X9: the records of an inventory are the records of the entries in use
    of the archive, one for each: a file record is in the inventory exactly
    when it is the record built for an entry in use at its position in the
    stream.  So every record has the path, size, digest and permission bit
    of a regular, non-sparse entry, its basename is the base of its path,
    and its size is not 0. *)
Theorem inventory_holds_entries_in_use `{Externals} (targzFile : TarStream)
    (info : TarInfo) :
  (forall l : list TarFileInfo, sortBySize l ≡ₚ l) ->
  analyzeTar targzFile = Ok info ->
  (forall f : TarFileInfo,
     f ∈ files info <->
     exists (k : nat) (e : TarEntry),
       entries targzFile !! k = Some e /\ useTarHeader (hdr e) = true /\
       f = fileInfoOf k e) /\
  (forall f : TarFileInfo,
     f ∈ files info ->
     size f <> 0 /\ basename f = Base (path f) /\
     exists e, entries targzFile !! index f = Some e /\
       Typeflag (hdr e) = TypeReg /\ isSparseFile (hdr e) = false /\
       path f = Name (hdr e) /\ size f = Size (hdr e) /\
       sha1 f = sha1Hex (data e) /\
       worldReadable f = negb (Z.land (Mode (hdr e)) 4 =? 0)).
Proof.
  intros Hsort Hok.
  destruct (analyzeTar_Ok _ _ Hok) as (_ & _ & _ & Hfiles).
  assert (Hin : forall f, f ∈ files info <->
            exists k e, entries targzFile !! k = Some e /\
              useTarHeader (hdr e) = true /\ f = fileInfoOf k e).
  { intros f. rewrite Hfiles, Hsort. apply elem_of_eligibleInfos. }
  split; [exact Hin|].
  intros f Hf. apply Hin in Hf as (k & e & Hk & Hu & ->). simpl.
  split; [apply useTarHeader_size, Hu|]. split; [reflexivity|].
  exists e. split; [exact Hk|].
  unfold useTarHeader in Hu.
  destruct (Ascii.eqb_spec (Typeflag (hdr e)) TypeReg) as [Hreg|];
    [|discriminate].
  simpl in Hu. destruct (Size (hdr e) =? 0); [discriminate|].
  destruct (isSparseFile (hdr e)); [discriminate|]. auto 10.
Qed.

(** X10: the file records of an inventory have pairwise distinct indexes,
    and there are as many as entries in use in the archive, even when two
    entries have the same path. *)
Theorem inventory_indexes_distinct `{Externals} (targzFile : TarStream)
    (info : TarInfo) :
  (forall l : list TarFileInfo, sortBySize l ≡ₚ l) ->
  analyzeTar targzFile = Ok info ->
  NoDup (index <$> files info) /\
  length (files info) = length (entriesInUse (entries targzFile)).
Proof.
  intros Hsort Hok.
  destruct (analyzeTar_Ok _ _ Hok) as (_ & _ & _ & Hfiles).
  rewrite Hfiles, Hsort. split.
  - apply eligibleInfos_index_NoDup.
  - apply eligibleInfos_length.
Qed.

(** The validation loop without overflow: the value of [last] is the sum
    of the sizes. *)
Lemma checkBlobs_sum (maxBlob : Z) (bs : list RollsumBlob) (start stop : Z) :
  checkBlobs maxBlob bs start = inr stop ->
  Forall (fun b => 0 <= blob_size b) bs ->
  0 <= start -> start + sumBlobSizes bs < 2 ^ 63 ->
  stop = start + sumBlobSizes bs /\
  forall (i : nat) (b : RollsumBlob),
    bs !! i = Some b -> blob_offset b = start + sumBlobSizes (take i bs).
Proof.
  revert start. induction bs as [|b0 bs IH]; intros start; simpl.
  - intros [= <-] _ _ _. split; [lia|]. intros i b Hb. discriminate.
  - destruct (Z.eqb_spec (blob_offset b0) start) as [Hoff|]; [|discriminate].
    simpl. destruct (blob_size b0 >? maxBlob); [discriminate|].
    intros Hrec Hpos Hstart Hlt.
    apply Forall_cons in Hpos as [Hb0 Hpos].
    assert (Hsum : 0 <= sumBlobSizes bs).
    { clear -Hpos. induction Hpos; simpl; lia. }
    rewrite wrap64_id in Hrec by (unfold int64_range; lia).
    destruct (IH _ Hrec Hpos) as [Hstop Hoffs]; [lia|lia|].
    split; [lia|].
    intros [|i] b Hb; simpl in *.
    + injection Hb as <-. lia.
    + rewrite (Hoffs i b Hb). lia.
Qed.

(** X11: for a file record of an inventory whose chunk sizes are not
    negative and add up to less than 2^63, the chunk sizes add up to the
    size of the file, and the offset of each chunk is the sum of the sizes
    of the chunks before it. *)
Theorem inventory_chunks_add_up `{Externals} (targzFile : TarStream)
    (info : TarInfo) (f : TarFileInfo) :
  (forall l : list TarFileInfo, sortBySize l ≡ₚ l) ->
  analyzeTar targzFile = Ok info ->
  f ∈ files info ->
  Forall (fun b => 0 <= blob_size b) (blobs f) ->
  sumBlobSizes (blobs f) < 2 ^ 63 ->
  size f = sumBlobSizes (blobs f) /\
  forall (i : nat) (b : RollsumBlob),
    blobs f !! i = Some b -> blob_offset b = sumBlobSizes (take i (blobs f)).
Proof.
  intros Hsort Hok Hf Hpos Hlt.
  destruct (analyzeTar_Ok _ _ Hok) as (_ & _ & Hall & Hfiles).
  rewrite Hfiles, Hsort in Hf.
  apply elem_of_eligibleInfos in Hf as (k & e & Hk & Hu & ->).
  simpl in *.
  rewrite Forall_lookup in Hall. destruct (Hall k e Hk) as [_ Hchk].
  specialize (Hchk Hu).
  destruct (checkBlobs_sum _ _ _ _ Hchk Hpos) as [Hstop Hoffs]; [lia|lia|].
  split; [lia|]. intros i b Hb. rewrite (Hoffs i b Hb). lia.
Qed.

(** ** Further properties of the spooler *)

Lemma onlyAppends_refl (dest : string) (w : World) : onlyAppends dest w w.
Proof.
  unfold onlyAppends. split; [reflexivity|]. split; [|auto].
  exists []. destruct (disk w !! dest); simpl; [|reflexivity].
  rewrite app_nil_r. reflexivity.
Qed.

Lemma onlyAppends_trans (dest : string) (w1 w2 w3 : World) :
  onlyAppends dest w1 w2 -> onlyAppends dest w2 w3 -> onlyAppends dest w1 w3.
Proof.
  intros (Ho1 & (m1 & Hd1) & Hop1 & Ht1 & Hf1)
         (Ho2 & (m2 & Hd2) & Hop2 & Ht2 & Hf2).
  unfold onlyAppends. split; [|split; [|split; [|split]]];
    [| |congruence|congruence|lia].
  - intros n Hn. rewrite (Ho2 n Hn). apply (Ho1 n Hn).
  - exists (m1 ++ m2)%list. rewrite Hd2, Hd1.
    destruct (disk w1 !! dest); simpl; [|reflexivity].
    rewrite app_assoc. reflexivity.
Qed.

Lemma appendTo_onlyAppends (dest : string) (bs : list Byte.byte) (w : World) :
  onlyAppends dest w (appendTo dest bs w).
Proof.
  unfold appendTo, onlyAppends. simpl.
  split; [|split; [|split; [|split]]]; [| |reflexivity|reflexivity|lia].
  - intros n Hn. apply lookup_alter_ne. congruence.
  - exists bs. apply lookup_alter_eq.
Qed.

Lemma copyEntry_onlyAppends (dest : string) (e : TarEntry) (w : World) :
  onlyAppends dest w (fst (copyEntry dest e w)).
Proof.
  unfold copyEntry.
  destruct (length (data e) <=? freeSpace w)%nat; apply appendTo_onlyAppends.
Qed.

(** What the spooling loop does to the world and to the source records,
    however it ends. *)
Lemma spoolEntries_effects (es : list TarEntry) (nextErr : option string)
    (sourceByPath : gmap string nat) (dest : string) (off : Z)
    (sis sis' : list SourceInfo) (w w' : World) (r : outcome unit) :
  spoolEntries es nextErr sourceByPath dest off sis w = (sis', w', r) ->
  onlyAppends dest w w' /\
  usedForDelta <$> sis' = usedForDelta <$> sis /\
  file <$> sis' = file <$> sis /\
  forall (j : nat) (s : SourceInfo),
    sis !! j = Some s -> usedForDelta s = false -> sis' !! j = Some s.
Proof.
  revert off sis w. induction es as [|e es IH]; intros off sis w; simpl.
  - destruct nextErr; intros [= <- <- <-];
      (split; [apply onlyAppends_refl|auto]).
  - assert (Hskip :
              match readErr e with
              | Some err => (sis, w, Err err)
              | None => spoolEntries es nextErr sourceByPath dest off sis w
              end = (sis', w', r) ->
              onlyAppends dest w w' /\
              usedForDelta <$> sis' = usedForDelta <$> sis /\
              file <$> sis' = file <$> sis /\
              forall (j : nat) (s : SourceInfo),
                sis !! j = Some s -> usedForDelta s = false ->
                sis' !! j = Some s).
    { destruct (readErr e); [|apply IH].
      intros [= <- <- <-]. split; [apply onlyAppends_refl|auto]. }
    destruct (useTarHeader (hdr e)); [|apply Hskip].
    destruct (deref sis (sourceByPath !! Name (hdr e))) as [[j info]|] eqn:Hd.
    2: { intros [= <- <- <-]. split; [apply onlyAppends_refl|auto]. }
    destruct (usedForDelta info) eqn:Hused; [|apply Hskip].
    apply deref_Some in Hd as [_ Hj].
    pose proof (copyEntry_onlyAppends dest e w) as Hw.
    assert (Hkeep : forall j' s, sis !! j' = Some s ->
              usedForDelta s = false ->
              alter (setOffset off) j sis !! j' = Some s).
    { intros j' s Hs Hf. rewrite list_lookup_alter_ne; [exact Hs|].
      intros ->. congruence. }
    destruct (copyEntry dest e w) as [w1 [err|]]; simpl in Hw.
    + intros [= <- <- <-].
      split; [exact Hw|]. split; [apply setOffset_flags|].
      split; [apply setOffset_files|exact Hkeep].
    + intros Hrun. apply IH in Hrun as (Hw' & Hfl & Hfi & Hk).
      split; [apply (onlyAppends_trans _ _ _ _ Hw Hw')|].
      rewrite setOffset_flags in Hfl. rewrite setOffset_files in Hfi.
      split; [exact Hfl|]. split; [exact Hfi|].
      intros j' s Hs Hf. apply Hk; [|exact Hf]. apply Hkeep; assumption.
Qed.

Lemma extract_effects (tarGzFile : TarStream)
    (sourceByPath : gmap string nat) (dest : string)
    (sis sis' : list SourceInfo) (w w' : World) (r : outcome unit) :
  extractDeltaData tarGzFile sourceByPath dest sis w = (sis', w', r) ->
  onlyAppends dest w w' /\
  usedForDelta <$> sis' = usedForDelta <$> sis /\
  file <$> sis' = file <$> sis /\
  forall (j : nat) (s : SourceInfo),
    sis !! j = Some s -> usedForDelta s = false -> sis' !! j = Some s.
Proof.
  unfold extractDeltaData. destruct (gzipErr tarGzFile).
  - intros [= <- <- <-]. split; [apply onlyAppends_refl|auto].
  - apply spoolEntries_effects.
Qed.

(** X12: however the spooling ends, it has only appended bytes to the
    scratch file: every other file, the open handles and the supply of
    temporary names are as before.  It has changed no flag and no file
    record of the sources, and it has left the records that are not flagged
    as they were. *)
Theorem extractDeltaData_effects (tarGzFile : TarStream)
    (sourceByPath : gmap string nat) (dest : string)
    (sis sis' : list SourceInfo) (w w' : World) (r : outcome unit) :
  extractDeltaData tarGzFile sourceByPath dest sis w = (sis', w', r) ->
  onlyAppends dest w w' /\
  usedForDelta <$> sis' = usedForDelta <$> sis /\
  file <$> sis' = file <$> sis /\
  forall (j : nat) (s : SourceInfo),
    sis !! j = Some s -> usedForDelta s = false -> sis' !! j = Some s.
Proof.
  intros Hrun.
  destruct (extract_effects _ _ _ _ _ _ _ _ Hrun) as (Hw & Hfl & Hfi & Hkeep).
  split; [exact Hw|]. split; [exact Hfl|]. split; [exact Hfi|exact Hkeep].
Qed.

(** X13: when no source record is flagged, the body of every entry is
    discarded without a read error and every entry in use leads to a source
    record through the path table, the spooling copies nothing: it walks to
    the end of the stream and leaves the world and the source records as they
    were. *)
Theorem extractDeltaData_nothing_flagged (tarGzFile : TarStream)
    (sourceByPath : gmap string nat) (dest : string)
    (sis : list SourceInfo) (w : World) :
  gzipErr tarGzFile = None ->
  Forall (fun s => usedForDelta s = false) sis ->
  Forall (fun e => readErr e = None /\
                   (useTarHeader (hdr e) = true ->
                    is_Some (deref sis (sourceByPath !! Name (hdr e)))))
         (entries tarGzFile) ->
  extractDeltaData tarGzFile sourceByPath dest sis w
    = (sis, w, endOfStream (nextErr tarGzFile)).
Proof.
  unfold extractDeltaData. intros -> Hflags Hknown.
  generalize 0 as off.
  induction Hknown as [|e es [Hread He] _ IH]; intros off; simpl.
  - destruct (nextErr tarGzFile); reflexivity.
  - rewrite Hread.
    destruct (useTarHeader (hdr e)); [|apply IH].
    destruct (He eq_refl) as [[j info] Hd]. rewrite Hd.
    apply deref_Some in Hd as [_ Hj].
    rewrite Forall_lookup in Hflags. rewrite (Hflags j info Hj). apply IH.
Qed.

(** The spooling of a stream that goes on after [pre]. *)
Lemma spoolEntries_app (pre rest : list TarEntry) (nextErr : option string)
    (sourceByPath : gmap string nat) (dest : string) (off : Z)
    (sis : list SourceInfo) (w : World) :
  spoolEntries (pre ++ rest) nextErr sourceByPath dest off sis w =
    match spoolEntries pre None sourceByPath dest off sis w with
    | (sis1, w1, Ok _) =>
        spoolEntries rest nextErr sourceByPath dest
          (offsetAfter sourceByPath sis off pre) sis1 w1
    | other => other
    end.
Proof.
  revert off sis w. induction pre as [|e pre IH]; intros off sis w; simpl.
  - reflexivity.
  - unfold spoolsEntry, flagAt.
    destruct (useTarHeader (hdr e)); simpl;
      [|destruct (readErr e); [reflexivity|apply IH]].
    destruct (deref sis (sourceByPath !! Name (hdr e))) as [[j info]|];
      [|reflexivity].
    destruct (usedForDelta info);
      [|destruct (readErr e); [reflexivity|apply IH]].
    destruct (copyEntry dest e w) as [w1 [err|]]; [reflexivity|].
    rewrite IH.
    rewrite (offsetAfter_sameFlags sourceByPath _ sis _ _
               (setOffset_flags off j sis)).
    reflexivity.
Qed.

(** X14: how the spooling fails.  When it has gone through the entries
    before [e] and [e] is an entry in use whose path is not in the path
    table, the record looked up is nil and reading its flag panics.  When
    the record of [e] is flagged, the device has room for the body and the
    body cannot be read to its end, the read error is returned, with the
    bytes read already in the scratch file. *)
Theorem extractDeltaData_failures (tarGzFile : TarStream)
    (sourceByPath : gmap string nat) (dest : string)
    (pre post : list TarEntry) (e : TarEntry)
    (sis sis1 : list SourceInfo) (w w1 : World) :
  gzipErr tarGzFile = None ->
  entries tarGzFile = (pre ++ e :: post)%list ->
  spoolEntries pre None sourceByPath dest 0 sis w = (sis1, w1, Ok tt) ->
  useTarHeader (hdr e) = true ->
  (sourceByPath !! Name (hdr e) = None ->
   extractDeltaData tarGzFile sourceByPath dest sis w = (sis1, w1, Panic)) /\
  (forall (j : nat) (info : SourceInfo) (err : string),
     sourceByPath !! Name (hdr e) = Some j ->
     sis1 !! j = Some info -> usedForDelta info = true ->
     (length (data e) <= freeSpace w1)%nat ->
     readErr e = Some err ->
     extractDeltaData tarGzFile sourceByPath dest sis w
       = (alter (setOffset (offsetAfter sourceByPath sis 0 pre)) j sis1,
          appendTo dest (data e) w1, Err err)).
Proof.
  intros Hgz Hes Hpre Hu. unfold extractDeltaData.
  rewrite Hgz, Hes, spoolEntries_app, Hpre. simpl. rewrite Hu. split.
  - intros ->. reflexivity.
  - intros j info err -> Hj Hused Hroom Hr. simpl. rewrite Hj, Hused.
    unfold copyEntry. apply Nat.leb_le in Hroom. rewrite Hroom, Hr.
    reflexivity.
Qed.

(** ** Bodies that are not read *)

(** X25: the body of an entry that is not read is discarded by the next
    [rdr.Next], and an error met there is returned.  In the scan: when the
    entries before [e] are accepted and [e] is out of use, the error of its
    body is returned.  In the spooling: when the entries before [e] are gone
    through and [e] is out of use, or the record its name leads to is not
    flagged, the error of its body is returned, and nothing of [e] is
    written. *)
Theorem discarded_body_error `{Externals} (s : TarStream)
    (pre post : list TarEntry) (e : TarEntry) (err : string) :
  gzipErr s = None ->
  entries s = (pre ++ e :: post)%list ->
  readErr e = Some err ->
  (Forall entryAccepted pre -> useTarHeader (hdr e) = false ->
   analyzeTar s = Err err) /\
  (forall (sourceByPath : gmap string nat) (dest : string)
          (sis sis1 : list SourceInfo) (w w1 : World),
     spoolEntries pre None sourceByPath dest 0 sis w = (sis1, w1, Ok tt) ->
     useTarHeader (hdr e) = false \/
     (exists (j : nat) (info : SourceInfo),
        sourceByPath !! Name (hdr e) = Some j /\ sis1 !! j = Some info /\
        usedForDelta info = false) ->
     extractDeltaData s sourceByPath dest sis w = (sis1, w1, Err err)).
Proof.
  intros Hgz Hes Hr. split.
  - intros Hpre Hu. unfold analyzeTar.
    rewrite Hgz, Hes, scanEntries_app, (scanEntries_accepted _ _ _ Hpre).
    simpl. rewrite Hu, Hr. reflexivity.
  - intros sourceByPath dest sis sis1 w w1 Hpre Hskip.
    unfold extractDeltaData.
    rewrite Hgz, Hes, spoolEntries_app, Hpre. simpl.
    destruct (useTarHeader (hdr e)) eqn:Hu; [|rewrite Hr; reflexivity].
    destruct Hskip as [|(j & info & Hj & Hinfo & Hflag)]; [discriminate|].
    rewrite Hj. simpl. rewrite Hinfo, Hflag, Hr. reflexivity.
Qed.

(** ** Further properties of the analysis *)

(** The analysis, step by step. *)
Lemma analyzeForDelta_unfold `{Externals} (old new : TarInfo)
    (oldFile : TarStream) (w : World) :
  analyzeForDelta old new oldFile w =
    match tempNames w with
    | [] => (w, Err "cannot create temporary file")
    | name :: names =>
        let '(sbp, sis1, tis) := selectionPass old new in
        match extractDeltaData oldFile sbp name sis1
                (withTempFile name names w) with
        | (sis2, w2, Ok _) =>
            (w2, Ok (mkAnalysis tis sis2 name (indexTargets tis 0 ∅)))
        | (_, w2, Err err) => (w2, Err err)
        | (_, w2, Fatal msg) => (w2, Fatal msg)
        | (_, w2, Panic) => (w2, Panic)
        end
    end.
Proof.
  unfold analyzeForDelta, TempFile, withTempFile.
  destruct (selectionPass old new) as [[sbp sis1] tis].
  destruct (tempNames w); reflexivity.
Qed.

(** An analysis that returns. *)
Lemma analyzeForDelta_Ok `{Externals} (old new : TarInfo)
    (oldFile : TarStream) (w w' : World) (a : DeltaAnalysis) :
  analyzeForDelta old new oldFile w = (w', Ok a) ->
  exists (sbp : gmap string nat) (sis1 : list SourceInfo)
         (names : list string),
    selectionPass old new = (sbp, sis1, targetInfos a) /\
    tempNames w = sourceData a :: names /\
    targetInfoByIndex a = indexTargets (targetInfos a) 0 ∅ /\
    extractDeltaData oldFile sbp (sourceData a) sis1
      (withTempFile (sourceData a) names w) = (sourceInfos a, w', Ok tt).
Proof.
  rewrite analyzeForDelta_unfold.
  destruct (tempNames w) as [|name names]; [discriminate|].
  destruct (selectionPass old new) as [[sbp sis1] tis].
  destruct (extractDeltaData oldFile sbp name sis1 _) as [[sis2 w2] r] eqn:Hx.
  destruct r as [[]| | |]; try discriminate.
  intros [= <- <-]. simpl. exists sbp, sis1, names. auto.
Qed.

(** X15: the scratch file of the analysis.  When no temporary file can be
    created the analysis returns the error and leaves the world as it was.
    Otherwise, however the analysis ends (a value, an error or a panic),
    the temporary file it created is on the disk with an open handle, and
    every other file is as before; an analysis that is returned has that
    file as its scratch file. *)
Theorem analyzeForDelta_scratch_file `{Externals} (old new : TarInfo)
    (oldFile : TarStream) (w : World) :
  (tempNames w = [] ->
   analyzeForDelta old new oldFile w
     = (w, Err "cannot create temporary file")) /\
  (forall (name : string) (names : list string) (w' : World)
          (r : outcome DeltaAnalysis),
     tempNames w = name :: names ->
     analyzeForDelta old new oldFile w = (w', r) ->
     is_Some (disk w' !! name) /\
     opened w' = {[name]} ∪ opened w /\
     (forall n : string, n <> name -> disk w' !! n = disk w !! n) /\
     tempNames w' = names /\
     (freeSpace w' <= freeSpace w)%nat /\
     (forall a, r = Ok a -> sourceData a = name)).
Proof.
  rewrite analyzeForDelta_unfold. split.
  - intros ->. reflexivity.
  - intros name names w' r ->.
    destruct (selectionPass old new) as [[sbp sis1] tis].
    destruct (extractDeltaData oldFile sbp name sis1 _) as [[sis2 w2] rx] eqn:Hx.
    apply extract_effects in Hx
      as ((Hother & (more & Hdest) & Hop & Htn & Hfree) & _).
    simpl in *. rewrite lookup_insert_eq in Hdest. simpl in Hdest.
    intros Hr.
    assert (w' = w2) as ->.
    { destruct rx; injection Hr as <- _; reflexivity. }
    split; [rewrite Hdest; eauto|]. split; [exact Hop|].
    split; [|split; [exact Htn|split; [exact Hfree|]]].
    + intros n Hn. rewrite (Hother n Hn).
      apply lookup_insert_ne. congruence.
    + intros a ->. destruct rx as [[]| | |]; try discriminate.
      injection Hr as <-. reflexivity.
Qed.

(** X16: an analysis that returns, followed by [Close], leaves the files
    and the open handles as they were before the analysis, when the name
    picked for the scratch file was not in use. *)
Theorem analyzeForDelta_then_Close `{Externals} (old new : TarInfo)
    (oldFile : TarStream) (w w' : World) (a : DeltaAnalysis) :
  analyzeForDelta old new oldFile w = (w', Ok a) ->
  disk w !! sourceData a = None ->
  sourceData a ∉ opened w ->
  disk (Close a w') = disk w /\ opened (Close a w') = opened w.
Proof.
  intros Hrun Hfresh Hclosed.
  destruct (analyzeForDelta_Ok _ _ _ _ _ _ Hrun)
    as (sbp & sis1 & names & _ & _ & _ & Hx).
  apply extract_effects in Hx as ((Hother & _ & Hop & _) & _).
  simpl in Hother, Hop.
  unfold Close, closeAndRemove. simpl. split.
  - apply map_eq. intros n.
    destruct (decide (n = sourceData a)) as [->|Hn].
    + rewrite lookup_delete_eq, Hfresh. reflexivity.
    + rewrite lookup_delete_ne by congruence. rewrite (Hother n Hn).
      apply lookup_insert_ne. congruence.
  - rewrite Hop. apply leibniz_equiv, set_equiv. intros n.
    rewrite elem_of_difference, elem_of_union, elem_of_singleton.
    split; [tauto|]. intros Hn. split; [tauto|]. congruence.
Qed.

(** X17: the analysis returned holds the target records of the selection
    pass and its source records with their file records and flags; the
    spooling has written offsets only: the offset of a source record that
    is not flagged is 0. *)
Theorem analysis_keeps_selection `{Externals} (old new : TarInfo)
    (oldFile : TarStream) (w w' : World) (a : DeltaAnalysis)
    (sbp : gmap string nat) (sis : list SourceInfo) (tis : list TargetInfo) :
  analyzeForDelta old new oldFile w = (w', Ok a) ->
  selectionPass old new = (sbp, sis, tis) ->
  targetInfos a = tis /\
  file <$> sourceInfos a = files old /\
  usedForDelta <$> sourceInfos a = usedForDelta <$> sis /\
  Forall (fun s => usedForDelta s = false -> offset s = 0) (sourceInfos a).
Proof.
  intros Hrun Hpass.
  destruct (analyzeForDelta_Ok _ _ _ _ _ _ Hrun)
    as (sbp' & sis1 & names & Hpass' & _ & _ & Hx).
  rewrite Hpass in Hpass'. injection Hpass' as <- <- Htis.
  pose proof (selectionPass_sources old new _ _ _ Hpass) as Hfiles.
  pose proof (selectionPass_offsets old new _ _ _ Hpass) as Hzero.
  apply extract_effects in Hx as (_ & Hfl & Hfi & Hkeep).
  split; [congruence|]. split; [congruence|]. split; [exact Hfl|].
  apply Forall_lookup. intros j s2 Hj Hunused.
  assert (Hlen : (j < length sis)%nat).
  { apply lookup_lt_Some in Hj.
    rewrite <- (length_fmap usedForDelta), Hfl, length_fmap in Hj. exact Hj. }
  apply lookup_lt_is_Some in Hlen as [s1 Hs1].
  assert (Hf1 : usedForDelta s1 = false).
  { assert (Hq : usedForDelta <$> (sourceInfos a !! j)
                 = usedForDelta <$> (sis !! j)).
    { rewrite <- !list_lookup_fmap, Hfl. reflexivity. }
    rewrite Hj, Hs1 in Hq. simpl in Hq. congruence. }
  rewrite (Hkeep j s1 Hs1 Hf1) in Hj. injection Hj as <-.
  rewrite Forall_lookup in Hzero. apply (Hzero j s1 Hs1).
Qed.

(** ** The table of targets by index *)

Lemma indexTargets_absent `{Externals} (tis : list TargetInfo) (i : nat)
    (m : gmap nat nat) (x : nat) :
  Forall (fun ti => index (tfile ti) <> x) tis ->
  indexTargets tis i m !! x = m !! x.
Proof.
  revert i m. induction tis as [|t tis IH]; intros i m Hall; simpl.
  - reflexivity.
  - apply Forall_cons in Hall as [Ht Hall].
    rewrite (IH _ _ Hall). apply lookup_insert_ne. exact Ht.
Qed.

Lemma indexTargets_last `{Externals} (tis : list TargetInfo) (i : nat)
    (m : gmap nat nat) (k : nat) (ti : TargetInfo) :
  tis !! k = Some ti ->
  (forall (k' : nat) (ti' : TargetInfo),
     (k < k')%nat -> tis !! k' = Some ti' ->
     index (tfile ti') <> index (tfile ti)) ->
  indexTargets tis i m !! index (tfile ti) = Some (i + k)%nat.
Proof.
  revert i m k. induction tis as [|t0 tis IH]; intros i m k Hk Hlast.
  - discriminate.
  - destruct k as [|k]; simpl in *.
    + injection Hk as ->. rewrite indexTargets_absent.
      * rewrite lookup_insert_eq. f_equal. lia.
      * apply Forall_lookup. intros k' ti' Hk'.
        apply (Hlast (S k')); [lia|exact Hk'].
    + replace (i + S k)%nat with (S i + k)%nat by lia.
      apply IH; [exact Hk|].
      intros k' ti' Hlt Hk'. apply (Hlast (S k')); [lia|exact Hk'].
Qed.

Lemma indexTargets_sound `{Externals} (tis : list TargetInfo) (i : nat)
    (m : gmap nat nat) (x n : nat) :
  indexTargets tis i m !! x = Some n ->
  m !! x = Some n \/
  exists (k : nat) (ti : TargetInfo),
    n = (i + k)%nat /\ tis !! k = Some ti /\ index (tfile ti) = x.
Proof.
  revert i m. induction tis as [|t0 tis IH]; intros i m; simpl.
  - intros Hx. left. exact Hx.
  - intros Hx. apply IH in Hx as [Hx|(k & ti & -> & Hk & Hidx)].
    + destruct (decide (index (tfile t0) = x)) as [Heq|Hne].
      * rewrite <- Heq, lookup_insert_eq in Hx. injection Hx as <-.
        right. exists 0%nat, t0. split; [lia|]. split; [reflexivity|exact Heq].
      * rewrite lookup_insert_ne in Hx by exact Hne. left. exact Hx.
    + right. exists (S k), ti. split; [lia|]. split; [exact Hk|exact Hidx].
Qed.

(** X18: in an analysis that is returned, the table [targetInfoByIndex]
    leads from an index only to a target record whose file has that index;
    and when the files of the new inventory have pairwise distinct indexes,
    as the inventories of the scanner have, it leads from the index of the
    file of every target record to that record. *)
Theorem targetInfoByIndex_lookup `{Externals} (old new : TarInfo)
    (oldFile : TarStream) (w w' : World) (a : DeltaAnalysis) :
  analyzeForDelta old new oldFile w = (w', Ok a) ->
  (forall x n : nat,
     targetInfoByIndex a !! x = Some n ->
     exists ti, targetInfos a !! n = Some ti /\ index (tfile ti) = x) /\
  (NoDup (index <$> files new) ->
   forall (k : nat) (ti : TargetInfo),
     targetInfos a !! k = Some ti ->
     targetInfoByIndex a !! index (tfile ti) = Some k).
Proof.
  intros Hrun.
  destruct (analyzeForDelta_Ok _ _ _ _ _ _ Hrun)
    as (sbp & sis1 & names & Hpass & _ & Htab & _).
  rewrite Htab. split.
  - intros x n Hx. apply indexTargets_sound in Hx as [Hx|(k & ti & -> & Hk & Hi)].
    + rewrite lookup_empty in Hx. discriminate.
    + exists ti. split; [exact Hk|exact Hi].
  - intros Hnd k ti Hk.
    assert (Hfiles : tfile <$> targetInfos a = files new).
    { rewrite (selectionPass_targets old new _ _ _ Hpass).
      rewrite <- list_fmap_compose.
      rewrite <- (list_fmap_id (files new)) at 2.
      apply list_fmap_ext. intros i t _. apply processTarget_tfile. }
    apply (indexTargets_last _ 0 ∅ k ti Hk).
    intros k' ti' Hlt Hk' Heq.
    assert (k = k'); [|lia].
    apply (NoDup_lookup (index <$> files new) k k' (index (tfile ti)) Hnd).
    + rewrite <- Hfiles, <- list_fmap_compose, list_lookup_fmap, Hk.
      reflexivity.
    + rewrite <- Hfiles, <- list_fmap_compose, list_lookup_fmap, Hk'.
      simpl. rewrite Heq. reflexivity.
Qed.

(** ** An archive against itself *)

(** The exact match finds the last record of the old inventory with the
    digest of the target, when it has the size of the target and is
    world-readable. *)
Lemma selectSource_by_digest (old : TarInfo) (j : nat) (T S : TarFileInfo) :
  files old !! j = Some S ->
  sha1 S = sha1 T ->
  size S = size T ->
  worldReadable S = true ->
  (forall (j' : nat) (S' : TarFileInfo),
     (j < j')%nat -> files old !! j' = Some S' -> sha1 S' <> sha1 T) ->
  selectSource (initialSources old)
    (indexBy sha1Key (initialSources old) 0 ∅)
    (indexBy pathKey (initialSources old) 0 ∅) T = Some (ByDigest j).
Proof.
  intros HS Hsha Hsize Hread Hlast.
  set (s := mkSource S false 0).
  assert (Hs : initialSources old !! j = Some s).
  { unfold initialSources. rewrite list_lookup_fmap, HS. reflexivity. }
  assert (Htab : indexBy sha1Key (initialSources old) 0 ∅ !! sha1 T
                 = Some j).
  { rewrite <- Hsha. change (sha1 S) with (sha1Key s).
    apply (indexBy_last sha1Key _ 0 ∅ j s Hs).
    intros j' s' Hlt Hs'. apply (initialSources_lookup old) in Hs'.
    unfold sha1Key. simpl. rewrite Hsha. apply (Hlast j' _ Hlt Hs'). }
  unfold selectSource, exactMatch. rewrite Htab. simpl. rewrite Hs. simpl.
  rewrite Hsize, Z.eqb_refl, Hread. reflexivity.
Qed.

Lemma spooledOf_nothing_flagged (sourceByPath : gmap string nat)
    (sis : list SourceInfo) (es : list TarEntry) :
  Forall (fun s => usedForDelta s = false) sis ->
  spooledOf sourceByPath sis es = [].
Proof.
  intros Hflags. unfold spooledOf.
  replace (List.filter (spoolsEntry sourceByPath sis) es) with (@nil TarEntry);
    [reflexivity|].
  induction es as [|e es IH]; simpl; [reflexivity|].
  assert (Hsp : spoolsEntry sourceByPath sis e = false).
  { unfold spoolsEntry, flagAt.
    destruct (deref sis (sourceByPath !! Name (hdr e))) as [[j info]|] eqn:Hd;
      [|apply andb_false_r].
    apply deref_Some in Hd as [_ Hj]. rewrite Forall_lookup in Hflags.
    rewrite (Hflags j info Hj). apply andb_false_r. }
  rewrite Hsp. exact IH.
Qed.

(** X19: the analysis of an archive against itself, when its files are
    world-readable and have pairwise distinct digests: every target record
    has its own file as source, by an exact match with no block
    correspondence; no source record is flagged; and the scratch file is
    empty. *)
Theorem analysis_of_archive_against_itself `{Externals} (inv : TarInfo)
    (oldFile : TarStream) (w w' : World) (a : DeltaAnalysis) :
  Forall (fun f => worldReadable f = true) (files inv) ->
  NoDup (sha1 <$> files inv) ->
  analyzeForDelta inv inv oldFile w = (w', Ok a) ->
  (forall (k : nat) (f : TarFileInfo),
     files inv !! k = Some f ->
     targetInfos a !! k = Some (mkTarget f (Some k) None)) /\
  Forall (fun s => usedForDelta s = false) (sourceInfos a) /\
  disk w' !! sourceData a = Some [].
Proof.
  intros Hread Hnd Hrun.
  destruct (analyzeForDelta_Ok _ _ _ _ _ _ Hrun)
    as (sbp & sis1 & names & Hpass & _ & _ & Hx).
  pose proof (selectionPass_targets inv inv _ _ _ Hpass) as Htis.
  assert (Hsel : forall k f, files inv !! k = Some f ->
            selectSource (initialSources inv)
              (indexBy sha1Key (initialSources inv) 0 ∅)
              (indexBy pathKey (initialSources inv) 0 ∅) f
            = Some (ByDigest k)).
  { intros k f Hk. apply (selectSource_by_digest inv k f f Hk);
      try reflexivity.
    - rewrite Forall_lookup in Hread. apply (Hread k f Hk).
    - intros k' f' Hlt Hk' Heq. assert (k = k'); [|lia].
      apply (NoDup_lookup (sha1 <$> files inv) k k' (sha1 f) Hnd).
      + rewrite list_lookup_fmap, Hk. reflexivity.
      + rewrite list_lookup_fmap, Hk'. simpl. rewrite Heq. reflexivity. }
  assert (Htarget : forall k f, files inv !! k = Some f ->
            targetInfos a !! k = Some (mkTarget f (Some k) None)).
  { intros k f Hk. rewrite Htis, list_lookup_fmap, Hk. simpl. f_equal.
    unfold processTarget. rewrite (Hsel k f Hk). simpl.
    destruct (initialSources inv !! k); reflexivity. }
  assert (Hflags1 : Forall (fun s => usedForDelta s = false) sis1).
  { apply Forall_lookup. intros j s Hj.
    rewrite selectionPass_unfold in Hpass. injection Hpass as _ Hsis _.
    pose proof (selectAll_flags (indexBy sha1Key (initialSources inv) 0 ∅)
                  (indexBy pathKey (initialSources inv) 0 ∅)
                  (initialSources inv) [] (files inv) j) as Hflag.
    rewrite Hsis, Hj, <- Htis in Hflag. simpl in Hflag.
    destruct (initialSources inv !! j) as [s0|] eqn:Hs0; [|discriminate].
    simpl in Hflag. injection Hflag as Hflag. rewrite Hflag.
    apply not_true_is_false. rewrite flagAfter_true.
    intros [(k & ti & Hk & _ & Hpart & _)|[Hinit _]].
    - assert (Hlen : is_Some (files inv !! k)).
      { apply lookup_lt_is_Some. apply lookup_lt_Some in Hk.
        rewrite Htis, length_fmap in Hk. exact Hk. }
      destruct Hlen as [f Hf]. rewrite (Htarget k f Hf) in Hk.
      injection Hk as <-. discriminate.
    - unfold initialSources in Hs0. rewrite list_lookup_fmap in Hs0.
      destruct (files inv !! j); [|discriminate]. injection Hs0 as <-.
      discriminate. }
  split; [exact Htarget|].
  unfold extractDeltaData in Hx.
  destruct (gzipErr oldFile); [discriminate|].
  assert (Hinit : disk (withTempFile (sourceData a) names w) !! sourceData a
                  = Some []).
  { simpl. apply lookup_insert_eq. }
  destruct (spoolEntries_Ok _ _ _ _ _ _ _ _ _ _ Hx Hinit)
    as (Hfl & _ & Hdisk & _).
  split.
  - apply Forall_lookup. intros j s Hj.
    assert (Hq : usedForDelta <$> (sourceInfos a !! j)
                 = usedForDelta <$> (sis1 !! j)).
    { rewrite <- !list_lookup_fmap, Hfl. reflexivity. }
    rewrite Hj in Hq. simpl in Hq.
    destruct (sis1 !! j) as [s1|] eqn:Hs1; [|discriminate].
    rewrite Forall_lookup in Hflags1. specialize (Hflags1 j s1 Hs1).
    simpl in Hq. congruence.
  - rewrite Hdisk, (spooledOf_nothing_flagged _ _ _ Hflags1). reflexivity.
Qed.

(** ** Path matches, verbatim storage and the window without overflow *)

(** X20: without overflow, that is for a size in the int64 range whose
    product by 30 is in range too, the window of the code is the window
    over the integers, and it holds the size of the target itself. *)
Theorem window_without_overflow (t : TarFileInfo) :
  0 <= size t -> size t * 30 < 2 ^ 63 ->
  minSizeOf t = size t - Z.quot (size t * 30) 100 /\
  maxSizeOf t = size t + Z.quot (size t * 30) 100 /\
  minSizeOf t <= size t <= maxSizeOf t.
Proof.
  unfold minSizeOf, maxSizeOf, similarityPercentThreshold, wrap64.
  intros Hn Hlt.
  change (2 ^ 63) with 9223372036854775808 in *.
  change (2 ^ 64) with 18446744073709551616 in *.
  Z.to_euclidean_division_equations. lia.
Qed.

(** X21: the exact-path match.  When no old file has the digest of the
    target [T], [T] is a delta candidate, and the old file [S] is the last
    record of the old inventory with the path of [T], is a delta candidate
    and has its size in the window of the code, below the upper end, then
    the record of [T] has [S] as source, with a block correspondence, and
    no fuzzy scan decides. *)
Theorem same_path_source_selected `{Externals} (old new : TarInfo)
    (sbp : gmap string nat) (sis : list SourceInfo) (tis : list TargetInfo)
    (k j : nat) (T S : TarFileInfo) :
  selectionPass old new = (sbp, sis, tis) ->
  files new !! k = Some T ->
  files old !! j = Some S ->
  path S = path T ->
  (forall (j' : nat) (S' : TarFileInfo),
     (j < j')%nat -> files old !! j' = Some S' -> path S' <> path T) ->
  Forall (fun S' => sha1 S' <> sha1 T) (files old) ->
  isDeltaCandidate T = true ->
  isDeltaCandidate S = true ->
  minSizeOf T <= size S < maxSizeOf T ->
  exists ti, tis !! k = Some ti /\ tfile ti = T /\
    source ti = Some j /\
    rollsumMatches ti = Some (ComputeRollsumMatches (blobs S) (blobs T)).
Proof.
  intros Hpass HT HS Hpath Hlast Hsha HcT HcS Hwin.
  rewrite (selectionPass_targets old new _ _ _ Hpass).
  rewrite list_lookup_fmap, HT. simpl. eexists. split; [reflexivity|].
  split; [apply processTarget_tfile|].
  set (s := mkSource S false 0).
  assert (Hs : initialSources old !! j = Some s).
  { unfold initialSources. rewrite list_lookup_fmap, HS. reflexivity. }
  assert (Hnone : indexBy sha1Key (initialSources old) 0 ∅ !! sha1 T = None).
  { rewrite indexBy_absent; [apply lookup_empty|].
    unfold initialSources. apply Forall_fmap.
    eapply Forall_impl; [exact Hsha|]. intros S' HS'. exact HS'. }
  assert (Htab : indexBy pathKey (initialSources old) 0 ∅ !! path T = Some j).
  { rewrite <- Hpath. change (path S) with (pathKey s).
    apply (indexBy_last pathKey _ 0 ∅ j s Hs).
    intros j' s' Hlt Hs'. apply (initialSources_lookup old) in Hs'.
    unfold pathKey. simpl. rewrite Hpath. apply (Hlast j' _ Hlt Hs'). }
  assert (Hsel : selectSource (initialSources old)
                   (indexBy sha1Key (initialSources old) 0 ∅)
                   (indexBy pathKey (initialSources old) 0 ∅) T
                 = Some (ByPath j)).
  { unfold selectSource, exactMatch, usefulSource.
    rewrite Hnone, Htab, HcT. simpl. rewrite Hs. simpl. rewrite HcS. simpl.
    destruct (Z.geb_spec (size S) (minSizeOf T)); [|lia].
    destruct (Z.ltb_spec (size S) (maxSizeOf T)); [|lia]. reflexivity. }
  unfold processTarget. rewrite Hsel. simpl. rewrite Hs. auto.
Qed.

(** X22: verbatim storage.  A target of positive size gets no source and
    no block correspondence when no old file has its digest and either the
    target is no delta candidate, or every old file is no delta candidate or
    has its size outside the window over the integers. *)
Theorem stored_verbatim `{Externals} (old new : TarInfo)
    (sbp : gmap string nat) (sis : list SourceInfo) (tis : list TargetInfo)
    (k : nat) (ti : TargetInfo) :
  selectionPass old new = (sbp, sis, tis) ->
  tis !! k = Some ti ->
  0 < size (tfile ti) < 2 ^ 63 ->
  Forall (fun S => sha1 S <> sha1 (tfile ti)) (files old) ->
  (isDeltaCandidate (tfile ti) = false \/
   Forall (fun S =>
             isDeltaCandidate S = false \/
             size S < size (tfile ti) - Z.quot (size (tfile ti) * 30) 100 \/
             size (tfile ti) + Z.quot (size (tfile ti) * 30) 100 < size S)
          (files old)) ->
  source ti = None /\ rollsumMatches ti = None.
Proof.
  intros Hpass Hk Hsize Hsha Hout.
  rewrite (selectionPass_targets old new _ _ _ Hpass) in Hk.
  rewrite list_lookup_fmap in Hk.
  destruct (files new !! k) as [t|]; [|discriminate].
  injection Hk as <-.
  destruct (processTarget_record old t) as [Ht Hrec].
  set (ti := snd (processTarget _ _ _ t)) in *. rewrite Ht in *.
  destruct (selectSource _ _ _ t) as [c|] eqn:Hsel; [exfalso|exact Hrec].
  pose proof (selectSource_cases _ _ _ _ _ Hsel) as Hc.
  assert (Hwin : forall s j, initialSources old !! j = Some s ->
            isDeltaCandidate t = true ->
            isDeltaCandidate (file s) = true ->
            minSizeOf t <= size (file s) <= maxSizeOf t -> False).
  { intros s j Hs Hct Hcs Hx.
    destruct Hout as [Hnc|Hall]; [congruence|].
    apply (initialSources_lookup old) in Hs.
    rewrite Forall_lookup in Hall. specialize (Hall j _ Hs).
    assert (size t - Z.quot (size t * 30) 100 <= size (file s)
              <= size t + Z.quot (size t * 30) 100).
    { apply window_sound; [lia|apply Hx|apply Hx]. }
    destruct Hall as [Hn|Hn]; [congruence|lia]. }
  destruct c as [j|j|fz j].
  - destruct Hc as (s & Hs & Htab & _).
    apply indexBy_sound in Htab as [Hem|(j' & s' & _ & Hs' & Hkey)].
    + rewrite lookup_empty in Hem. discriminate.
    + apply (initialSources_lookup old) in Hs'.
      rewrite Forall_lookup in Hsha. apply (Hsha j' _ Hs'). exact Hkey.
  - destruct Hc as (s & Hs & _ & Hct & Hcs & Hx).
    apply (Hwin s j Hs Hct Hcs). lia.
  - destruct Hc as [Hct Hf].
    destruct (fuzzySearch_selected _ _ _ _ Hf) as (s & Hs & Hcs & Hx & _).
    apply (Hwin s j Hs Hct Hcs Hx).
Qed.

(** X23: what the scratch file holds, whatever the paths of the archive:
    in an analysis that is returned, it holds the bodies of the entries in
    use whose path leads, through the path table, to a flagged source
    record, in the order of the stream; a path that is twice in the archive
    leads both entries to one record. *)
Theorem scratch_file_content `{Externals} (old new : TarInfo)
    (oldFile : TarStream) (w w' : World) (a : DeltaAnalysis)
    (sbp : gmap string nat) (sis : list SourceInfo) (tis : list TargetInfo) :
  analyzeForDelta old new oldFile w = (w', Ok a) ->
  selectionPass old new = (sbp, sis, tis) ->
  sbp = indexBy pathKey (initialSources old) 0 ∅ /\
  disk w' !! sourceData a
    = Some (spooledOf sbp (sourceInfos a) (entries oldFile)) /\
  nextErr oldFile = None /\ gzipErr oldFile = None.
Proof.
  intros Hrun Hpass.
  destruct (analyzeForDelta_Ok _ _ _ _ _ _ Hrun)
    as (sbp' & sis1 & names & Hpass' & _ & _ & Hx).
  rewrite Hpass in Hpass'. injection Hpass' as <- <- _.
  split.
  { rewrite selectionPass_unfold in Hpass. injection Hpass as <- _ _.
    reflexivity. }
  unfold extractDeltaData in Hx.
  destruct (gzipErr oldFile); [discriminate|].
  assert (Hinit : disk (withTempFile (sourceData a) names w) !! sourceData a
                  = Some []).
  { simpl. apply lookup_insert_eq. }
  destruct (spoolEntries_Ok _ _ _ _ _ _ _ _ _ _ Hx Hinit)
    as (Hfl & _ & Hdisk & Hn).
  split; [|auto]. rewrite Hdisk. simpl. f_equal.
  symmetry. apply spooledOf_sameFlags, Hfl.
Qed.

(** ** The engine on the example archives *)

Section Examples.

#[local] Existing Instance toyExternals.

(** *** The consumed flag over the selection pass *)

(** C1, on the code: the old archive holds ["a"]; in the new archive ["a"]
    has lost a byte and ["b"] is the old ["a"].  With the first target
    alone, the source is selected for partial reuse, flagged and spooled.
    With the second target after it, an exact match on the same source, the
    assignment [source.usedForDelta = usedForDelta] of line 308 writes
    [false]: the first target still holds its block correspondence, the flag
    is false and the scratch file stays empty. *)
Theorem C1_flag_reset_by_later_exact_match :
  match analyzeBoth oneFileOld shrunkNew oneFileOld
          emptyWorld,
        analyzeBoth oneFileOld shrunkAndCopiedNew
          oneFileOld emptyWorld
  with
  | (w1, Ok a1), (w2, Ok a2) =>
      (source <$> targetInfos a1 !! 0%nat = Some (Some 0%nat) /\
       isPartial <$> targetInfos a1 !! 0%nat = Some true /\
       usedForDelta <$> sourceInfos a1 !! 0%nat = Some true /\
       disk w1 !! sourceData a1 = Some (bytes "0123456789")) /\
      (source <$> targetInfos a2 !! 0%nat = Some (Some 0%nat) /\
       isPartial <$> targetInfos a2 !! 0%nat = Some true /\
       source <$> targetInfos a2 !! 1%nat = Some (Some 0%nat) /\
       isPartial <$> targetInfos a2 !! 1%nat = Some false /\
       usedForDelta <$> sourceInfos a2 !! 0%nat = Some false /\
       disk w2 !! sourceData a2 = Some [])
  | _, _ => False
  end.
Proof. vm_compute. repeat split. Qed.

(** *** The scratch file on the error paths *)

(** C2, on the code: when the spooling fails, by a read error on the old
    archive or by a full device, [analyzeForDelta] returns the error
    (lines 330 to 332) and the scratch file is still on the disk, with an
    open handle, holding what was written; on success, [Close] removes
    it. *)
Theorem C2_scratch_file_left_on_error :
  match analyzeBoth oneFileOld shrunkNew
          oneFileOldTruncated emptyWorld
  with
  | (w, Err e) =>
      e = "unexpected EOF" /\
      disk w !! "tar-diff-1" = Some (bytes "0123") /\
      bool_decide ("tar-diff-1" ∈ opened w) = true
  | _ => False
  end /\
  match analyzeBoth oneFileOld shrunkNew oneFileOld
          smallDisk
  with
  | (w, Err e) =>
      e = "no space left on device" /\
      disk w !! "tar-diff-1" = Some (bytes "0123") /\
      bool_decide ("tar-diff-1" ∈ opened w) = true
  | _ => False
  end /\
  match analyzeBoth oneFileOld shrunkNew oneFileOld
          emptyWorld
  with
  | (w, Ok a) =>
      disk w !! "tar-diff-1" = Some (bytes "0123456789") /\
      disk (Close a w) !! "tar-diff-1" = None /\
      bool_decide ("tar-diff-1" ∈ opened (Close a w)) = false
  | _ => False
  end.
Proof. vm_compute. repeat split. Qed.

(** *** The exact-path match at the upper end of the window *)

(** C4, on the code: the target ["a/x"] has 10 bytes, so the window ends at
    13.  The old ["a/x"] has 13 bytes and is a delta candidate; the test
    [s.file.size < maxSize] of line 271 refuses it, the fuzzy scan, whose
    test is [s.file.size > maxSize], selects ["b/x"], and the old ["a/x"]
    is not marked.  With 12 bytes the old ["a/x"] is selected. *)
Theorem C4_path_match_excludes_upper_bound :
  match analyzeBoth twoDirsOld twoDirsNew twoDirsOld
          emptyWorld,
        analyzeBoth twoDirsOld12 twoDirsNew twoDirsOld12
          emptyWorld
  with
  | (_, Ok a), (_, Ok a12) =>
      ((fun ti => (path (tfile ti), size (tfile ti), maxSizeOf (tfile ti)))
         <$> targetInfos a !! 0%nat = Some ("a/x", 10, 13) /\
       (fun s => (path (file s), size (file s), isDeltaCandidate (file s),
                  usedForDelta s))
         <$> sourceInfos a !! 1%nat = Some ("a/x", 13, true, false) /\
       (fun s => (path (file s), usedForDelta s))
         <$> sourceInfos a !! 0%nat = Some ("b/x", true) /\
       source <$> targetInfos a !! 0%nat = Some (Some 0%nat)) /\
      ((fun s => (path (file s), size (file s), usedForDelta s))
         <$> sourceInfos a12 !! 1%nat = Some ("a/x", 12, true) /\
       source <$> targetInfos a12 !! 0%nat = Some (Some 1%nat))
  | _, _ => False
  end.
Proof. vm_compute. repeat split. Qed.

(** *** Name similarity, the size window and the fuzzy scan *)

Lemma C8_witness :
  exists s, fuzzySources !! 1%nat = Some s /\
    100 - Z.quot (100 * 30) 100 <= size (file s)
      <= 100 + Z.quot (100 * 30) 100.
Proof.
  apply (C8_fuzzy_source_within_window fuzzySources ∅ ∅ fuzzyTarget 1 1).
  - vm_compute. split; [discriminate|reflexivity].
  - vm_compute. reflexivity.
Defined.

Lemma C9_witness :
  fuzzySearch fuzzySources fuzzyTarget = Some (1%nat, 1%nat) /\
  fuzzySearch fuzzySources fuzzyTarget
    = fuzzySearchNaive fuzzySources fuzzyTarget.
Proof.
  split; [reflexivity|].
  apply (C9_shared_lower_bound_same_as_naive fuzzySources fuzzyTarget).
  apply sizeSortedb_sound. reflexivity.
Defined.

(** *** Eligibility and identity matches *)

Lemma toy_sort_permutation (l : list TarFileInfo) :
  @sortBySize toyExternals l ≡ₚ l.
Proof. apply merge_sort_Permutation. Qed.

Lemma selectionPass_eta (old new : TarInfo) :
  selectionPass old new =
    (fst (fst (selectionPass old new)), snd (fst (selectionPass old new)),
     snd (selectionPass old new)).
Proof. destruct (selectionPass old new) as [[? ?] ?]. reflexivity. Qed.

(** C5, as stated, fails on the code: the old file [".xzdata"] is no delta
    candidate, and the exact content match selects it as the source of its
    copy. *)
Lemma C5_reserved_prefix_selected_by_digest :
  ~ (forall (E : Externals) (old new : TarInfo) (sbp : gmap string nat)
       (sis : list SourceInfo) (tis : list TargetInfo) (k j : nat)
       (ti : TargetInfo) (S : TarFileInfo),
       selectionPass old new = (sbp, sis, tis) ->
       tis !! k = Some ti ->
       files old !! j = Some S ->
       (isDeltaCandidate S = false -> source ti <> Some j) /\
       (isDeltaCandidate (tfile ti) = false -> isPartial ti = false)).
Proof.
  intros Hclaim.
  pose (old := inventoryOf reservedOld). pose (new := inventoryOf reservedNew).
  destruct (Hclaim toyExternals old new _ _ _ 0%nat 0%nat
              (mkTarget (fileInfoOf 0 (regular "copy" rw_r_r "0123456789"))
                 (Some 0%nat) None)
              (fileInfoOf 0 (regular ".xzdata" rw_r_r "0123456789"))
              (selectionPass_eta old new)) as [Hsrc _].
  - vm_compute. reflexivity.
  - vm_compute. reflexivity.
  - apply Hsrc; reflexivity.
Qed.

Lemma C5_witness :
  exists (ti : TargetInfo) (S : TarFileInfo),
    path (tfile ti) = "a/x" /\ path S = "a/x" /\
    worldReadable S = true /\
    (isPartial ti = true ->
       isDeltaCandidate S = true /\ isDeltaCandidate (tfile ti) = true) /\
    (isPartial ti = false ->
       sha1 S = sha1 (tfile ti) /\ size S = size (tfile ti)).
Proof.
  pose (old := inventoryOf twoDirsOld12). pose (new := inventoryOf twoDirsNew).
  exists (mkTarget (fileInfoOf 0 (regular "a/x" rw_r_r "CCCCCCCCCC"))
            (Some 1%nat) (Some (tt : @RollsumMatches toyExternals))),
         (fileInfoOf 1 (regular "a/x" rw_r_r "BBBBBBBBBBBB")).
  split; [reflexivity|]. split; [reflexivity|].
  apply (C5_selected_sources_are_eligible old new _ _ _ 0 1 _ _
           (selectionPass_eta old new)).
  - vm_compute. reflexivity.
  - reflexivity.
  - vm_compute. reflexivity.
Defined.

(** C6, as stated, fails on the code: the old ["usr/b"] has the digest and
    the size of the new ["usr/b"] and is world-readable, but the digest
    table holds ["etc/a"], a later file with the same content that is not
    world-readable; the exact match fails, and ["usr/b"] is selected by its
    path, for partial reuse. *)
Lemma C6_identity_match_shadowed :
  ~ (forall (E : Externals) (old new : TarInfo) (sbp : gmap string nat)
       (sis : list SourceInfo) (tis : list TargetInfo) (k j : nat)
       (T S : TarFileInfo),
       files new !! k = Some T ->
       files old !! j = Some S ->
       sha1 S = sha1 T ->
       size S = size T ->
       worldReadable S = true ->
       selectionPass old new = (sbp, sis, tis) ->
       exists ti, tis !! k = Some ti /\ tfile ti = T /\
         is_Some (source ti) /\ rollsumMatches ti = None).
Proof.
  intros Hclaim.
  pose (old := inventoryOf shadowedOld). pose (new := inventoryOf shadowedNew).
  destruct (Hclaim toyExternals old new
              (fst (fst (selectionPass old new)))
              (snd (fst (selectionPass old new)))
              (snd (selectionPass old new)) 0%nat 0%nat
              (fileInfoOf 0 (regular "usr/b" rw_r_r "0123456789"))
              (fileInfoOf 0 (regular "usr/b" rw_r_r "0123456789")))
    as (ti & Hti & _ & _ & Hm);
    [vm_compute; reflexivity|vm_compute; reflexivity|reflexivity|reflexivity
    |reflexivity|apply selectionPass_eta|].
  vm_compute in Hti. injection Hti as <-. discriminate.
Qed.

Lemma C6_witness :
  exists ti : TargetInfo,
    snd (selectionPass (inventoryOf renamedOld) (inventoryOf renamedNew))
      !! 0%nat = Some ti /\
    tfile ti = fileInfoOf 0 (regular "lib-1.3.so" rw_r_r "0123456789") /\
    source ti = Some 0%nat /\ rollsumMatches ti = None.
Proof.
  pose (old := inventoryOf renamedOld). pose (new := inventoryOf renamedNew).
  apply (C6_identity_match_is_exact old new
           (fst (fst (selectionPass old new)))
           (snd (fst (selectionPass old new))) _ 0 0 _
           (fileInfoOf 0 (regular "lib-1.2.so" rw_r_r "0123456789"))).
  - vm_compute. reflexivity.
  - vm_compute. reflexivity.
  - reflexivity.
  - reflexivity.
  - reflexivity.
  - intros [|j'] S' Hlt HS'; [lia|]. vm_compute in HS'. discriminate.
  - apply selectionPass_eta.
Defined.

(** *** The scratch store *)

Lemma run_eta (r : World * outcome DeltaAnalysis) :
  (exists a, snd r = Ok a) -> r = (fst r, Ok (analysisOf r)).
Proof.
  destruct r as [w o]. intros [a Ha]. simpl in Ha. subst o. reflexivity.
Qed.

(** C7, on the code: the old archive holds the path ["p"] twice, with the
    bodies AAAA and BB, and the new one holds ["p"] with CCCC.  Both scans
    and the analysis return.  The path table leads both entries to one
    record, the record of the 4-byte file (line 246), which is selected by
    its path and is the only one flagged.  The loop of [extractDeltaData]
    (lines 222 to 226) finds that record for both entries: it copies both
    bodies and writes the offset twice.  The scratch file is AAAABB: the
    body of the entry that is not consumed is in it, the offset of the
    flagged record is 4, not 0, and the bytes of its file are not at that
    offset.  So scratch-copy-once fails on this run. *)
Theorem C7_path_twice_both_bodies_spooled :
  match analyzeBoth twicePOld twicePNew twicePOld emptyWorld with
  | (w, Ok a) =>
      (fun s => (index (file s), path (file s), size (file s),
                 usedForDelta s, offset s)) <$> sourceInfos a
        = [(1%nat, "p", 2, false, 0); (0%nat, "p", 4, true, 4)] /\
      source <$> targetInfos a = [Some 1%nat] /\
      isPartial <$> targetInfos a = [true] /\
      consumedEntries (sourceInfos a) (entries twicePOld) 0
        = [regular "p" rw_r_r "AAAA"] /\
      disk w !! sourceData a = Some (bytes "AAAABB") /\
      take 4 (drop (Z.to_nat 4) (bytes "AAAABB")) = bytes "BB" /\
      ~ scratchCopyOnce twicePOld w a
  | _ => False
  end.
Proof.
  destruct (analyzeBoth twicePOld twicePNew twicePOld emptyWorld)
    as [w [a| | |]] eqn:Hrun;
    vm_compute in Hrun; try discriminate.
  injection Hrun as <- <-.
  split; [vm_compute; reflexivity|].
  split; [vm_compute; reflexivity|].
  split; [vm_compute; reflexivity|].
  split; [vm_compute; reflexivity|].
  split; [vm_compute; reflexivity|].
  split; [vm_compute; reflexivity|].
  intros [(scratch & Hdisk & Hscratch & _) _].
  rewrite Hscratch in Hdisk. vm_compute in Hdisk. discriminate.
Qed.

Lemma X24_witness :
  scratchCopyOnce twoDirsOld12
    (fst (analyzeBoth twoDirsOld12 twoDirsNew twoDirsOld12 emptyWorld))
    (analysisOf (analyzeBoth twoDirsOld12 twoDirsNew twoDirsOld12 emptyWorld)).
Proof.
  apply (scratch_copy_once_distinct_names twoDirsOld12
           (inventoryOf twoDirsOld12)
           (inventoryOf twoDirsNew) emptyWorld).
  - apply toy_sort_permutation.
  - vm_compute. reflexivity.
  - apply (bool_decide_unpack _). vm_compute. exact I.
  - repeat constructor.
  - vm_compute. reflexivity.
  - change (analyzeForDelta (inventoryOf twoDirsOld12)
              (inventoryOf twoDirsNew) twoDirsOld12 emptyWorld)
      with (analyzeBoth twoDirsOld12 twoDirsNew twoDirsOld12 emptyWorld).
    apply run_eta. vm_compute. eauto.
Defined.

(** *** The archive scanner *)

Lemma C10_witness :
  (forall f : TarFileInfo,
     f ∈ files (inventoryOf twoDirsOld) ->
     chunkCoverage 65536 (size f) (blobs f)) /\
  (exists msg, @analyzeTar brokenExternals oneFileOld = Fatal msg).
Proof.
  split.
  - intros f.
    apply (C10_scanned_files_are_covered twoDirsOld toy_sort_permutation).
    vm_compute. reflexivity.
  - apply (@C10_scanned_files_are_covered brokenExternals oneFileOld
             (merge_sort_Permutation sizeLe)
           : _ /\ _)
      with (pre := []) (post := []) (fs := [])
           (e := regular "a" rw_r_r "0123456789");
      try reflexivity.
    intros (_ & _ & (b & Hb & Hend) & _). vm_compute in Hb.
    injection Hb as <-. vm_compute in Hend. discriminate.
Defined.

(** *** Further examples: the selector *)

Lemma X1_witness :
  nameIsSimilar (named "lib.so") (named "lib.so") 1 = true.
Proof.
  apply (proj2 (nameIsSimilar_equivalence 1)). reflexivity.
Defined.

Lemma X2_witness :
  exists s, fuzzySources !! 1%nat = Some s /\
    isDeltaCandidate fuzzyTarget = true /\ isDeltaCandidate (file s) = true /\
    100 - Z.quot (100 * 30) 100 <= size (file s)
      <= 100 + Z.quot (100 * 30) 100 /\
    (forall j, ByFuzzy 1 1 = ByPath j ->
       size (file s) < 100 + Z.quot (100 * 30) 100) /\
    100 < 2 * size (file s) /\ size (file s) < 2 * 100.
Proof.
  apply (partial_reuse_source_in_window fuzzySources ∅ ∅ fuzzyTarget
           (ByFuzzy 1 1)).
  - vm_compute. split; reflexivity.
  - vm_compute. reflexivity.
  - reflexivity.
Defined.

Lemma X3_witness :
  (exists s, fuzzySources !! 1%nat = Some s /\
     qualifies fuzzyTarget 1 s = true) /\
  (forall (i : nat) (s : SourceInfo),
     (i < 1)%nat -> fuzzySources !! i = Some s ->
     qualifies fuzzyTarget 1 s = false) /\
  (1%nat = 1%nat ->
   forall (i : nat) (s : SourceInfo),
     fuzzySources !! i = Some s -> qualifies fuzzyTarget 0 s = false).
Proof.
  apply (fuzzySearch_first_match fuzzySources fuzzyTarget 1 1).
  - apply sizeSortedb_sound. reflexivity.
  - reflexivity.
Defined.

Lemma X4_witness :
  fuzzySearch fuzzySources lonelyTarget = None /\
  forall (fz i : nat) (s : SourceInfo),
    (fz < 2)%nat -> fuzzySources !! i = Some s ->
    qualifies lonelyTarget fz s = false.
Proof.
  split; [reflexivity|].
  apply (fuzzySearch_none fuzzySources lonelyTarget).
  - apply sizeSortedb_sound. reflexivity.
  - reflexivity.
Defined.

Lemma X5_witness :
  let pass := selectionPass (inventoryOf twoDirsOld12)
                (inventoryOf twoDirsNew) in
  file <$> snd (fst pass) = files (inventoryOf twoDirsOld12) /\
  tfile <$> snd pass = files (inventoryOf twoDirsNew) /\
  Forall (fun s => offset s = 0) (snd (fst pass)) /\
  Forall (fun ti =>
            (forall j, source ti = Some j ->
               (j < length (snd (fst pass)))%nat) /\
            (isPartial ti = true -> is_Some (source ti))) (snd pass).
Proof.
  intros pass.
  apply (selectionPass_shape (inventoryOf twoDirsOld12)
           (inventoryOf twoDirsNew) (fst (fst pass)) (snd (fst pass))
           (snd pass)).
  apply selectionPass_eta.
Defined.

Lemma X6_witness :
  let pass := selectionPass (inventoryOf oneFileOld)
                (inventoryOf shrunkAndCopiedNew) in
  usedForDelta
    (mkSource (fileInfoOf 0 (regular "a" rw_r_r "0123456789")) false 0)
    = true <->
  exists (k : nat) (ti : TargetInfo),
    snd pass !! k = Some ti /\ source ti = Some 0%nat /\
    isPartial ti = true /\
    forall (k' : nat) (ti' : TargetInfo),
      (k < k')%nat -> snd pass !! k' = Some ti' -> source ti' <> Some 0%nat.
Proof.
  intros pass.
  apply (flag_decided_by_last_selection (inventoryOf oneFileOld)
           (inventoryOf shrunkAndCopiedNew) (fst (fst pass)) (snd (fst pass))
           (snd pass) 0).
  - apply selectionPass_eta.
  - vm_compute. reflexivity.
Defined.

(** *** Further examples: the scanner *)

Lemma twoDirsOld_accepted : Forall entryAccepted (entries twoDirsOld).
Proof. repeat constructor. Qed.

Lemma X7_witness : exists info, analyzeTar twoDirsOld = Ok info.
Proof.
  apply (proj1 (analyzeTar_succeeds_iff twoDirsOld)).
  split; [reflexivity|]. split; [reflexivity|]. apply twoDirsOld_accepted.
Defined.

Lemma X8_witness : analyzeTar oneFileOldTruncated = Err "unexpected EOF".
Proof.
  apply (proj1 (proj2 (analyzeTar_errors oneFileOldTruncated
                         "unexpected EOF"))
           []
           []
           (mkEntry (mkHeader TypeReg "a" 10 rw_r_r ∅) (bytes "0123")
              (Some "unexpected EOF")));
    try reflexivity.
  constructor.
Defined.

Lemma X9_witness :
  (forall f : TarFileInfo,
     f ∈ files (inventoryOf twoDirsOld) <->
     exists (k : nat) (e : TarEntry),
       entries twoDirsOld !! k = Some e /\ useTarHeader (hdr e) = true /\
       f = fileInfoOf k e) /\
  (forall f : TarFileInfo,
     f ∈ files (inventoryOf twoDirsOld) ->
     size f <> 0 /\ basename f = Base (path f) /\
     exists e, entries twoDirsOld !! index f = Some e /\
       Typeflag (hdr e) = TypeReg /\ isSparseFile (hdr e) = false /\
       path f = Name (hdr e) /\ size f = Size (hdr e) /\
       sha1 f = sha1Hex (data e) /\
       worldReadable f = negb (Z.land (Mode (hdr e)) 4 =? 0)).
Proof.
  apply (inventory_holds_entries_in_use twoDirsOld (inventoryOf twoDirsOld)
           toy_sort_permutation).
  vm_compute. reflexivity.
Defined.

Lemma X10_witness :
  NoDup (index <$> files (inventoryOf twicePOld)) /\
  length (files (inventoryOf twicePOld)) = 2%nat.
Proof.
  apply (inventory_indexes_distinct twicePOld (inventoryOf twicePOld)
           toy_sort_permutation).
  vm_compute. reflexivity.
Defined.

Lemma X11_witness :
  let f := fileInfoOf 1 (regular "a/x" rw_r_r "BBBBBBBBBBBBB") in
  size f = sumBlobSizes (blobs f) /\
  forall (i : nat) (b : RollsumBlob),
    blobs f !! i = Some b -> blob_offset b = sumBlobSizes (take i (blobs f)).
Proof.
  intros f.
  apply (inventory_chunks_add_up twoDirsOld (inventoryOf twoDirsOld) f
           toy_sort_permutation).
  - vm_compute. reflexivity.
  - apply list_elem_of_lookup. exists 1%nat. vm_compute. reflexivity.
  - repeat constructor. vm_compute. discriminate.
  - vm_compute. reflexivity.
Defined.

(** *** Further examples: the spooler and the analysis *)

Lemma twoDirsRun_eq :
  analyzeForDelta (inventoryOf twoDirsOld12) (inventoryOf twoDirsNew)
    twoDirsOld12 emptyWorld = (fst twoDirsRun, Ok (analysisOf twoDirsRun)).
Proof.
  change (analyzeForDelta (inventoryOf twoDirsOld12) (inventoryOf twoDirsNew)
            twoDirsOld12 emptyWorld) with twoDirsRun.
  apply run_eta. vm_compute. eauto.
Qed.

Lemma twicePRun_eq :
  analyzeForDelta (inventoryOf twicePOld) (inventoryOf twicePNew)
    twicePOld emptyWorld = (fst twicePRun, Ok (analysisOf twicePRun)).
Proof.
  change (analyzeForDelta (inventoryOf twicePOld) (inventoryOf twicePNew)
            twicePOld emptyWorld) with twicePRun.
  apply run_eta. vm_compute. eauto.
Qed.

Lemma selfRun_eq :
  analyzeForDelta (inventoryOf twoDirsOld) (inventoryOf twoDirsOld)
    twoDirsOld emptyWorld = (fst selfRun, Ok (analysisOf selfRun)).
Proof.
  change (analyzeForDelta (inventoryOf twoDirsOld) (inventoryOf twoDirsOld)
            twoDirsOld emptyWorld) with selfRun.
  apply run_eta. vm_compute. eauto.
Qed.

Lemma extract_eta (r : list SourceInfo * World * outcome unit) :
  r = (fst (fst r), snd (fst r), snd r).
Proof. destruct r as [[? ?] ?]. reflexivity. Qed.

Lemma X12_witness :
  let sis := sourcesOf (files (inventoryOf oneFileOld)) in
  let sbp := indexBy pathKey sis 0 ∅ in
  let r := extractDeltaData oneFileOld sbp "scratch"
             (alter (setUsedForDelta true) 0%nat sis) smallDisk in
  onlyAppends "scratch" smallDisk (snd (fst r)) /\
  usedForDelta <$> fst (fst r)
    = usedForDelta <$> alter (setUsedForDelta true) 0%nat sis /\
  file <$> fst (fst r) = file <$> alter (setUsedForDelta true) 0%nat sis /\
  forall (j : nat) (s : SourceInfo),
    alter (setUsedForDelta true) 0%nat sis !! j = Some s ->
    usedForDelta s = false -> fst (fst r) !! j = Some s.
Proof.
  intros sis sbp r.
  apply (extractDeltaData_effects oneFileOld sbp "scratch"
           (alter (setUsedForDelta true) 0%nat sis) (fst (fst r)) smallDisk
           (snd (fst r)) (snd r)).
  apply extract_eta.
Defined.

Lemma X13_witness :
  let sis := sourcesOf (files (inventoryOf twoDirsOld)) in
  let sbp := indexBy pathKey sis 0 ∅ in
  extractDeltaData twoDirsOld sbp "scratch" sis emptyWorld
    = (sis, emptyWorld, Ok tt).
Proof.
  intros sis sbp.
  apply (extractDeltaData_nothing_flagged twoDirsOld sbp "scratch" sis
           emptyWorld).
  - reflexivity.
  - repeat constructor.
  - repeat constructor; intros _; vm_compute; eauto.
Defined.

Lemma X14_witness :
  extractDeltaData oneFileOld ∅ "scratch" [] emptyWorld
    = ([], emptyWorld, Panic).
Proof.
  apply (proj1 (extractDeltaData_failures oneFileOld ∅ "scratch" [] []
                  (regular "a" rw_r_r "0123456789") [] [] emptyWorld
                  emptyWorld eq_refl eq_refl eq_refl eq_refl)).
  reflexivity.
Defined.

Lemma X15_witness :
  is_Some (disk (fst twoDirsRun) !! "tar-diff-1") /\
  opened (fst twoDirsRun) = {[ "tar-diff-1" ]} ∪ opened emptyWorld /\
  (forall n : string,
     n <> "tar-diff-1" -> disk (fst twoDirsRun) !! n = disk emptyWorld !! n) /\
  tempNames (fst twoDirsRun) = [] /\
  (freeSpace (fst twoDirsRun) <= freeSpace emptyWorld)%nat /\
  (forall a, Ok (analysisOf twoDirsRun) = Ok a -> sourceData a = "tar-diff-1").
Proof.
  apply (proj2 (analyzeForDelta_scratch_file (inventoryOf twoDirsOld12)
                  (inventoryOf twoDirsNew) twoDirsOld12 emptyWorld)
           "tar-diff-1" [] (fst twoDirsRun) (Ok (analysisOf twoDirsRun))).
  - reflexivity.
  - apply twoDirsRun_eq.
Defined.

Lemma X16_witness :
  disk (Close (analysisOf twoDirsRun) (fst twoDirsRun)) = disk emptyWorld /\
  opened (Close (analysisOf twoDirsRun) (fst twoDirsRun)) = opened emptyWorld.
Proof.
  apply (analyzeForDelta_then_Close (inventoryOf twoDirsOld12)
           (inventoryOf twoDirsNew) twoDirsOld12 emptyWorld (fst twoDirsRun)
           (analysisOf twoDirsRun) twoDirsRun_eq).
  - vm_compute. reflexivity.
  - apply (bool_decide_unpack _). vm_compute. exact I.
Defined.

Lemma X17_witness :
  let pass := selectionPass (inventoryOf twoDirsOld12)
                (inventoryOf twoDirsNew) in
  targetInfos (analysisOf twoDirsRun) = snd pass /\
  file <$> sourceInfos (analysisOf twoDirsRun)
    = files (inventoryOf twoDirsOld12) /\
  usedForDelta <$> sourceInfos (analysisOf twoDirsRun)
    = usedForDelta <$> snd (fst pass) /\
  Forall (fun s => usedForDelta s = false -> offset s = 0)
    (sourceInfos (analysisOf twoDirsRun)).
Proof.
  intros pass.
  apply (analysis_keeps_selection (inventoryOf twoDirsOld12)
           (inventoryOf twoDirsNew) twoDirsOld12 emptyWorld (fst twoDirsRun)
           (analysisOf twoDirsRun) (fst (fst pass)) (snd (fst pass))
           (snd pass) twoDirsRun_eq).
  apply selectionPass_eta.
Defined.

Lemma X18_witness :
  length (targetInfos (analysisOf twoDirsRun)) = 1%nat /\
  forall (k : nat) (ti : TargetInfo),
    targetInfos (analysisOf twoDirsRun) !! k = Some ti ->
    targetInfoByIndex (analysisOf twoDirsRun) !! index (tfile ti) = Some k.
Proof.
  split; [reflexivity|].
  apply (proj2 (targetInfoByIndex_lookup (inventoryOf twoDirsOld12)
                  (inventoryOf twoDirsNew) twoDirsOld12 emptyWorld
                  (fst twoDirsRun) (analysisOf twoDirsRun) twoDirsRun_eq)).
  apply (bool_decide_unpack _). vm_compute. exact I.
Defined.

Lemma X19_witness :
  (forall (k : nat) (f : TarFileInfo),
     files (inventoryOf twoDirsOld) !! k = Some f ->
     targetInfos (analysisOf selfRun) !! k = Some (mkTarget f (Some k) None))
  /\
  Forall (fun s => usedForDelta s = false) (sourceInfos (analysisOf selfRun))
  /\
  disk (fst selfRun) !! sourceData (analysisOf selfRun) = Some [].
Proof.
  apply (analysis_of_archive_against_itself (inventoryOf twoDirsOld)
           twoDirsOld emptyWorld (fst selfRun) (analysisOf selfRun)).
  - repeat constructor.
  - apply (bool_decide_unpack _). vm_compute. exact I.
  - apply selfRun_eq.
Defined.

Lemma X20_witness :
  minSizeOf fuzzyTarget = 100 - Z.quot (100 * 30) 100 /\
  maxSizeOf fuzzyTarget = 100 + Z.quot (100 * 30) 100 /\
  minSizeOf fuzzyTarget <= 100 <= maxSizeOf fuzzyTarget.
Proof.
  apply (window_without_overflow fuzzyTarget).
  - vm_compute. discriminate.
  - vm_compute. reflexivity.
Defined.

Lemma X21_witness :
  let pass := selectionPass (inventoryOf twoDirsOld12)
                (inventoryOf twoDirsNew) in
  let T := fileInfoOf 0 (regular "a/x" rw_r_r "CCCCCCCCCC") in
  let S := fileInfoOf 1 (regular "a/x" rw_r_r "BBBBBBBBBBBB") in
  exists ti, snd pass !! 0%nat = Some ti /\ tfile ti = T /\
    source ti = Some 1%nat /\
    rollsumMatches ti = Some (ComputeRollsumMatches (blobs S) (blobs T)).
Proof.
  intros pass T S.
  apply (same_path_source_selected (inventoryOf twoDirsOld12)
           (inventoryOf twoDirsNew) (fst (fst pass)) (snd (fst pass))
           (snd pass) 0 1 T S).
  - apply selectionPass_eta.
  - vm_compute. reflexivity.
  - vm_compute. reflexivity.
  - reflexivity.
  - intros [|[|j']] S' Hlt HS'; [lia|lia|]. vm_compute in HS'. discriminate.
  - repeat constructor; vm_compute; discriminate.
  - reflexivity.
  - reflexivity.
  - vm_compute. split; [discriminate|reflexivity].
Defined.

Lemma X22_witness :
  let pass := selectionPass (inventoryOf twoDirsOld) (inventoryOf halvedNew) in
  exists ti, snd pass !! 0%nat = Some ti /\
    path (tfile ti) = "a/x" /\ size (tfile ti) = 5 /\
    source ti = None /\ rollsumMatches ti = None.
Proof.
  intros pass.
  exists (mkTarget (fileInfoOf 0 (regular "a/x" rw_r_r "CCCCC")) None None).
  split; [vm_compute; reflexivity|].
  split; [reflexivity|]. split; [reflexivity|].
  apply (stored_verbatim (inventoryOf twoDirsOld) (inventoryOf halvedNew)
           (fst (fst pass)) (snd (fst pass)) (snd pass) 0).
  - apply selectionPass_eta.
  - vm_compute. reflexivity.
  - vm_compute. split; reflexivity.
  - repeat constructor; vm_compute; discriminate.
  - right. repeat constructor; right; right; vm_compute; reflexivity.
Defined.

Lemma X23_witness :
  let pass := selectionPass (inventoryOf twicePOld) (inventoryOf twicePNew) in
  fst (fst pass)
    = indexBy pathKey (initialSources (inventoryOf twicePOld)) 0 ∅ /\
  disk (fst twicePRun) !! sourceData (analysisOf twicePRun)
    = Some (spooledOf (fst (fst pass)) (sourceInfos (analysisOf twicePRun))
              (entries twicePOld)) /\
  nextErr twicePOld = None /\ gzipErr twicePOld = None.
Proof.
  intros pass.
  apply (scratch_file_content (inventoryOf twicePOld) (inventoryOf twicePNew)
           twicePOld emptyWorld (fst twicePRun) (analysisOf twicePRun)
           (fst (fst pass)) (snd (fst pass)) (snd pass) twicePRun_eq).
  apply selectionPass_eta.
Defined.

Lemma X25_witness :
  analyzeTar sparseTruncated = Err "unexpected EOF" /\
  (let sis := sourcesOf (files (inventoryOf oneFileOld)) in
   let sbp := indexBy pathKey sis 0 ∅ in
   extractDeltaData oneFileOldTruncated sbp "scratch" sis emptyWorld
     = (sis, emptyWorld, Err "unexpected EOF")).
Proof.
  split.
  - apply (proj1 (discarded_body_error sparseTruncated [] []
                    (mkEntry (mkHeader TypeGNUSparse "s" 10 rw_r_r ∅)
                       (list_byte_of_string "0123") (Some "unexpected EOF"))
                    "unexpected EOF" eq_refl eq_refl eq_refl)).
    + constructor.
    + reflexivity.
  - intros sis sbp.
    apply (proj2 (discarded_body_error oneFileOldTruncated [] []
                    (mkEntry (mkHeader TypeReg "a" 10 rw_r_r ∅)
                       (list_byte_of_string "0123") (Some "unexpected EOF"))
                    "unexpected EOF" eq_refl eq_refl eq_refl)
             sbp "scratch" sis sis emptyWorld emptyWorld eq_refl).
    right. vm_compute. eauto.
Defined.

End Examples.
